(** * Alien Planet Survival: the game-state engine of [game.js]

    A shallow embedding of the classes [Item], [Creature], [Room], [Player]
    and [GameEngine] of [game.js], followed by the properties of the engine
    that the specification states.

    Conventions of the model.
    - JS strings are [string]s of ASCII characters: [toLowerCase] and [trim]
      act on the ASCII letters and the ASCII white space, and leave any
      other character as it is.
    - JS numbers that the engine manipulates are integers, modelled in [Z];
      a value returned by [Math.random()] is a rational of [Q].
    - The objects stored in [gameEngine.creatures] are shared with the rooms
      that contain them: rooms hold the registry key of each creature and the
      registry is the store.  Items are never mutated and are held by value.
    - The DOM (output log, status displays, buttons) is not part of the
      state. *)

From Stdlib Require Import ZArith QArith Qround String Ascii List Lia Bool.
From stdpp Require Import base gmap strings list fin_maps pretty.

Open Scope string_scope.
Open Scope Z_scope.

(** ** JS strings

    A string is a sequence of characters below U+0080, one [ascii] each.
    On these [trim], [toLowerCase], [split] and [join] are the methods of
    [String.prototype].  Above U+007F they are not: [trim] of JS also strips
    U+00A0, U+FEFF, U+2028, U+2029 and the other Unicode spaces, and
    [toLowerCase] of JS also folds letters there (U+212A, the Kelvin sign,
    to [k]), while the definitions below leave every such character as it
    is.  [isAscii] is the domain; a statement that reads a token off the
    input as typed and says what the engine does with it carries it. *)

Module JsString.

(** Every character of [s] is below U+0080. *)
Fixpoint isAscii (s : string) : bool :=
  match s with
  | EmptyString => true
  | String c s' => (nat_of_ascii c <? 128)%nat && isAscii s'
  end.

Definition dq : string := String (ascii_of_nat 34) "".
Definition nl : string := String (ascii_of_nat 10) "".

Definition isUpper (c : ascii) : bool :=
  let n := nat_of_ascii c in (65 <=? n)%nat && (n <=? 90)%nat.

Definition lowerChar (c : ascii) : ascii :=
  if isUpper c then ascii_of_nat (nat_of_ascii c + 32) else c.

(** [String.prototype.toLowerCase], on characters below U+0080. *)
Fixpoint toLowerCase (s : string) : string :=
  match s with
  | EmptyString => EmptyString
  | String c s' => String (lowerChar c) (toLowerCase s')
  end.

(** White space and line terminators below U+0080. *)
Definition isWhite (c : ascii) : bool :=
  let n := nat_of_ascii c in
  ((9 <=? n)%nat && (n <=? 13)%nat) || (n =? 32)%nat.

Fixpoint trimStart (s : string) : string :=
  match s with
  | EmptyString => EmptyString
  | String c s' => if isWhite c then trimStart s' else s
  end.

Fixpoint trimEnd (s : string) : string :=
  match s with
  | EmptyString => EmptyString
  | String c s' =>
      match trimEnd s' with
      | EmptyString => if isWhite c then EmptyString else String c EmptyString
      | t => String c t
      end
  end.

(** [String.prototype.trim], on characters below U+0080. *)
Definition trim (s : string) : string := trimEnd (trimStart s).

(** [s.split(sep)] for a one-character separator: never empty. *)
Fixpoint split (sep : ascii) (s : string) : list string :=
  match s with
  | EmptyString => [EmptyString]
  | String c s' =>
      if Ascii.eqb c sep then EmptyString :: split sep s'
      else match split sep s' with
           | [] => [String c EmptyString]
           | w :: ws => String c w :: ws
           end
  end.

(** [l.join(sep)] *)
Fixpoint join (sep : string) (l : list string) : string :=
  match l with
  | [] => EmptyString
  | [x] => x
  | x :: xs => x +:+ sep +:+ join sep xs
  end.

(** Template interpolation of an integer. *)
Definition ofNumber (z : Z) : string := pretty z.

(** [x === y] on strings *)
Definition seq (x y : string) : bool := String.eqb x y.

End JsString.

Import JsString.

(** ** JS values that can end up in [player.currentLocation]

    [currentRoom.exits[key]] reads an own property of the object literal or,
    failing that, a property inherited from [Object.prototype]; the latter is
    a function or an object, never a string. *)

Inductive JsValue : Type :=
| JsStr (s : string)
| JsInherited (prop : string).

Definition objectPrototypeKeys : list string :=
  [ "constructor"; "__proto__"; "hasOwnProperty"; "isPrototypeOf";
    "propertyIsEnumerable"; "toLocaleString"; "toString"; "valueOf";
    "__defineGetter__"; "__defineSetter__"; "__lookupGetter__";
    "__lookupSetter__" ].

(** [!v] is false for these values except the empty string. *)
Definition truthy (v : JsValue) : bool :=
  match v with
  | JsStr EmptyString => false
  | _ => true
  end.

(** The property key a value is converted to when it indexes an object. *)
Definition toPropertyKey (v : JsValue) : string :=
  match v with
  | JsStr s => s
  | JsInherited p =>
      if seq p "__proto__" then "[object Object]"
      else "function " +:+ (if seq p "constructor" then "Object" else p)
           +:+ "() { [native code] }"
  end.

(** [v === 'literal'] *)
Definition strictEqStr (v : JsValue) (s : string) : bool :=
  match v with
  | JsStr t => seq t s
  | JsInherited _ => false
  end.

Fixpoint ownProperty (key : string) (o : list (string * string)) : option string :=
  match o with
  | [] => None
  | (k, v) :: o' => if seq k key then Some v else ownProperty key o'
  end.

(** [o[key]] for an object literal [o] with string values. *)
Definition getProperty (o : list (string * string)) (key : string) : option JsValue :=
  match ownProperty key o with
  | Some v => Some (JsStr v)
  | None =>
      if existsb (seq key) objectPrototypeKeys then Some (JsInherited key)
      else None
  end.

(** [Array.prototype.findIndex] followed by [splice(index, 1)]: the removed
    element and the remaining array, when some element satisfies [p]. *)
Fixpoint spliceFirst {A : Type} (p : A -> bool) (l : list A) : option (A * list A) :=
  match l with
  | [] => None
  | x :: l' =>
      if p x then Some (x, l')
      else match spliceFirst p l' with
           | Some (y, r) => Some (y, x :: r)
           | None => None
           end
  end.

(** ** Item *)

(** The [use] method of an item: the default of the class, or one of the
    functions that [createItems] assigns. *)
Inductive UseMethod : Type :=
| UseDefault
| UseMedkit
| UseEnergyBar
| UseFlashlight
| UseBattery
| UseBeacon.

Module Item.

Record t : Type := mk {
  id : string;
  name : string;
  description : string;
  isUsable : bool;
  isEquippable : bool;
  use : UseMethod
}.

Definition getDescription (i : t) : string := description i.

End Item.

(** ** Creature *)

Module Creature.

Record t : Type := mk {
  id : string;
  name : string;
  description : string;
  health : Z;
  maxHealth : Z;
  damage : Z;
  isHostile : bool;
  isAlive : bool
}.

(** [new Creature(id, name, description, health, damage, isHostile)] *)
Definition new (id name description : string) (health damage : Z)
    (isHostile : bool) : t :=
  mk id name description health health damage isHostile true.

Definition setHealth (h : Z) (c : t) : t :=
  mk (id c) (name c) (description c) h (maxHealth c) (damage c)
     (isHostile c) (isAlive c).

Definition setIsAlive (b : bool) (c : t) : t :=
  mk (id c) (name c) (description c) (health c) (maxHealth c) (damage c)
     (isHostile c) b.

(** [takeDamage(amount)]: whether the creature died, and the creature. *)
Definition takeDamage (amount : Z) (c : t) : bool * t :=
  let c1 := setHealth (health c - amount) c in
  if health c1 <=? 0 then (true, setIsAlive false (setHealth 0 c1))
  else (false, c1).

Definition checkStatus (c : t) : string :=
  if negb (isAlive c) then name c +:+ " is dead."
  else name c +:+ " (Health: " +:+ ofNumber (health c) +:+ "/"
       +:+ ofNumber (maxHealth c) +:+ ")".

Definition getDescription (c : t) : string := description c.

(** The roll [Math.floor(Math.random() * this.damage) + 1]. *)
Definition damageRoll (random : Q) (c : t) : Z :=
  Qfloor (random * inject_Z (damage c)) + 1.

End Creature.

(** ** Room *)

Module Room.

Record t : Type := mk {
  id : string;
  name : string;
  description : string;
  image : string;
  items : list Item.t;
  creatures : list string;
  exits : list (string * string);
  isVisited : bool
}.

(** [new Room(id, name, description, image)] *)
Definition new (id name description image : string) : t :=
  mk id name description image [] [] [] false.

Definition setItems (l : list Item.t) (r : t) : t :=
  mk (id r) (name r) (description r) (image r) l (creatures r) (exits r)
     (isVisited r).

Definition setCreatures (l : list string) (r : t) : t :=
  mk (id r) (name r) (description r) (image r) (items r) l (exits r)
     (isVisited r).

Definition setExits (e : list (string * string)) (r : t) : t :=
  mk (id r) (name r) (description r) (image r) (items r) (creatures r) e
     (isVisited r).

Definition setIsVisited (b : bool) (r : t) : t :=
  mk (id r) (name r) (description r) (image r) (items r) (creatures r)
     (exits r) b.

(** The creature objects of the room, read through the store. *)
Definition creatureObjects (store : gmap string Creature.t) (r : t)
    : list Creature.t :=
  omap (fun k => store !! k) (creatures r).

Definition getExits (r : t) : list string := map fst (exits r).

Definition getDescription (store : gmap string Creature.t) (r : t) : string :=
  let desc := "<span class=" +:+ dq +:+ "location-name" +:+ dq +:+ ">"
              +:+ name r +:+ "</span>" +:+ nl +:+ nl +:+ description r in
  let desc :=
    if (0 <? length (items r))%nat then
      desc +:+ nl +:+ nl +:+ "You see: "
      +:+ join ", " (map (fun item => "<span class=" +:+ dq +:+ "item-name"
                                      +:+ dq +:+ ">" +:+ Item.name item
                                      +:+ "</span>") (items r))
    else desc in
  let desc :=
    if (0 <? length (creatures r))%nat then
      desc +:+ nl +:+ nl +:+ "Creatures: "
      +:+ join ", " (map (fun creature => "<span class=" +:+ dq
                                          +:+ "creature-name" +:+ dq +:+ ">"
                                          +:+ Creature.name creature
                                          +:+ "</span>")
                         (creatureObjects store r))
    else desc in
  let exitDirections := getExits r in
  if (0 <? length exitDirections)%nat then
    desc +:+ nl +:+ nl +:+ "Exits: " +:+ join ", " exitDirections
  else desc +:+ nl +:+ nl +:+ "There are no obvious exits.".

Definition addItem (item : Item.t) (r : t) : t :=
  setItems (items r ++ [item]) r.

(** [removeItem(itemId)]: the removed item ([None] for [null]) and the room. *)
Definition removeItem (itemId : string) (r : t) : option Item.t * t :=
  match spliceFirst (fun item => seq (Item.id item) itemId) (items r) with
  | Some (item, rest) => (Some item, setItems rest r)
  | None => (None, r)
  end.

Definition addCreature (creature : string) (r : t) : t :=
  setCreatures (creatures r ++ [creature]) r.

Definition hasId (store : gmap string Creature.t) (creatureId : string)
    (k : string) : bool :=
  match store !! k with
  | Some c => seq (Creature.id c) creatureId
  | None => false
  end.

Definition removeCreature (store : gmap string Creature.t)
    (creatureId : string) (r : t) : option string * t :=
  match spliceFirst (hasId store creatureId) (creatures r) with
  | Some (k, rest) => (Some k, setCreatures rest r)
  | None => (None, r)
  end.

Definition getItem (itemId : string) (r : t) : option Item.t :=
  find (fun item => seq (Item.id item) itemId) (items r).

Definition hasName (store : gmap string Creature.t) (name : string)
    (k : string) : bool :=
  match store !! k with
  | Some c => seq (toLowerCase (Creature.name c)) (toLowerCase name)
  | None => false
  end.

(** [getCreatureByName(name)]: the store key of the creature found. *)
Definition getCreatureByName (store : gmap string Creature.t) (name : string)
    (r : t) : option string :=
  find (hasName store name) (creatures r).

End Room.

(** ** Player *)

Module Player.

Record t : Type := mk {
  health : Z;
  maxHealth : Z;
  inventory : list Item.t;
  currentLocation : JsValue;
  isAlive : bool
}.

(** [new Player(startingRoom)] *)
Definition new (startingRoom : string) : t :=
  mk 100 100 [] (JsStr startingRoom) true.

Definition setHealth (h : Z) (p : t) : t :=
  mk h (maxHealth p) (inventory p) (currentLocation p) (isAlive p).

Definition setInventory (l : list Item.t) (p : t) : t :=
  mk (health p) (maxHealth p) l (currentLocation p) (isAlive p).

Definition setCurrentLocation (v : JsValue) (p : t) : t :=
  mk (health p) (maxHealth p) (inventory p) v (isAlive p).

Definition setIsAlive (b : bool) (p : t) : t :=
  mk (health p) (maxHealth p) (inventory p) (currentLocation p) b.

Definition takeDamage (amount : Z) (p : t) : t :=
  let p1 := setHealth (health p - amount) p in
  if health p1 <=? 0 then setIsAlive false (setHealth 0 p1) else p1.

Definition checkStatus (p : t) : string :=
  if negb (isAlive p) then "You are dead."
  else "Health: " +:+ ofNumber (health p) +:+ "/" +:+ ofNumber (maxHealth p).

Definition getInventory (p : t) : string :=
  if (length (inventory p) =? 0)%nat then "Your inventory is empty."
  else join ", " (map Item.name (inventory p)).

End Player.

(** [Creature.prototype.attack(player)]: [None] stands for [undefined]. *)
Definition Creature_attack (random : Q) (c : Creature.t) (p : Player.t)
    : option string * Player.t :=
  if negb (Creature.isAlive c) || negb (Creature.isHostile c) then (None, p)
  else
    let damageDealt := Creature.damageRoll random c in
    (Some (Creature.name c +:+ " attacks you for " +:+ ofNumber damageDealt
           +:+ " damage!"),
     Player.takeDamage damageDealt p).


(** ** GameEngine *)

Module GameEngine.

Record t : Type := mk {
  rooms : gmap string Room.t;
  items : gmap string Item.t;
  creatures : gmap string Creature.t;
  player : Player.t;
  isGameOver : bool;
  isWin : bool
}.

Definition setRooms (m : gmap string Room.t) (g : t) : t :=
  mk m (items g) (creatures g) (player g) (isGameOver g) (isWin g).

Definition setCreatures (m : gmap string Creature.t) (g : t) : t :=
  mk (rooms g) (items g) m (player g) (isGameOver g) (isWin g).

Definition setPlayer (p : Player.t) (g : t) : t :=
  mk (rooms g) (items g) (creatures g) p (isGameOver g) (isWin g).

Definition setIsGameOver (b : bool) (g : t) : t :=
  mk (rooms g) (items g) (creatures g) (player g) b (isWin g).

Definition setIsWin (b : bool) (g : t) : t :=
  mk (rooms g) (items g) (creatures g) (player g) (isGameOver g) b.

(** [getRoom(roomId)]: [this.rooms[roomId] || null].  Only the own
    properties of [this.rooms] are rooms; the engine never asks for a key
    that names an inherited property (see [location_known] below). *)
Definition getRoom (roomId : JsValue) (g : t) : option Room.t :=
  rooms g !! toPropertyKey roomId.

(** A room object mutated in place is the one stored under its key. *)
Definition putRoom (roomId : JsValue) (r : Room.t) (g : t) : t :=
  setRooms (<[toPropertyKey roomId := r]> (rooms g)) g.

(** *** The methods of [Player] that take the engine *)

Definition Player_move (direction : string) (g : t) : string * t :=
  let p := player g in
  match getRoom (Player.currentLocation p) g with
  | None => ("You're in an unknown location.", g)
  | Some currentRoom =>
      match getProperty (Room.exits currentRoom) (toLowerCase direction) with
      | None => ("You can't go " +:+ direction +:+ " from here.", g)
      | Some nextRoomId =>
          if negb (truthy nextRoomId) then
            ("You can't go " +:+ direction +:+ " from here.", g)
          else
            let g1 := setPlayer (Player.setCurrentLocation nextRoomId p) g in
            match getRoom nextRoomId g1 with
            | None => ("You move to an unknown location.", g1)
            | Some nextRoom =>
                let nextRoom' :=
                  if negb (Room.isVisited nextRoom)
                  then Room.setIsVisited true nextRoom else nextRoom in
                let g2 := putRoom nextRoomId nextRoom' g1 in
                (Room.getDescription (creatures g2) nextRoom', g2)
            end
      end
  end.

Definition Player_take (itemId : string) (g : t) : string * t :=
  let p := player g in
  match getRoom (Player.currentLocation p) g with
  | None => ("You're in an unknown location.", g)
  | Some currentRoom =>
      let resolved :=
        match Room.getItem itemId currentRoom with
        | Some _ => Some itemId
        | None =>
            match find (fun i => seq (toLowerCase (Item.name i))
                                     (toLowerCase itemId))
                       (Room.items currentRoom) with
            | None => None
            | Some itemByName => Some (Item.id itemByName)
            end
        end in
      match resolved with
      | None => ("There is no " +:+ itemId +:+ " here.", g)
      | Some itemId' =>
          match Room.removeItem itemId' currentRoom with
          | (Some takenItem, currentRoom') =>
              let g1 := putRoom (Player.currentLocation p) currentRoom' g in
              ("You take the " +:+ Item.name takenItem +:+ ".",
               setPlayer (Player.setInventory
                            (Player.inventory p ++ [takenItem]) p) g1)
          | (None, _) => ("You can't take that.", g)
          end
      end
  end.

Definition hasItem (itemId : string) (p : Player.t) : bool :=
  existsb (fun item => seq (Item.id item) itemId) (Player.inventory p).

(** [item.use(player)]: the class method or the function bound by
    [createItems]; the beacon's function writes the flags of the engine. *)
Definition Item_use (item : Item.t) (g : t) : string * t :=
  let p := player g in
  match Item.use item with
  | UseDefault =>
      ("You can't use the " +:+ Item.name item +:+ " right now.", g)
  | UseMedkit =>
      let healAmount := 50 in
      (("<span class=" +:+ dq +:+ "success-text" +:+ dq
        +:+ ">You use the medkit and restore " +:+ ofNumber healAmount
        +:+ " health.</span>"),
       setPlayer (Player.setHealth
                    (Z.min (Player.health p + healAmount)
                           (Player.maxHealth p)) p) g)
  | UseEnergyBar =>
      let healAmount := 20 in
      (("<span class=" +:+ dq +:+ "success-text" +:+ dq
        +:+ ">You eat the energy bar and restore " +:+ ofNumber healAmount
        +:+ " health.</span>"),
       setPlayer (Player.setHealth
                    (Z.min (Player.health p + healAmount)
                           (Player.maxHealth p)) p) g)
  | UseFlashlight =>
      (("<span class=" +:+ dq +:+ "info-text" +:+ dq
        +:+ ">You turn on the flashlight. The beam cuts through the darkness.</span>"),
       g)
  | UseBattery =>
      if hasItem "beacon" p then
        (("<span class=" +:+ dq +:+ "success-text" +:+ dq
          +:+ ">You install the battery in the beacon. It's now ready to activate!</span>"),
         g)
      else
        (("<span class=" +:+ dq +:+ "warning-text" +:+ dq
          +:+ ">You have nothing to use the battery with.</span>"),
         g)
  | UseBeacon =>
      if strictEqStr (Player.currentLocation p) "mountain_peak" then
        if hasItem "battery" p then
          (("<span class=" +:+ dq +:+ "success-text" +:+ dq
            +:+ ">You activate the rescue beacon! A signal shoots into the sky... Rescue is on the way! YOU WIN!</span>"),
           setIsGameOver true (setIsWin true g))
        else
          (("<span class=" +:+ dq +:+ "warning-text" +:+ dq
            +:+ ">The beacon needs power. You need to find a battery first.</span>"),
           g)
      else
        (("<span class=" +:+ dq +:+ "warning-text" +:+ dq
          +:+ ">You need to be at the mountain peak to activate the beacon effectively.</span>"),
         g)
  end.

Definition Player_use (itemId : string) (g : t) : string * t :=
  match find (fun i => seq (Item.id i) itemId
                       || seq (toLowerCase (Item.name i)) (toLowerCase itemId))
             (Player.inventory (player g)) with
  | None => ("You don't have a " +:+ itemId +:+ ".", g)
  | Some item =>
      if negb (Item.isUsable item) then
        ("You can't use the " +:+ Item.name item +:+ ".", g)
      else Item_use item g
  end.

(** The roll [Math.floor(Math.random() * 15) + 5] of [Player.attack].  The
    product is exact here; in double precision a value below 1 times 15 is
    rounded to at most 15 - 2^-49, so the floor stays within 0..14 there
    too. *)
Definition playerDamageRoll (random : Q) : Z :=
  Qfloor (random * 15) + 5.

(** ["\n" + counterAttack], where [undefined] prints as its name. *)
Definition orUndefined (s : option string) : string :=
  match s with
  | Some s => s
  | None => "undefined"
  end.

(** [randoms] holds the values of the two calls of [Math.random()] that one
    attack can make, in order. *)
Definition Player_attack (randoms : Q * Q) (creatureName : string) (g : t)
    : string * t :=
  let p := player g in
  match getRoom (Player.currentLocation p) g with
  | None => ("You're in an unknown location.", g)
  | Some currentRoom =>
      match Room.getCreatureByName (creatures g) creatureName currentRoom with
      | None => ("There is no " +:+ creatureName +:+ " here.", g)
      | Some key =>
          match creatures g !! key with
          | None => ("There is no " +:+ creatureName +:+ " here.", g)
          | Some creature =>
              if negb (Creature.isAlive creature) then
                ("The " +:+ creatureName +:+ " is already dead.", g)
              else if negb (Creature.isHostile creature) then
                ("The " +:+ creatureName
                 +:+ " is not hostile and doesn't want to fight.", g)
              else
                let playerDamage := playerDamageRoll (fst randoms) in
                let '(creatureDied, creature') :=
                  Creature.takeDamage playerDamage creature in
                let g1 := setCreatures (<[key := creature']> (creatures g)) g in
                let result := "You attack the " +:+ Creature.name creature'
                              +:+ " for " +:+ ofNumber playerDamage
                              +:+ " damage!" in
                if creatureDied then
                  let '(_, currentRoom') :=
                    Room.removeCreature (creatures g1)
                      (Creature.id creature') currentRoom in
                  (result +:+ " The " +:+ Creature.name creature'
                   +:+ " is dead!",
                   putRoom (Player.currentLocation p) currentRoom' g1)
                else
                  let '(counterAttack, p') :=
                    Creature_attack (snd randoms) creature' p in
                  (result +:+ nl +:+ orUndefined counterAttack,
                   setPlayer p' g1)
          end
      end
  end.

(** *** World construction *)

Definition createRooms (rooms : gmap string Room.t) : gmap string Room.t :=
  let rooms := <["crash_site" := Room.new
    "crash_site"
    "Crash Site"
    "The smoldering wreckage of your spaceship lies scattered around you. The alien air is thin and cold. Strange purple plants grow in clusters around the metal debris."
    "assets/crash_site.png"]> rooms in
  let rooms := <["alien_forest" := Room.new
    "alien_forest"
    "Alien Forest"
    "Tall, bioluminescent trees tower above you, their glowing blue leaves casting eerie shadows. The ground is soft and spongy, and you hear strange rustling sounds in the distance."
    "assets/alien_forest.png"]> rooms in
  let rooms := <["crystal_caves" := Room.new
    "crystal_caves"
    "Crystal Caves"
    "The walls of this cave are lined with shimmering crystals that pulse with an inner light. The air hums with energy, and you can hear dripping water echoing in the distance."
    "assets/crystal_caves.png"]> rooms in
  let rooms := <["research_facility" := Room.new
    "research_facility"
    "Abandoned Research Facility"
    "This once-bustling research facility is now silent and dusty. Broken equipment lines the walls, and computer screens flicker with error messages. Papers and data pads are scattered on the floor."
    "assets/research_facility.png"]> rooms in
  let rooms := <["mountain_peak" := Room.new
    "mountain_peak"
    "Mountain Peak"
    "You stand at the highest point of the alien mountain range. The view is breathtaking - you can see the entire alien landscape spread out below. The wind howls fiercely at this altitude."
    "assets/mountain_peak.png"]> rooms in
  let rooms := <["underground_tunnels" := Room.new
    "underground_tunnels"
    "Underground Tunnels"
    "These dark, narrow tunnels wind deep beneath the planet's surface. The air is damp and musty, and strange markings cover the walls."
    "assets/underground_tunnels.png"]> rooms in
  let rooms := alter (Room.setExits
    [("north", "alien_forest"); ("east", "crystal_caves")])
    "crash_site" rooms in
  let rooms := alter (Room.setExits
    [("south", "crash_site"); ("east", "mountain_peak");
     ("west", "underground_tunnels")])
    "alien_forest" rooms in
  let rooms := alter (Room.setExits
    [("west", "crash_site"); ("north", "research_facility")])
    "crystal_caves" rooms in
  let rooms := alter (Room.setExits
    [("south", "crystal_caves"); ("east", "mountain_peak")])
    "research_facility" rooms in
  let rooms := alter (Room.setExits
    [("west", "alien_forest"); ("south", "research_facility")])
    "mountain_peak" rooms in
  alter (Room.setExits
    [("east", "alien_forest"); ("north", "crystal_caves")])
    "underground_tunnels" rooms.

Definition createItems : gmap string Item.t :=
  list_to_map
    [ ("medkit", Item.mk "medkit" "Medkit"
         "A medical kit that can restore health." true false UseMedkit);
      ("energy_bar", Item.mk "energy_bar" "Energy Bar"
         "A high-energy food bar that restores a small amount of health."
         true false UseEnergyBar);
      ("flashlight", Item.mk "flashlight" "Flashlight"
         "A sturdy flashlight that can illuminate dark areas."
         true false UseFlashlight);
      ("knife", Item.mk "knife" "Combat Knife"
         "A sharp combat knife that increases your damage in combat."
         false true UseDefault);
      ("keycard", Item.mk "keycard" "Research Facility Keycard"
         "A keycard that grants access to the research facility."
         false false UseDefault);
      ("battery", Item.mk "battery" "Power Battery"
         "A high-capacity battery that can power electronic devices."
         true false UseBattery);
      ("beacon", Item.mk "beacon" "Rescue Beacon"
         "A distress beacon that can call for rescue when activated at the mountain peak."
         true false UseBeacon);
      ("crystal", Item.mk "crystal" "Energy Crystal"
         "A glowing crystal that hums with power. It might be useful for repairing equipment."
         false false UseDefault);
      ("datapad", Item.mk "datapad" "Research Datapad"
         "A datapad containing research notes about the alien planet."
         false false UseDefault) ].

Definition createCreatures : gmap string Creature.t :=
  list_to_map
    [ ("xenomorph", Creature.new "xenomorph" "Xenomorph"
         "A terrifying alien creature with sharp claws and dripping fangs. It moves with unnatural speed."
         50 15 true);
      ("alien_beast", Creature.new "alien_beast" "Alien Beast"
         "A large, six-legged creature with tough hide and powerful jaws. It looks hungry."
         70 10 true);
      ("swarm", Creature.new "swarm" "Alien Swarm"
         "A swarm of small, flying alien creatures that move as one. Individually weak, but dangerous in numbers."
         30 8 true);
      ("friendly_alien", Creature.new "friendly_alien" "Peaceful Alien"
         "A small, timid creature with large eyes. It seems curious rather than hostile."
         20 0 false) ].

(** [this.rooms.<room>.addItem(this.items.<item>)] *)
Definition placeItem (items : gmap string Item.t) (room item : string)
    (rooms : gmap string Room.t) : gmap string Room.t :=
  match items !! item with
  | Some i => alter (Room.addItem i) room rooms
  | None => rooms
  end.

(** [this.rooms.<room>.addCreature(this.creatures.<creature>)] *)
Definition placeCreature (room creature : string)
    (rooms : gmap string Room.t) : gmap string Room.t :=
  alter (Room.addCreature creature) room rooms.

Definition placeItemsAndCreatures (items : gmap string Item.t)
    (rooms : gmap string Room.t) : gmap string Room.t :=
  let rooms := placeItem items "crash_site" "flashlight" rooms in
  let rooms := placeItem items "crash_site" "energy_bar" rooms in
  let rooms := placeItem items "alien_forest" "medkit" rooms in
  let rooms := placeCreature "alien_forest" "xenomorph" rooms in
  let rooms := placeItem items "crystal_caves" "crystal" rooms in
  let rooms := placeCreature "crystal_caves" "swarm" rooms in
  let rooms := placeItem items "research_facility" "keycard" rooms in
  let rooms := placeItem items "research_facility" "datapad" rooms in
  let rooms := placeItem items "research_facility" "battery" rooms in
  let rooms := placeCreature "research_facility" "alien_beast" rooms in
  let rooms := placeItem items "mountain_peak" "beacon" rooms in
  let rooms := placeItem items "underground_tunnels" "knife" rooms in
  placeCreature "underground_tunnels" "friendly_alien" rooms.

(** The engine after [new GameEngine()]. *)
Definition initializeGame : t :=
  let rooms := createRooms ∅ in
  let items := createItems in
  let creatures := createCreatures in
  let rooms := placeItemsAndCreatures items rooms in
  let player := Player.new "crash_site" in
  let g := mk rooms items creatures player false false in
  match getRoom (Player.currentLocation player) g with
  | Some startRoom =>
      putRoom (Player.currentLocation player)
              (Room.setIsVisited true startRoom) g
  | None => g
  end.

(** *** Turn processing *)

Definition getHelpText : string :=
  "Available commands:" +:+ nl
  +:+ "- go/move/walk [direction] - Move in a direction (north, south, east, west)" +:+ nl
  +:+ "- look/l - Look around the current area" +:+ nl
  +:+ "- take/get [item] - Pick up an item" +:+ nl
  +:+ "- use [item] - Use an item from your inventory" +:+ nl
  +:+ "- attack/fight/hit [creature] - Attack a creature" +:+ nl
  +:+ "- inventory/inv/i - Check your inventory" +:+ nl
  +:+ "- status/health/hp - Check your health status" +:+ nl
  +:+ "- help/h/? - Show this help text" +:+ nl
  +:+ nl
  +:+ "Your goal: Survive the alien creatures and find a way to call for rescue!".

Definition checkGameConditions (g : t) : t :=
  if negb (Player.isAlive (player g)) then setIsGameOver true g else g.

(** [case] labels that share one branch of the [switch]. *)
Definition isCase (action : string) (labels : list string) : bool :=
  existsb (seq action) labels.

(** The verb and the argument that [processCommand] reads off the input. *)
Definition parts (command : string) : list string :=
  split " " (toLowerCase (trim command)).

Definition action (command : string) : string := hd "" (parts command).

Definition target (command : string) : string :=
  join " " (tl (parts command)).

(** The [switch] of [processCommand]. *)
Definition dispatch (randoms : Q * Q) (command : string) (g : t) : string * t :=
  let action := action command in
  let target := target command in
  if isCase action ["go"; "move"; "walk"] then
    if seq target "" then
      ("Go where? Specify a direction (north, south, east, west).", g)
    else Player_move target g
  else if isCase action ["look"; "l"] then
    match getRoom (Player.currentLocation (player g)) g with
    | Some currentRoom => (Room.getDescription (creatures g) currentRoom, g)
    | None => ("You're in an unknown location.", g)
    end
  else if isCase action ["take"; "get"] then
    if seq target "" then ("Take what? Specify an item name.", g)
    else Player_take target g
  else if isCase action ["use"] then
    if seq target "" then ("Use what? Specify an item name.", g)
    else Player_use target g
  else if isCase action ["attack"; "fight"; "hit"] then
    if seq target "" then ("Attack what? Specify a creature name.", g)
    else Player_attack randoms target g
  else if isCase action ["inventory"; "inv"; "i"] then
    ("Inventory: " +:+ Player.getInventory (player g), g)
  else if isCase action ["status"; "health"; "hp"] then
    ("Status: " +:+ Player.checkStatus (player g), g)
  else if isCase action ["help"; "h"; "?"] then
    (getHelpText, g)
  else
    ("I don't understand '" +:+ command
     +:+ "'. Type 'help' for available commands.", g).

Definition gameOverMessage : string :=
  "The game is over. Refresh the page to play again.".

(** [processCommand(command)]: the returned text and the engine after the
    call.  [randoms] are the values that [Math.random()] returns during the
    call. *)
Definition processCommand (randoms : Q * Q) (command : string) (g : t)
    : string * t :=
  if isGameOver g then (gameOverMessage, g)
  else
    let '(result, g1) := dispatch randoms command g in
    (result, checkGameConditions g1).

End GameEngine.

Import GameEngine.

(** * Definitions for the properties *)

(** ** Random values and reachable states *)

(** [Math.random()] returns a value in the interval from 0 (included) to 1
    (excluded). *)
Definition validRandom (r : Q) : Prop := (0 <= r)%Q /\ (r < 1)%Q.

Definition validRandoms (rs : Q * Q) : Prop :=
  validRandom (fst rs) /\ validRandom (snd rs).

(** The states of the engine: the one built by the constructor, and those
    that [processCommand] leaves behind. *)
Inductive reachable : GameEngine.t -> Prop :=
| reachable_init : reachable initializeGame
| reachable_step (g : GameEngine.t) (randoms : Q * Q) (command : string) :
    reachable g ->
    validRandoms randoms ->
    reachable (snd (processCommand randoms command g)).

(** Running a list of commands, collecting the outputs. *)
Fixpoint processCommands (inputs : list (Q * Q * string)) (g : GameEngine.t)
    : list string * GameEngine.t :=
  match inputs with
  | [] => ([], g)
  | (randoms, command) :: rest =>
      let '(out, g1) := processCommand randoms command g in
      let '(outs, g2) := processCommands rest g1 in
      (out :: outs, g2)
  end.

(** ** The initial world *)

(** The rooms of the initial engine, as the list of its entries. *)
Definition initialRooms : list (string * Room.t) :=
  Eval vm_compute in map_to_list (rooms initializeGame).

(** The opposite compass direction. *)
Definition opposite (d : string) : string :=
  if seq d "north" then "south"
  else if seq d "south" then "north"
  else if seq d "east" then "west"
  else if seq d "west" then "east"
  else d.

(** Every exit has the matching reverse edge. *)
Definition exitsHaveReverse (rooms : gmap string Room.t) : Prop :=
  forall (a : string) (ra : Room.t) (d b : string),
    rooms !! a = Some ra ->
    ownProperty d (Room.exits ra) = Some b ->
    exists rb : Room.t,
      rooms !! b = Some rb /\ ownProperty (opposite d) (Room.exits rb) = Some a.

(** The exits of the initial world that have no matching reverse edge. *)
Definition isOneWay (a d : string) : bool :=
  existsb (fun e => seq (fst e) a && seq (snd e) d)
    [ ("research_facility", "east");
      ("mountain_peak", "south");
      ("underground_tunnels", "north") ].

(** The items of the initial rooms, each with the key of its room. *)
Definition placedItems : list (string * Item.t) :=
  Eval vm_compute in
    initialRooms ≫= (fun kr => map (fun i => (fst kr, i)) (Room.items (snd kr))).

(** The creatures of the initial rooms, each with the key of its room. *)
Definition placedCreatures : list (string * string) :=
  Eval vm_compute in
    initialRooms ≫= (fun kr => map (fun c => (fst kr, c)) (Room.creatures (snd kr))).

(** Two placed items that share an id, or a lower-cased name, or such that the
    id of one is the lower-cased name of the other, are the same item in the
    same room. *)
Definition itemsClash (i j : Item.t) : bool :=
  seq (Item.id i) (Item.id j)
  || seq (Item.id i) (toLowerCase (Item.name j))
  || seq (toLowerCase (Item.name i)) (toLowerCase (Item.name j)).

(** ** The invariant *)

(** [r] is the room [r0] after some removals of items and creatures. *)
Definition roomFrom (r0 r : Room.t) : Prop :=
  Room.id r = Room.id r0
  /\ Room.name r = Room.name r0
  /\ Room.description r = Room.description r0
  /\ Room.image r = Room.image r0
  /\ Room.exits r = Room.exits r0
  /\ Room.items r `sublist_of` Room.items r0
  /\ Room.creatures r `sublist_of` Room.creatures r0.

Definition roomsOk (rs : gmap string Room.t) : Prop :=
  (forall k r, rs !! k = Some r ->
     exists r0, rooms initializeGame !! k = Some r0 /\ roomFrom r0 r)
  /\ (forall k r0, rooms initializeGame !! k = Some r0 -> is_Some (rs !! k)).

(** [c] is the creature [c0] after some damage. *)
Definition creatureFrom (c0 c : Creature.t) : Prop :=
  Creature.id c = Creature.id c0
  /\ Creature.name c = Creature.name c0
  /\ Creature.description c = Creature.description c0
  /\ Creature.maxHealth c = Creature.maxHealth c0
  /\ Creature.damage c = Creature.damage c0
  /\ Creature.isHostile c = Creature.isHostile c0
  /\ 0 <= Creature.health c <= Creature.maxHealth c
  /\ Creature.isAlive c = (0 <? Creature.health c).

Definition creaturesOk (cs : gmap string Creature.t) : Prop :=
  forall k c, cs !! k = Some c ->
    exists c0, createCreatures !! k = Some c0 /\ creatureFrom c0 c.

(** Every creature that a room contains is in the store and alive. *)
Definition roomCreaturesAlive (rs : gmap string Room.t)
    (cs : gmap string Creature.t) : Prop :=
  forall k r c, rs !! k = Some r -> c ∈ Room.creatures r ->
    exists cr, cs !! c = Some cr /\ Creature.isAlive cr = true.

Definition playerOk (p : Player.t) : Prop :=
  0 <= Player.health p <= Player.maxHealth p
  /\ Player.isAlive p = (0 <? Player.health p).

(** The inventory holds items of the world, each once and none of them still
    lying in a room. *)
Definition inventoryOk (inv : list Item.t) (rs : gmap string Room.t) : Prop :=
  NoDup inv
  /\ forall i, i ∈ inv ->
       (exists k, (k, i) ∈ placedItems)
       /\ forall k r, rs !! k = Some r -> i ∉ Room.items r.

(** The location is the id of a room, or one of the inherited properties
    that [exits[direction]] can return. *)
Definition locationOk (v : JsValue) : Prop :=
  match v with
  | JsStr s => is_Some (rooms initializeGame !! s)
  | JsInherited p => p ∈ objectPrototypeKeys
  end.

Record stable (g : GameEngine.t) : Prop := {
  stable_rooms : roomsOk (rooms g);
  stable_creatures : creaturesOk (creatures g);
  stable_alive : roomCreaturesAlive (rooms g) (creatures g);
  stable_player : playerOk (player g);
  stable_inventory : inventoryOk (Player.inventory (player g)) (rooms g);
  stable_location : locationOk (Player.currentLocation (player g));
  stable_win : isWin g = true -> isGameOver g = true;
  stable_over :
    isGameOver g = true -> isWin g = true \/ Player.isAlive (player g) = false;
  stable_dead :
    Player.isAlive (player g) = false ->
    strictEqStr (Player.currentLocation (player g)) "mountain_peak" = false
}.

(** What holds between two calls of [processCommand]. *)
Definition invariant (g : GameEngine.t) : Prop :=
  stable g /\ (Player.isAlive (player g) = false -> isGameOver g = true).

(** [r'] is [r] after removals; [isVisited] is free. *)
Definition roomShrinks (r r' : Room.t) : Prop :=
  Room.id r' = Room.id r
  /\ Room.name r' = Room.name r
  /\ Room.description r' = Room.description r
  /\ Room.image r' = Room.image r
  /\ Room.exits r' = Room.exits r
  /\ Room.items r' `sublist_of` Room.items r
  /\ Room.creatures r' `sublist_of` Room.creatures r.

(** ** Outcomes of commands *)

(** The state after a successful [take]. *)
Definition taken (item : Item.t) (room' : Room.t) (g : GameEngine.t)
    : GameEngine.t :=
  setPlayer (Player.setInventory (Player.inventory (player g) ++ [item])
                                 (player g))
            (putRoom (Player.currentLocation (player g)) room' g).

(** The exchange of blows of [Player.attack], once the creature is found
    alive and hostile in the current room. *)
Definition fight (randoms : Q * Q) (currentRoom : Room.t) (key : string)
    (creature : Creature.t) (g : GameEngine.t) : string * GameEngine.t :=
  let playerDamage := playerDamageRoll (fst randoms) in
  let creature' := snd (Creature.takeDamage playerDamage creature) in
  let g1 := setCreatures (<[key := creature']> (creatures g)) g in
  let result := "You attack the " +:+ Creature.name creature' +:+ " for "
                +:+ ofNumber playerDamage +:+ " damage!" in
  if fst (Creature.takeDamage playerDamage creature) then
    (result +:+ " The " +:+ Creature.name creature' +:+ " is dead!",
     putRoom (Player.currentLocation (player g))
       (snd (Room.removeCreature (creatures g1) (Creature.id creature')
               currentRoom)) g1)
  else
    (result +:+ nl
     +:+ orUndefined (fst (Creature_attack (snd randoms) creature' (player g))),
     setPlayer (snd (Creature_attack (snd randoms) creature' (player g))) g1).

(** The test of [Player.use] on the inventory. *)
Definition useMatches (itemId : string) (i : Item.t) : bool :=
  seq (Item.id i) itemId || seq (toLowerCase (Item.name i)) (toLowerCase itemId).

(** [command] is a [use] command whose argument [Player.use] resolves to
    [item] of the inventory. *)
Definition usesItem (command : string) (g : GameEngine.t) (item : Item.t)
    : Prop :=
  action command = "use"
  /\ target command <> ""
  /\ find (useMatches (target command)) (Player.inventory (player g))
     = Some item.

Definition victoryText : string :=
  "<span class=" +:+ dq +:+ "success-text" +:+ dq
  +:+ ">You activate the rescue beacon! A signal shoots into the sky... Rescue is on the way! YOU WIN!</span>".

(** The room entered by a move: the room stored under the destination, with
    its visited flag set. *)
Definition entered (nextRoom : Room.t) : Room.t :=
  if negb (Room.isVisited nextRoom) then Room.setIsVisited true nextRoom
  else nextRoom.

(** The id on which [Player.take] settles. *)
Definition resolveItem (itemId : string) (r : Room.t) : option string :=
  match Room.getItem itemId r with
  | Some _ => Some itemId
  | None =>
      match find (fun i => seq (toLowerCase (Item.name i)) (toLowerCase itemId))
                 (Room.items r) with
      | None => None
      | Some itemByName => Some (Item.id itemByName)
      end
  end.

(** ** Replies and tokens *)

(** The last [n] characters of a string. *)
Fixpoint lastChars (n : nat) (s : string) : string :=
  match s with
  | EmptyString => EmptyString
  | String c s' => if (n <=? String.length s')%nat then lastChars n s' else s
  end.

Definition alreadyDead (name : string) : string :=
  "The " +:+ name +:+ " is already dead.".

(** The characters of [s] up to its first white-space character. *)
Fixpoint untilWhite (s : string) : string :=
  match s with
  | EmptyString => EmptyString
  | String c s' => if isWhite c then EmptyString else String c (untilWhite s')
  end.

(** The first white-space-delimited token of an input. *)
Definition firstToken (command : string) : string :=
  untilWhite (trimStart command).

(** The command vocabulary. *)
Definition vocabulary : list string :=
  [ "go"; "move"; "walk"; "look"; "l"; "take"; "get"; "use";
    "attack"; "fight"; "hit"; "inventory"; "inv"; "i";
    "status"; "health"; "hp"; "help"; "h"; "?" ].

Definition isVerb (a : string) : bool := existsb (seq a) vocabulary.

(** Verbs are matched without regard to letter case. *)
Definition inVocabulary (token : string) : bool := isVerb (toLowerCase token).

Fixpoint untilSpace (s : string) : string :=
  match s with
  | EmptyString => EmptyString
  | String c s' =>
      if Ascii.eqb c " " then EmptyString else String c (untilSpace s')
  end.

Fixpoint hasWhite (s : string) : bool :=
  match s with
  | EmptyString => false
  | String c s' => isWhite c || hasWhite s'
  end.

Definition notUnderstood (command : string) : string :=
  "I don't understand '" +:+ command
  +:+ "'. Type 'help' for available commands.".

(** C9 as the specification states it: one message answers every input
    whose first token is not in the vocabulary, in every reachable state. *)
Definition notUnderstoodIsFixed : Prop :=
  exists msg : string,
    forall (g : GameEngine.t) (randoms : Q * Q) (command : string),
      reachable g ->
      inVocabulary (firstToken command) = false ->
      processCommand randoms command g = (msg, g).

(** ** States reached by concrete runs *)

(** Values of [Math.random()] used in the runs below. *)
Definition lowRolls : Q * Q := (0, 0)%Q.
Definition highRolls : Q * Q := (14 # 15, 14 # 15)%Q.
Definition mixedRolls : Q * Q := (0, 3 # 5)%Q.

(** At the mountain peak, holding the battery and the beacon. *)
Definition atPeakInputs : list (Q * Q * string) :=
  [ (lowRolls, "go east"); (lowRolls, "go north"); (lowRolls, "take battery");
    (lowRolls, "go east"); (lowRolls, "take Rescue Beacon") ].

Definition atPeak : GameEngine.t := snd (processCommands atPeakInputs initializeGame).

(** In the alien forest, holding the medkit, after one exchange with the
    xenomorph that cost 10 points of health. *)
Definition woundedInputs : list (Q * Q * string) :=
  [ (lowRolls, "go north"); (lowRolls, "take medkit");
    (mixedRolls, "attack xenomorph") ].

Definition wounded : GameEngine.t :=
  snd (processCommands woundedInputs initializeGame).

(** In the alien forest, the xenomorph down to 12 points of health. *)
Definition xenomorphWeakInputs : list (Q * Q * string) :=
  [ (lowRolls, "go north"); (highRolls, "attack xenomorph");
    (highRolls, "hit Xenomorph") ].

Definition xenomorphWeak : GameEngine.t :=
  snd (processCommands xenomorphWeakInputs initializeGame).

(** In the alien forest, the xenomorph killed. *)
Definition xenomorphDead : GameEngine.t :=
  snd (processCommand highRolls "fight xenomorph" xenomorphWeak).

(** The player killed by the xenomorph: seven exchanges at 15 points each. *)
Definition deadInputs : list (Q * Q * string) :=
  (lowRolls, "go north")
  :: repeat ((0, 14 # 15)%Q, "attack xenomorph") 7.

Definition playerDead : GameEngine.t :=
  snd (processCommands deadInputs initializeGame).

(** Objects of the runs, read from the engine. *)
Definition itemOf (key : string) : Item.t :=
  default (Item.mk "" "" "" false false UseDefault) (createItems !! key).

Definition roomOf (key : string) (g : GameEngine.t) : Room.t :=
  default (Room.new "" "" "" "") (rooms g !! key).

Definition creatureOf (key : string) (g : GameEngine.t) : Creature.t :=
  default (Creature.new "" "" "" 0 0 false) (creatures g !! key).

(** ** The page's view of the engine *)

(** The direction buttons of the compass, in the order of [updateCompass]. *)
Definition directions : list string := ["north"; "south"; "east"; "west"].

(** [updateCompass()]: the value assigned to [disabled] of each direction
    button; nothing is assigned ([None]) when the current room is unknown. *)
Definition updateCompass (g : GameEngine.t) : option (list (string * bool)) :=
  match getRoom (Player.currentLocation (player g)) g with
  | None => None
  | Some currentRoom =>
      let availableExits := Room.getExits currentRoom in
      Some (map (fun dir =>
                   (dir, if existsb (seq dir) availableExits then false
                         else true))
                directions)
  end.

(** [updateContextButtons()]: the commands that the buttons it builds pass
    to [processCommand] when clicked, in the order of the buttons; no button
    is built when the current room is unknown. *)
Definition updateContextButtons (g : GameEngine.t) : list string :=
  match getRoom (Player.currentLocation (player g)) g with
  | None => []
  | Some currentRoom =>
      (map (fun item => "take " +:+ Item.name item) (Room.items currentRoom)
       ++ map (fun creature => "attack " +:+ Creature.name creature)
              (List.filter (fun creature => Creature.isHostile creature
                                            && Creature.isAlive creature)
                           (Room.creatureObjects (creatures g) currentRoom))
       ++ map (fun item => "use " +:+ Item.name item)
              (List.filter Item.isUsable (Player.inventory (player g))))%list
  end.

(** ** Verbs *)

(** The [case] labels of [processCommand], one list per branch. *)
Definition verbGroups : list (list string) :=
  [ ["go"; "move"; "walk"]; ["look"; "l"]; ["take"; "get"]; ["use"];
    ["attack"; "fight"; "hit"]; ["inventory"; "inv"; "i"];
    ["status"; "health"; "hp"]; ["help"; "h"; "?"] ].

(** Holding the battery and the beacon, moved off the map from the mountain
    peak by a direction that names an inherited property. *)
Definition offTheMap : GameEngine.t :=
  snd (processCommand lowRolls "go constructor" atPeak).

(** In the crystal caves, holding the energy crystal. *)
Definition holdingCrystal : GameEngine.t :=
  snd (processCommands [(lowRolls, "go east"); (lowRolls, "take crystal")]
         initializeGame).

(** The replies of the item functions of [createItems]. *)
Definition flashlightText : string :=
  "<span class=" +:+ dq +:+ "info-text" +:+ dq
  +:+ ">You turn on the flashlight. The beam cuts through the darkness.</span>".

Definition batteryInstalledText : string :=
  "<span class=" +:+ dq +:+ "success-text" +:+ dq
  +:+ ">You install the battery in the beacon. It's now ready to activate!</span>".

Definition batteryUselessText : string :=
  "<span class=" +:+ dq +:+ "warning-text" +:+ dq
  +:+ ">You have nothing to use the battery with.</span>".

Definition beaconNeedsPowerText : string :=
  "<span class=" +:+ dq +:+ "warning-text" +:+ dq
  +:+ ">The beacon needs power. You need to find a battery first.</span>".

Definition beaconNeedsPeakText : string :=
  "<span class=" +:+ dq +:+ "warning-text" +:+ dq
  +:+ ">You need to be at the mountain peak to activate the beacon effectively.</span>".

Definition energyBarText : string :=
  "<span class=" +:+ dq +:+ "success-text" +:+ dq
  +:+ ">You eat the energy bar and restore 20 health.</span>".

(** In the alien forest with the flashlight and the energy bar, 10 points
    of health lost to the xenomorph. *)
Definition woundedWithBar : GameEngine.t :=
  snd (processCommands
         [ (lowRolls, "take flashlight"); (lowRolls, "take energy bar");
           (lowRolls, "go north"); (mixedRolls, "attack xenomorph") ]
         initializeGame).

(** At the mountain peak with the beacon and no battery. *)
Definition beaconOnly : GameEngine.t :=
  snd (processCommands
         [ (lowRolls, "go north"); (lowRolls, "go east");
           (lowRolls, "take beacon") ]
         initializeGame).

(** ** Where the items are *)

(** From [g] to [g'] items stay where they are or go from a room to the
    inventory. *)
Definition itemsMove (g g' : GameEngine.t) : Prop :=
  (forall i, i ∈ Player.inventory (player g) ->
             i ∈ Player.inventory (player g'))
  /\ (forall k r i, rooms g !! k = Some r -> i ∈ Room.items r ->
        i ∈ Player.inventory (player g')
        \/ exists r', rooms g' !! k = Some r' /\ i ∈ Room.items r').

(** Every item that the constructor placed is in the inventory or in the
    room in which it was placed. *)
Definition itemsAccounted (g : GameEngine.t) : Prop :=
  forall k r0 i, rooms initializeGame !! k = Some r0 -> i ∈ Room.items r0 ->
    i ∈ Player.inventory (player g)
    \/ exists r, rooms g !! k = Some r /\ i ∈ Room.items r.

(** In the alien forest, facing the xenomorph. *)
Definition inForest : GameEngine.t :=
  snd (processCommand lowRolls "go north" initializeGame).

(** In the underground tunnels, with the peaceful alien. *)
Definition inTunnels : GameEngine.t :=
  snd (processCommands [(lowRolls, "go north"); (lowRolls, "go west")]
         initializeGame).

(** After the beacon has been used at the peak with the battery. *)
Definition rescued : GameEngine.t :=
  snd (processCommand lowRolls "use beacon" atPeak).

(** The state of the engine once the win flag is set. *)
Definition wonAtPeak (g : GameEngine.t) : Prop :=
  isWin g = true ->
  Player.isAlive (player g) = true
  /\ strictEqStr (Player.currentLocation (player g)) "mountain_peak" = true
  /\ hasItem "battery" (player g) = true
  /\ hasItem "beacon" (player g) = true.

(** ** What a command leaves alone *)

(** The rooms of [g] and [g'] agree on the field [f]. *)
Definition sameInRooms {A : Type} (f : Room.t -> A) (g g' : GameEngine.t)
    : Prop :=
  forall k : string, f <$> rooms g' !! k = f <$> rooms g !! k.

(** ** What never comes back *)

(** [r'] is [r] with some items and creatures removed, and visited if [r]
    was. *)
Definition roomWears (r r' : Room.t) : Prop :=
  Room.items r' `sublist_of` Room.items r
  /\ Room.creatures r' `sublist_of` Room.creatures r
  /\ (Room.isVisited r = true -> Room.isVisited r' = true).

(** From [g] to [g'] no creature has healed and the dead ones are as they
    were, the rooms have lost items and creatures only, and the inventory
    has grown at its end. *)
Definition wearsDown (g g' : GameEngine.t) : Prop :=
  (forall key c, creatures g !! key = Some c ->
     exists c', creatures g' !! key = Some c'
       /\ Creature.health c' <= Creature.health c
       /\ (Creature.isAlive c = false -> c' = c))
  /\ (forall k r, rooms g !! k = Some r ->
        exists r', rooms g' !! k = Some r' /\ roomWears r r')
  /\ Player.inventory (player g) `prefix_of` Player.inventory (player g').

(** ** The input field *)

(** [submitCommand] of [setupEventListeners]: the text of the input field
    is trimmed and, unless nothing is left of it, handed to
    [processCommand]; [None] when the engine is not called.  The messages
    written to the page are left out. *)
Definition submitCommand (randoms : Q * Q) (value : string)
    (g : GameEngine.t) : option (string * GameEngine.t) :=
  let command := trim value in
  if truthy (JsStr command) then Some (processCommand randoms command g)
  else None.

(** The text starts with a character that is not white space, if it has
    one. *)
Definition startsClean (s : string) : bool :=
  match s with
  | EmptyString => true
  | String c _ => negb (isWhite c)
  end.

(** * Properties *)

(** ** Random values and reachable states *)

Lemma reachable_processCommands inputs g :
  reachable g ->
  Forall (fun i => validRandoms (fst i)) inputs ->
  reachable (snd (processCommands inputs g)).
Proof.
  revert g. induction inputs as [|[randoms command] rest IH]; intros g Hg Hv.
  - exact Hg.
  - inversion Hv as [|? ? Hr Hrest]; subst. simpl in Hr.
    pose proof (reachable_step g randoms command Hg Hr) as Hstep.
    specialize (IH _ Hstep Hrest).
    simpl. destruct (processCommand randoms command g) as [out g1].
    simpl in *. destruct (processCommands rest g1) as [outs g2]. exact IH.
Qed.

(** ** The terminal state (C5) *)

Lemma processCommand_gameOver randoms command g :
  isGameOver g = true ->
  processCommand randoms command g = (gameOverMessage, g).
Proof. intros H. unfold processCommand. rewrite H. reflexivity. Qed.

(** C5. Once [isGameOver] is true, every list of commands processed
    afterwards is answered by the game-is-over message, one per command, and
    leaves the engine (player, rooms, items, creatures and both flags) as it
    was; in particular [isGameOver] stays true. *)
Theorem C5_gameOver_is_terminal :
  forall (inputs : list (Q * Q * string)) (g : GameEngine.t),
    isGameOver g = true ->
    processCommands inputs g
    = (map (fun _ => "The game is over. Refresh the page to play again.")
           inputs, g)
    /\ isGameOver (snd (processCommands inputs g)) = true.
Proof.
  intros inputs g Hover.
  assert (Heq : processCommands inputs g
                = (map (fun _ => gameOverMessage) inputs, g)).
  { induction inputs as [|[randoms command] rest IH]; [reflexivity|].
    simpl. rewrite (processCommand_gameOver _ _ _ Hover), IH. reflexivity. }
  split; [exact Heq|]. rewrite Heq. exact Hover.
Qed.

(** ** Damage rolls (C2) *)

Lemma floor_random_nonneg (n : Z) (r : Q) :
  0 <= n -> validRandom r -> 0 <= Qfloor (r * inject_Z n).
Proof.
  intros Hn [Hr0 _].
  change 0 with (Qfloor (inject_Z 0)) at 1.
  apply Qfloor_resp_le. apply Qmult_le_0_compat; [exact Hr0|].
  change 0%Q with (inject_Z 0). rewrite <- Zle_Qle. exact Hn.
Qed.

Lemma floor_random_below (n : Z) (r : Q) :
  0 < n -> validRandom r -> Qfloor (r * inject_Z n) <= n - 1.
Proof.
  intros Hn [_ Hr1].
  assert (Hlt : (r * inject_Z n < inject_Z n)%Q).
  { apply Qlt_le_trans with (1 * inject_Z n)%Q.
    - apply Qmult_lt_compat_r; [|exact Hr1].
      change 0%Q with (inject_Z 0). rewrite <- Zlt_Qlt. exact Hn.
    - rewrite Qmult_1_l. apply Qle_refl. }
  assert (Hfl : (inject_Z (Qfloor (r * inject_Z n)) < inject_Z n)%Q).
  { eapply Qle_lt_trans; [apply Qfloor_le|exact Hlt]. }
  rewrite <- Zlt_Qlt in Hfl. lia.
Qed.

Lemma playerDamageRoll_range (r : Q) :
  validRandom r -> 5 <= playerDamageRoll r <= 19.
Proof.
  intros Hr. unfold playerDamageRoll.
  pose proof (floor_random_nonneg 15 r ltac:(lia) Hr) as H0.
  pose proof (floor_random_below 15 r ltac:(lia) Hr) as H1.
  change (inject_Z 15) with 15%Q in *. lia.
Qed.

Lemma playerDamageRoll_attained (n : Z) :
  5 <= n <= 19 ->
  validRandom (n - 5 # 15) /\ playerDamageRoll (n - 5 # 15) = n.
Proof.
  intros Hn. split.
  - split; unfold Qle, Qlt; simpl; lia.
  - unfold playerDamageRoll.
    rewrite (Qfloor_comp _ (inject_Z (n - 5))).
    + rewrite Qfloor_Z. lia.
    + unfold Qeq. simpl. lia.
Qed.

Lemma creatureDamageRoll_range (r : Q) (c : Creature.t) :
  validRandom r -> 0 <= Creature.damage c ->
  1 <= Creature.damageRoll r c <= Z.max 1 (Creature.damage c).
Proof.
  intros Hr Hd. unfold Creature.damageRoll.
  pose proof (floor_random_nonneg _ r Hd Hr) as H0.
  destruct (Z.eq_dec (Creature.damage c) 0) as [Hz|Hz].
  - rewrite Hz in *. rewrite (Qfloor_comp _ (inject_Z 0)).
    + rewrite Qfloor_Z. lia.
    + unfold Qeq. simpl. lia.
  - assert (Hpos : 0 < Creature.damage c) by lia.
    pose proof (floor_random_below _ r Hpos Hr) as H1. lia.
Qed.

(** ** The world built by the constructor *)

(** The initial engine is only ever evaluated as a whole. *)
#[global] Opaque initializeGame.

Lemma initializeGame_player : player initializeGame = Player.new "crash_site".
Proof. vm_compute. reflexivity. Qed.

Lemma initializeGame_creatures : creatures initializeGame = createCreatures.
Proof. vm_compute. reflexivity. Qed.

Lemma initializeGame_flags :
  isGameOver initializeGame = false /\ isWin initializeGame = false.
Proof. vm_compute. split; reflexivity. Qed.

Lemma initialRooms_eq : initialRooms = map_to_list (rooms initializeGame).
Proof. vm_compute. reflexivity. Qed.

Lemma initialRooms_lookup (k : string) (r : Room.t) :
  rooms initializeGame !! k = Some r <-> (k, r) ∈ initialRooms.
Proof. rewrite initialRooms_eq. symmetry. apply elem_of_map_to_list. Qed.

(** Case analysis on membership in an explicit list. *)
Ltac list_cases H :=
  repeat (apply elem_of_cons in H as [H|H]);
  [..|apply elem_of_nil in H; contradiction].

Lemma ownProperty_elem (key v : string) (o : list (string * string)) :
  ownProperty key o = Some v -> (key, v) ∈ o.
Proof.
  induction o as [|[k w] o IH]; simpl; [discriminate|].
  unfold seq. destruct (String.eqb_spec k key) as [->|Hne].
  - intros [= ->]. apply elem_of_cons. left. reflexivity.
  - intros H. apply elem_of_cons. right. exact (IH H).
Qed.

(** ** Exits and their reverse edges (C6) *)

(** C6, as stated, fails: east of the research facility lies the mountain
    peak, but west of the mountain peak lies the alien forest. *)
Lemma C6_exits_not_all_reversed : ~ exitsHaveReverse (rooms initializeGame).
Proof.
  intros H.
  destruct (H "research_facility"
              (default (Room.new "" "" "" "")
                       (rooms initializeGame !! "research_facility"))
              "east" "mountain_peak") as (rb & Hrb & Hback).
  - vm_compute. reflexivity.
  - vm_compute. reflexivity.
  - vm_compute in Hrb. injection Hrb as <-. vm_compute in Hback.
    discriminate Hback.
Qed.

(** C6, amended. In the world built by the constructor every exit leads to a
    room of the registry, and the destination sends the opposite direction
    back to the origin for every exit except three: east of the research
    facility, south of the mountain peak and north of the underground
    tunnels, for which it does not. *)
Theorem C6_exits_reverse_except_three :
  forall (a : string) (ra : Room.t) (d b : string),
    rooms initializeGame !! a = Some ra ->
    ownProperty d (Room.exits ra) = Some b ->
    (exists rb : Room.t, rooms initializeGame !! b = Some rb)
    /\ (isOneWay a d = false <->
        exists rb : Room.t,
          rooms initializeGame !! b = Some rb
          /\ ownProperty (opposite d) (Room.exits rb) = Some a).
Proof.
  intros a ra d b Ha Hd.
  apply initialRooms_lookup in Ha. unfold initialRooms in Ha.
  list_cases Ha; injection Ha as -> ->;
    apply ownProperty_elem in Hd; simpl in Hd;
    list_cases Hd; injection Hd as -> ->;
    (split;
     [ eexists; vm_compute; reflexivity
     | split;
       [ intros Hone; first
           [ discriminate Hone
           | eexists; split; vm_compute; reflexivity ]
       | intros (rb & Hrb & Hback); first
           [ reflexivity
           | vm_compute in Hrb; injection Hrb as <-;
             vm_compute in Hback; discriminate Hback ] ] ]).
Qed.

(** ** Arrays: [find] and [findIndex]/[splice] *)

Section Arrays.
Context {A : Type}.
Implicit Types (p : A -> bool) (l : list A).

Lemma find_Some_elem p l x : find p l = Some x -> x ∈ l /\ p x = true.
Proof.
  induction l as [|y l IH]; simpl; [discriminate|].
  destruct (p y) eqn:Hy.
  - intros [= ->]. split; [left|exact Hy].
  - intros H. destruct (IH H) as [Hin Hp]. split; [right; exact Hin|exact Hp].
Qed.

Lemma find_None_elem p l x : find p l = None -> x ∈ l -> p x = false.
Proof.
  induction l as [|y l IH]; simpl; intros Hf Hx.
  - inversion Hx.
  - destruct (p y) eqn:Hy; [discriminate|].
    apply elem_of_cons in Hx as [->|Hx]; [exact Hy|exact (IH Hf Hx)].
Qed.

Lemma find_all_false p l : (forall x, x ∈ l -> p x = false) -> find p l = None.
Proof.
  induction l as [|y l IH]; simpl; intros H; [reflexivity|].
  rewrite (H y) by left. apply IH. intros x Hx. apply H. right. exact Hx.
Qed.

Lemma spliceFirst_ext_elem p q l :
  (forall x, x ∈ l -> p x = q x) -> spliceFirst p l = spliceFirst q l.
Proof.
  induction l as [|y l IH]; simpl; intros H; [reflexivity|].
  rewrite (H y) by left. destruct (q y); [reflexivity|].
  rewrite IH; [reflexivity|]. intros x Hx. apply H. right. exact Hx.
Qed.

Lemma spliceFirst_Some p l x rest :
  spliceFirst p l = Some (x, rest) ->
  p x = true /\ x ∈ l /\ rest `sublist_of` l /\ l ≡ₚ (x :: rest).
Proof.
  revert rest. induction l as [|y l IH]; simpl; intros rest; [discriminate|].
  destruct (p y) eqn:Hy.
  - intros [= -> ->]. repeat split; [exact Hy|left|by apply sublist_cons|].
    reflexivity.
  - destruct (spliceFirst p l) as [[z r]|] eqn:Hs; [|discriminate].
    intros [= -> <-]. destruct (IH r eq_refl) as (Hp & Hin & Hsub & Hperm).
    repeat split; [exact Hp|right; exact Hin|by apply sublist_skip|].
    rewrite Hperm. apply Permutation_swap.
Qed.

Lemma spliceFirst_None p l x : spliceFirst p l = None -> x ∈ l -> p x = false.
Proof.
  induction l as [|y l IH]; simpl; intros Hs Hx.
  - inversion Hx.
  - destruct (p y) eqn:Hy; [discriminate|].
    destruct (spliceFirst p l) as [[z r]|]; [discriminate|].
    apply elem_of_cons in Hx as [->|Hx]; [exact Hy|exact (IH eq_refl Hx)].
Qed.

Lemma spliceFirst_is_Some p l x :
  x ∈ l -> p x = true -> is_Some (spliceFirst p l).
Proof.
  intros Hx Hp. destruct (spliceFirst p l) eqn:Hs; [eauto|].
  rewrite (spliceFirst_None _ _ _ Hs Hx) in Hp. discriminate.
Qed.

(** In an array without duplicates the removed element is gone. *)
Lemma spliceFirst_NoDup p l x rest :
  NoDup l -> spliceFirst p l = Some (x, rest) -> (x ∉ rest) /\ NoDup rest.
Proof.
  intros Hnd Hs. destruct (spliceFirst_Some _ _ _ _ Hs) as (_ & _ & _ & Hperm).
  rewrite Hperm in Hnd. apply NoDup_cons in Hnd. exact Hnd.
Qed.

End Arrays.

(** ** Facts about the initial world *)

#[global] Instance UseMethod_eq_dec : EqDecision UseMethod.
Proof. solve_decision. Defined.

#[global] Instance Item_eq_dec : EqDecision Item.t.
Proof. solve_decision. Defined.

Lemma placedItems_elem (k : string) (r0 : Room.t) (i : Item.t) :
  rooms initializeGame !! k = Some r0 -> i ∈ Room.items r0 ->
  (k, i) ∈ placedItems.
Proof.
  intros Hk Hi. apply initialRooms_lookup in Hk.
  assert (Heq : placedItems =
    initialRooms ≫= (fun kr => map (fun i => (fst kr, i)) (Room.items (snd kr))))
    by (vm_compute; reflexivity).
  rewrite Heq. apply list_elem_of_bind. exists (k, r0). split; [|exact Hk].
  simpl. apply (list_elem_of_fmap_2 (fun i => (k, i))). exact Hi.
Qed.

Lemma placedCreatures_elem (k : string) (r0 : Room.t) (c : string) :
  rooms initializeGame !! k = Some r0 -> c ∈ Room.creatures r0 ->
  (k, c) ∈ placedCreatures.
Proof.
  intros Hk Hc. apply initialRooms_lookup in Hk.
  assert (Heq : placedCreatures =
    initialRooms ≫= (fun kr => map (fun c => (fst kr, c)) (Room.creatures (snd kr))))
    by (vm_compute; reflexivity).
  rewrite Heq. apply list_elem_of_bind. exists (k, r0). split; [|exact Hk].
  simpl. apply (list_elem_of_fmap_2 (fun c => (k, c))). exact Hc.
Qed.

Lemma placedItems_distinct (k1 k2 : string) (i1 i2 : Item.t) :
  (k1, i1) ∈ placedItems -> (k2, i2) ∈ placedItems ->
  itemsClash i1 i2 = true -> k1 = k2 /\ i1 = i2.
Proof.
  intros H1 H2. unfold placedItems in H1, H2.
  list_cases H1; injection H1 as -> ->;
    list_cases H2; injection H2 as -> ->;
    vm_compute; intros Hc; first [discriminate Hc | split; reflexivity].
Qed.

Lemma placedCreatures_distinct (k1 k2 c : string) :
  (k1, c) ∈ placedCreatures -> (k2, c) ∈ placedCreatures -> k1 = k2.
Proof.
  intros H1 H2. unfold placedCreatures in H1, H2.
  list_cases H1; injection H1 as -> ->;
    list_cases H2; first [discriminate H2 | injection H2 as ->; reflexivity].
Qed.

Lemma placedCreatures_registered (k c : string) :
  (k, c) ∈ placedCreatures -> is_Some (createCreatures !! c).
Proof.
  intros H. unfold placedCreatures in H.
  list_cases H; injection H as -> ->; vm_compute; eauto.
Qed.

Lemma NoDup_check {A : Type} `{EqDecision A} (l : list A) :
  bool_decide (NoDup l) = true -> NoDup l.
Proof. apply bool_decide_eq_true_1. Qed.

Lemma initialRooms_NoDup (k : string) (r0 : Room.t) :
  rooms initializeGame !! k = Some r0 ->
  NoDup (Room.items r0) /\ NoDup (Room.creatures r0).
Proof.
  intros Hk. apply initialRooms_lookup in Hk. unfold initialRooms in Hk.
  list_cases Hk; injection Hk as -> ->; simpl;
    (split; apply NoDup_check; vm_compute; reflexivity).
Qed.

Lemma initialRooms_exits (k : string) (r0 : Room.t) (d v : string) :
  rooms initializeGame !! k = Some r0 ->
  ownProperty d (Room.exits r0) = Some v ->
  v <> "" /\ is_Some (rooms initializeGame !! v) /\ d <> "".
Proof.
  intros Hk Hd. apply initialRooms_lookup in Hk. unfold initialRooms in Hk.
  list_cases Hk; injection Hk as -> ->;
    apply ownProperty_elem in Hd; simpl in Hd;
    list_cases Hd; injection Hd as -> ->;
    (split; [discriminate | split; [vm_compute; eauto | discriminate]]).
Qed.

Lemma initialCreatures_facts (k : string) (c0 : Creature.t) :
  createCreatures !! k = Some c0 ->
  Creature.id c0 = k /\ 0 <= Creature.damage c0
  /\ Creature.health c0 = Creature.maxHealth c0
  /\ 0 < Creature.maxHealth c0 /\ Creature.isAlive c0 = true.
Proof.
  intros Hk. apply elem_of_map_to_list in Hk.
  assert (Heq : map_to_list createCreatures
                = ltac:(let l := eval vm_compute in (map_to_list createCreatures)
                        in exact l)) by (vm_compute; reflexivity).
  rewrite Heq in Hk.
  list_cases Hk; injection Hk as -> ->; vm_compute; repeat split; congruence.
Qed.

Lemma mountain_peak_has_no_creature (k : string) (r0 : Room.t) :
  rooms initializeGame !! k = Some r0 -> Room.creatures r0 <> [] ->
  k <> "mountain_peak".
Proof.
  intros Hk Hne. apply initialRooms_lookup in Hk. unfold initialRooms in Hk.
  list_cases Hk; injection Hk as -> ->; first [discriminate | contradiction].
Qed.

(** ** The invariant of the reachable states *)

Lemma roomShrinks_refl (r : Room.t) : roomShrinks r r.
Proof. repeat split; reflexivity. Qed.

Lemma roomShrinks_setIsVisited (b : bool) (r : Room.t) :
  roomShrinks r (Room.setIsVisited b r).
Proof. repeat split; reflexivity. Qed.

Lemma roomFrom_shrinks (r0 r r' : Room.t) :
  roomFrom r0 r -> roomShrinks r r' -> roomFrom r0 r'.
Proof.
  intros (H1 & H2 & H3 & H4 & H5 & H6 & H7) (S1 & S2 & S3 & S4 & S5 & S6 & S7).
  repeat split; try congruence; etrans; eassumption.
Qed.

Lemma roomsOk_update (rs : gmap string Room.t) (k : string) (r r' : Room.t) :
  roomsOk rs -> rs !! k = Some r -> roomShrinks r r' ->
  roomsOk (<[k := r']> rs).
Proof.
  intros [Hfrom Hdom] Hk Hs. split.
  - intros k1 r1. rewrite lookup_insert. case_decide as Hdec; simpl.
    + subst k1. intros [= <-]. destruct (Hfrom k r Hk) as (r0 & H0 & Hf).
      exists r0. split; [exact H0|]. eapply roomFrom_shrinks; eassumption.
    + apply Hfrom.
  - intros k1 r0 H0. rewrite lookup_insert. case_decide; simpl; [eauto|].
    eapply Hdom; eassumption.
Qed.

Lemma roomCreaturesAlive_update (rs : gmap string Room.t)
    (cs : gmap string Creature.t) (k : string) (r r' : Room.t) :
  roomCreaturesAlive rs cs -> rs !! k = Some r -> roomShrinks r r' ->
  roomCreaturesAlive (<[k := r']> rs) cs.
Proof.
  intros Halive Hk Hs k1 r1 c. rewrite lookup_insert.
  case_decide as Hdec; simpl.
  - subst k1. intros [= <-] Hc. apply (Halive k r c Hk).
    destruct Hs as (_ & _ & _ & _ & _ & _ & Hsub).
    eapply sublist_subseteq; eassumption.
  - apply Halive.
Qed.

Lemma inventoryOk_update (inv : list Item.t) (rs : gmap string Room.t)
    (k : string) (r r' : Room.t) :
  inventoryOk inv rs -> rs !! k = Some r -> roomShrinks r r' ->
  inventoryOk inv (<[k := r']> rs).
Proof.
  intros [Hnd Hinv] Hk Hs. split; [exact Hnd|].
  intros i Hi. destruct (Hinv i Hi) as [Hplaced Hout]. split; [exact Hplaced|].
  intros k1 r1. rewrite lookup_insert. case_decide as Hdec; simpl.
  - subst k1. intros [= <-] Hin. apply (Hout k r Hk).
    destruct Hs as (_ & _ & _ & _ & _ & Hsub & _).
    eapply sublist_subseteq; eassumption.
  - apply Hout.
Qed.

(** The initial engine satisfies the invariant. *)
Lemma roomFrom_refl (r : Room.t) : roomFrom r r.
Proof. repeat split; reflexivity. Qed.

Lemma invariant_init : invariant initializeGame.
Proof.
  destruct initializeGame_flags as [Hover Hwin].
  pose proof initializeGame_player as Hp.
  split; [|rewrite Hp; discriminate].
  constructor.
  - split.
    + intros k r Hk. exists r. split; [exact Hk|apply roomFrom_refl].
    + intros k r0 Hk. eauto.
  - rewrite initializeGame_creatures.
    intros k c Hk. exists c. split; [exact Hk|].
    destruct (initialCreatures_facts k c Hk) as (_ & _ & Hh & Hm & Ha).
    repeat split; try reflexivity; try lia.
    rewrite Ha. symmetry. apply Z.ltb_lt. lia.
  - rewrite initializeGame_creatures.
    intros k r c Hk Hc.
    pose proof (placedCreatures_elem k r c Hk Hc) as Hpl.
    destruct (placedCreatures_registered k c Hpl) as [cr Hcr].
    exists cr. split; [exact Hcr|].
    apply (initialCreatures_facts c cr Hcr).
  - rewrite Hp. split; [simpl; lia|reflexivity].
  - rewrite Hp. split; [constructor|]. simpl. intros i Hi.
    apply elem_of_nil in Hi. contradiction.
  - rewrite Hp. simpl.
    exists (default (Room.new "" "" "" "")
                    (rooms initializeGame !! "crash_site")).
    vm_compute. reflexivity.
  - rewrite Hwin. discriminate.
  - rewrite Hover. discriminate.
  - rewrite Hp. discriminate.
Qed.

(** *** Movement preserves the invariant *)

Lemma getProperty_location (rs : gmap string Room.t) (k : string) (r : Room.t)
    (d : string) (v : JsValue) :
  roomsOk rs -> rs !! k = Some r ->
  getProperty (Room.exits r) d = Some v -> locationOk v.
Proof.
  intros [Hfrom _] Hk. destruct (Hfrom k r Hk) as (r0 & H0 & Hf).
  destruct Hf as (_ & _ & _ & _ & Hex & _). rewrite Hex.
  unfold getProperty. destruct (ownProperty d (Room.exits r0)) as [s|] eqn:Hs.
  - intros [= <-]. simpl. eapply (initialRooms_exits k r0 d s); eassumption.
  - destruct (existsb (seq d) objectPrototypeKeys) eqn:He; [|discriminate].
    intros [= <-]. simpl. apply existsb_exists in He as (x & Hx & Heq).
    apply String.eqb_eq in Heq. subst x. apply list_elem_of_In. exact Hx.
Qed.

Lemma stable_setCurrentLocation (v : JsValue) (g : GameEngine.t) :
  stable g -> Player.isAlive (player g) = true -> locationOk v ->
  stable (setPlayer (Player.setCurrentLocation v (player g)) g).
Proof.
  intros Hst Halive Hv. destruct Hst. constructor; simpl; try assumption.
  rewrite Halive. discriminate.
Qed.

Lemma stable_putRoom (v : JsValue) (r r' : Room.t) (g : GameEngine.t) :
  stable g -> getRoom v g = Some r -> roomShrinks r r' ->
  stable (putRoom v r' g).
Proof.
  intros Hst Hr Hs. destruct Hst. unfold getRoom in Hr.
  constructor; simpl; try assumption.
  - eapply roomsOk_update; eassumption.
  - eapply roomCreaturesAlive_update; eassumption.
  - eapply inventoryOk_update; eassumption.
Qed.

Lemma Player_move_stable (direction : string) (g : GameEngine.t) :
  stable g -> Player.isAlive (player g) = true ->
  stable (snd (Player_move direction g)).
Proof.
  intros Hst Halive. unfold Player_move.
  destruct (getRoom (Player.currentLocation (player g)) g)
    as [currentRoom|] eqn:Hroom; [|exact Hst].
  destruct (getProperty (Room.exits currentRoom) (toLowerCase direction))
    as [nextRoomId|] eqn:Hexit; [|exact Hst].
  destruct (truthy nextRoomId); simpl; [|exact Hst].
  assert (Hloc : locationOk nextRoomId).
  { eapply getProperty_location; [apply Hst|exact Hroom|exact Hexit]. }
  pose proof (stable_setCurrentLocation nextRoomId g Hst Halive Hloc) as Hst1.
  set (g1 := setPlayer (Player.setCurrentLocation nextRoomId (player g)) g) in *.
  destruct (getRoom nextRoomId g1) as [nextRoom|] eqn:Hnext; [|exact Hst1].
  simpl. eapply stable_putRoom; [exact Hst1|exact Hnext|].
  destruct (Room.isVisited nextRoom); simpl.
  - apply roomShrinks_refl.
  - apply roomShrinks_setIsVisited.
Qed.

Lemma Player_move_flags (direction : string) (g : GameEngine.t) :
  let g' := snd (Player_move direction g) in
  isGameOver g' = isGameOver g /\ isWin g' = isWin g
  /\ Player.isAlive (player g') = Player.isAlive (player g)
  /\ Player.health (player g') = Player.health (player g)
  /\ Player.maxHealth (player g') = Player.maxHealth (player g)
  /\ creatures g' = creatures g.
Proof.
  unfold Player_move.
  destruct (getRoom (Player.currentLocation (player g)) g); [|by repeat split].
  destruct (getProperty _ _); [|by repeat split].
  destruct (truthy _); simpl; [|by repeat split].
  destruct (getRoom _ _); by repeat split.
Qed.

(** *** Taking an item preserves the invariant *)

Lemma removeItem_Some (itemId : string) (r r' : Room.t) (taken : Item.t) :
  Room.removeItem itemId r = (Some taken, r') ->
  taken ∈ Room.items r /\ Item.id taken = itemId /\ roomShrinks r r'
  /\ Room.items r ≡ₚ (taken :: Room.items r')
  /\ (NoDup (Room.items r) -> taken ∉ Room.items r').
Proof.
  unfold Room.removeItem.
  destruct (spliceFirst _ (Room.items r)) as [[item rest]|] eqn:Hs;
    [|discriminate].
  intros [= -> <-].
  destruct (spliceFirst_Some _ _ _ _ Hs) as (Hp & Hin & Hsub & Hperm).
  apply String.eqb_eq in Hp.
  repeat split; simpl; try assumption; try reflexivity.
  intros Hnd. apply (spliceFirst_NoDup _ _ _ _ Hnd Hs).
Qed.

Lemma itemsClash_refl (i : Item.t) : itemsClash i i = true.
Proof. unfold itemsClash, seq. rewrite String.eqb_refl. reflexivity. Qed.

Lemma room_items_NoDup (rs : gmap string Room.t) (k : string) (r : Room.t) :
  roomsOk rs -> rs !! k = Some r -> NoDup (Room.items r).
Proof.
  intros [Hfrom _] Hk. destruct (Hfrom k r Hk) as (r0 & H0 & Hf).
  destruct Hf as (_ & _ & _ & _ & _ & Hsub & _).
  eapply sublist_NoDup; [|exact Hsub]. apply (initialRooms_NoDup k r0 H0).
Qed.

Lemma room_creatures_NoDup (rs : gmap string Room.t) (k : string) (r : Room.t) :
  roomsOk rs -> rs !! k = Some r -> NoDup (Room.creatures r).
Proof.
  intros [Hfrom _] Hk. destruct (Hfrom k r Hk) as (r0 & H0 & Hf).
  destruct Hf as (_ & _ & _ & _ & _ & _ & Hsub).
  eapply sublist_NoDup; [|exact Hsub]. apply (initialRooms_NoDup k r0 H0).
Qed.

Lemma room_item_placed (rs : gmap string Room.t) (k : string) (r : Room.t)
    (i : Item.t) :
  roomsOk rs -> rs !! k = Some r -> i ∈ Room.items r -> (k, i) ∈ placedItems.
Proof.
  intros [Hfrom _] Hk Hi. destruct (Hfrom k r Hk) as (r0 & H0 & Hf).
  destruct Hf as (_ & _ & _ & _ & _ & Hsub & _).
  eapply placedItems_elem; [exact H0|].
  eapply sublist_subseteq; eassumption.
Qed.

Lemma room_creature_placed (rs : gmap string Room.t) (k : string) (r : Room.t)
    (c : string) :
  roomsOk rs -> rs !! k = Some r -> c ∈ Room.creatures r ->
  (k, c) ∈ placedCreatures.
Proof.
  intros [Hfrom _] Hk Hc. destruct (Hfrom k r Hk) as (r0 & H0 & Hf).
  destruct Hf as (_ & _ & _ & _ & _ & _ & Hsub).
  eapply placedCreatures_elem; [exact H0|].
  eapply sublist_subseteq; eassumption.
Qed.

Lemma Player_take_cases (itemId : string) (g : GameEngine.t) :
  snd (Player_take itemId g) = g
  \/ exists (r r' : Room.t) (itemId' : string) (item : Item.t),
       getRoom (Player.currentLocation (player g)) g = Some r
       /\ Room.removeItem itemId' r = (Some item, r')
       /\ Player_take itemId g
          = ("You take the " +:+ Item.name item +:+ ".", taken item r' g).
Proof.
  unfold Player_take.
  destruct (getRoom (Player.currentLocation (player g)) g) as [r|] eqn:Hr;
    [|left; reflexivity].
  match goal with
  | |- context [match ?res with Some _ => _ | None => _ end] =>
      destruct res as [itemId'|] eqn:Hres; [|left; reflexivity]
  end.
  destruct (Room.removeItem itemId' r) as [[item|] r'] eqn:Hrem;
    [|left; reflexivity].
  right. exists r, r', itemId', item. repeat split. exact Hrem.
Qed.

Lemma taken_stable (item : Item.t) (r r' : Room.t) (itemId' : string)
    (g : GameEngine.t) :
  stable g ->
  getRoom (Player.currentLocation (player g)) g = Some r ->
  Room.removeItem itemId' r = (Some item, r') ->
  stable (taken item r' g).
Proof.
  intros Hst Hr Hrem.
  destruct (removeItem_Some _ _ _ _ Hrem) as (Hin & Hid & Hs & Hperm & Hgone).
  pose proof (stable_putRoom _ _ _ _ Hst Hr Hs) as Hst1.
  unfold taken. destruct Hst1. destruct Hst as [Hrooms _ _ _ Hinv _ _ _ _].
  unfold getRoom in Hr.
  constructor; simpl in *; try assumption.
  destruct stable_inventory0 as [Hnd Hall]. destruct Hinv as [_ Hold].
  split.
  - apply NoDup_app. repeat split; [exact Hnd| |apply NoDup_singleton].
    intros i Hi Hi'. apply list_elem_of_singleton in Hi'. subst i.
    destruct (Hold item Hi) as [_ Hout]. exact (Hout _ _ Hr Hin).
  - intros i Hi. apply elem_of_app in Hi as [Hi|Hi]; [exact (Hall i Hi)|].
    apply list_elem_of_singleton in Hi. subst i.
    pose proof (room_item_placed _ _ _ _ Hrooms Hr Hin) as Hplaced.
    split; [eauto|].
    intros k1 r1. rewrite lookup_insert.
    destruct (decide (toPropertyKey (Player.currentLocation (player g)) = k1))
      as [Hdec|Hdec].
    + intros [= <-]. apply Hgone. exact (room_items_NoDup _ _ _ Hrooms Hr).
    + intros Hk1 Hin1.
      pose proof (room_item_placed _ _ _ _ Hrooms Hk1 Hin1) as Hplaced1.
      destruct (placedItems_distinct _ _ _ _ Hplaced Hplaced1
                  (itemsClash_refl item)) as [Heq _].
      congruence.
Qed.

Lemma Player_take_stable (itemId : string) (g : GameEngine.t) :
  stable g -> stable (snd (Player_take itemId g)).
Proof.
  intros Hst. destruct (Player_take_cases itemId g)
    as [->|(r & r' & itemId' & item & Hr & Hrem & ->)]; [exact Hst|].
  simpl. eapply taken_stable; eassumption.
Qed.

(** *** Using an item preserves the invariant *)

Lemma heal_playerOk (amount : Z) (p : Player.t) :
  0 <= amount -> playerOk p -> Player.isAlive p = true ->
  playerOk (Player.setHealth
              (Z.min (Player.health p + amount) (Player.maxHealth p)) p).
Proof.
  intros Hamount [Hrange Hflag] Halive. rewrite Halive in Hflag.
  symmetry in Hflag. apply Z.ltb_lt in Hflag.
  split; simpl; [lia|]. rewrite Halive. symmetry. apply Z.ltb_lt. lia.
Qed.

Lemma stable_setHealth (h : Z) (g : GameEngine.t) :
  stable g -> playerOk (Player.setHealth h (player g)) ->
  stable (setPlayer (Player.setHealth h (player g)) g).
Proof.
  intros Hst Hp. destruct Hst. constructor; simpl; assumption.
Qed.

Lemma Item_use_stable (item : Item.t) (g : GameEngine.t) :
  stable g -> Player.isAlive (player g) = true ->
  stable (snd (Item_use item g)).
Proof.
  intros Hst Halive. unfold Item_use.
  destruct (Item.use item); simpl; try exact Hst.
  - apply stable_setHealth; [exact Hst|].
    apply heal_playerOk; [lia|apply Hst|exact Halive].
  - apply stable_setHealth; [exact Hst|].
    apply heal_playerOk; [lia|apply Hst|exact Halive].
  - destruct (hasItem "beacon" (player g)); exact Hst.
  - destruct (strictEqStr _ _); [|exact Hst].
    destruct (hasItem "battery" (player g)); [|exact Hst].
    simpl. destruct Hst. constructor; simpl; try assumption; auto.
Qed.

Lemma Player_use_stable (itemId : string) (g : GameEngine.t) :
  stable g -> Player.isAlive (player g) = true ->
  stable (snd (Player_use itemId g)).
Proof.
  intros Hst Halive. unfold Player_use.
  destruct (find _ _) as [item|]; [|exact Hst].
  destruct (Item.isUsable item); simpl; [|exact Hst].
  apply Item_use_stable; assumption.
Qed.

(** *** Combat preserves the invariant *)

Lemma Creature_takeDamage_from (amount : Z) (c0 c : Creature.t) :
  0 <= amount -> creatureFrom c0 c -> Creature.isAlive c = true ->
  creatureFrom c0 (snd (Creature.takeDamage amount c))
  /\ fst (Creature.takeDamage amount c)
     = negb (Creature.isAlive (snd (Creature.takeDamage amount c)))
  /\ Creature.health (snd (Creature.takeDamage amount c))
     = Z.max 0 (Creature.health c - amount).
Proof.
  intros Hamount (H1 & H2 & H3 & H4 & H5 & H6 & Hrange & Hflag) Halive.
  rewrite Halive in Hflag. symmetry in Hflag. apply Z.ltb_lt in Hflag.
  unfold Creature.takeDamage. cbn.
  destruct (Creature.health c - amount <=? 0) eqn:Hle; cbn.
  - apply Z.leb_le in Hle. repeat split; cbn; try assumption; try lia.
  - apply Z.leb_gt in Hle. repeat split; cbn; try assumption; try lia.
    + rewrite Halive. symmetry. apply Z.ltb_lt. lia.
    + rewrite Halive. reflexivity.
Qed.

Lemma Player_takeDamage_ok (amount : Z) (p : Player.t) :
  0 <= amount -> playerOk p -> Player.isAlive p = true ->
  playerOk (Player.takeDamage amount p)
  /\ Player.health (Player.takeDamage amount p)
     = Z.max 0 (Player.health p - amount)
  /\ Player.maxHealth (Player.takeDamage amount p) = Player.maxHealth p
  /\ Player.inventory (Player.takeDamage amount p) = Player.inventory p
  /\ Player.currentLocation (Player.takeDamage amount p)
     = Player.currentLocation p.
Proof.
  intros Hamount [Hrange Hflag] Halive. rewrite Halive in Hflag.
  symmetry in Hflag. apply Z.ltb_lt in Hflag.
  unfold Player.takeDamage, playerOk. cbn.
  destruct (Player.health p - amount <=? 0) eqn:Hle; cbn.
  - apply Z.leb_le in Hle. repeat split; try reflexivity; lia.
  - apply Z.leb_gt in Hle. repeat split; try reflexivity; try lia.
    rewrite Halive. symmetry. apply Z.ltb_lt. lia.
Qed.

Lemma creaturesOk_update (cs : gmap string Creature.t) (k : string)
    (c c' : Creature.t) :
  creaturesOk cs -> cs !! k = Some c ->
  (forall c0, creatureFrom c0 c -> creatureFrom c0 c') ->
  creaturesOk (<[k := c']> cs).
Proof.
  intros Hcs Hk Hfrom k1 c1. rewrite lookup_insert.
  destruct (decide (k = k1)) as [<-|Hne].
  - intros [= <-]. destruct (Hcs k c Hk) as (c0 & H0 & Hf).
    exists c0. split; [exact H0|apply Hfrom, Hf].
  - apply Hcs.
Qed.

(** In a store that satisfies the invariant, the id of a creature is its
    key. *)
Lemma creaturesOk_id (cs : gmap string Creature.t) (k : string)
    (c : Creature.t) :
  creaturesOk cs -> cs !! k = Some c ->
  Creature.id c = k /\ 0 <= Creature.damage c.
Proof.
  intros Hcs Hk. destruct (Hcs k c Hk) as (c0 & H0 & Hf).
  destruct Hf as (Hid & _ & _ & _ & Hd & _).
  destruct (initialCreatures_facts k c0 H0) as (Hid0 & Hd0 & _).
  split; congruence.
Qed.

Lemma getCreatureByName_Some (cs : gmap string Creature.t) (name : string)
    (r : Room.t) (key : string) :
  Room.getCreatureByName cs name r = Some key ->
  key ∈ Room.creatures r
  /\ exists c, cs !! key = Some c
       /\ toLowerCase (Creature.name c) = toLowerCase name.
Proof.
  unfold Room.getCreatureByName. intros Hf.
  apply find_Some_elem in Hf as [Hin Hp]. split; [exact Hin|].
  unfold Room.hasName in Hp. destruct (cs !! key) as [c|]; [|discriminate].
  exists c. split; [reflexivity|]. apply String.eqb_eq. exact Hp.
Qed.

Lemma Player_attack_cases (randoms : Q * Q) (name : string) (g : GameEngine.t) :
  (exists msg, Player_attack randoms name g = (msg, g)
     /\ (msg = "You're in an unknown location."
         \/ msg = "There is no " +:+ name +:+ " here."
         \/ msg = "The " +:+ name +:+ " is not hostile and doesn't want to fight."
         \/ (msg = "The " +:+ name +:+ " is already dead."
             /\ exists r key c,
                  getRoom (Player.currentLocation (player g)) g = Some r
                  /\ key ∈ Room.creatures r
                  /\ creatures g !! key = Some c
                  /\ Creature.isAlive c = false)))
  \/ (exists r key c,
        getRoom (Player.currentLocation (player g)) g = Some r
        /\ Room.getCreatureByName (creatures g) name r = Some key
        /\ creatures g !! key = Some c
        /\ Creature.isAlive c = true
        /\ Creature.isHostile c = true
        /\ Player_attack randoms name g = fight randoms r key c g).
Proof.
  unfold Player_attack.
  destruct (getRoom (Player.currentLocation (player g)) g) as [r|] eqn:Hr;
    [|left; eauto].
  destruct (Room.getCreatureByName (creatures g) name r) as [key|] eqn:Hkey;
    [|left; eauto].
  destruct (creatures g !! key) as [c|] eqn:Hc; [|left; eauto].
  destruct (Creature.isAlive c) eqn:Halive; simpl.
  - destruct (Creature.isHostile c) eqn:Hhostile; simpl; [|left; eauto 6].
    right. exists r, key, c. repeat split; try assumption.
    unfold fight.
    destruct (Creature.takeDamage (playerDamageRoll (fst randoms)) c)
      as [died c'] eqn:Htd. simpl.
    destruct died.
    + destruct (Room.removeCreature _ _ r) as [removed r']. reflexivity.
    + destruct (Creature_attack (snd randoms) c' (player g)) as [msg p'].
      reflexivity.
  - left. eexists. split; [reflexivity|]. do 3 right. split; [reflexivity|].
    exists r, key, c. repeat split; try assumption.
    apply (getCreatureByName_Some _ _ _ _ Hkey).
Qed.

Lemma removeCreature_key (cs : gmap string Creature.t) (r : Room.t)
    (key : string) :
  (forall k, k ∈ Room.creatures r ->
     exists c, cs !! k = Some c /\ Creature.id c = k) ->
  NoDup (Room.creatures r) -> key ∈ Room.creatures r ->
  let r' := snd (Room.removeCreature cs key r) in
  fst (Room.removeCreature cs key r) = Some key
  /\ roomShrinks r r'
  /\ Room.isVisited r' = Room.isVisited r
  /\ Room.creatures r ≡ₚ (key :: Room.creatures r')
  /\ key ∉ Room.creatures r'.
Proof.
  intros Hids Hnd Hkey. unfold Room.removeCreature.
  rewrite (spliceFirst_ext_elem _ (fun k => seq k key)).
  2:{ intros k Hk. destruct (Hids k Hk) as (c & Hc & Hid).
      unfold Room.hasId. rewrite Hc, Hid. reflexivity. }
  destruct (spliceFirst (fun k => seq k key) (Room.creatures r))
    as [[k' rest]|] eqn:Hs.
  - destruct (spliceFirst_Some _ _ _ _ Hs) as (Hp & Hin & Hsub & Hperm).
    apply String.eqb_eq in Hp. subst k'. simpl.
    repeat split; try reflexivity; try assumption.
    apply (spliceFirst_NoDup _ _ _ _ Hnd Hs).
  - pose proof (spliceFirst_None _ _ _ Hs Hkey) as Hf. simpl in Hf.
    unfold seq in Hf. rewrite String.eqb_refl in Hf. discriminate.
Qed.

Lemma room_creature_not_peak (g : GameEngine.t) (r : Room.t) (key : string) :
  roomsOk (rooms g) ->
  getRoom (Player.currentLocation (player g)) g = Some r ->
  key ∈ Room.creatures r ->
  strictEqStr (Player.currentLocation (player g)) "mountain_peak" = false.
Proof.
  intros [Hfrom _] Hr Hkey. unfold getRoom in Hr.
  destruct (Hfrom _ _ Hr) as (r0 & H0 & Hf).
  destruct Hf as (_ & _ & _ & _ & _ & _ & Hsub).
  assert (Hne : Room.creatures r0 <> []).
  { intros Hnil. rewrite Hnil in Hsub. apply sublist_nil_r in Hsub.
    rewrite Hsub in Hkey. apply elem_of_nil in Hkey. exact Hkey. }
  pose proof (mountain_peak_has_no_creature _ _ H0 Hne) as Hpeak.
  destruct (Player.currentLocation (player g)) as [s|p]; simpl in *;
    [|reflexivity].
  apply String.eqb_neq. exact Hpeak.
Qed.

Lemma fight_stable (randoms : Q * Q) (r : Room.t) (key : string)
    (c : Creature.t) (g : GameEngine.t) :
  stable g -> Player.isAlive (player g) = true -> validRandoms randoms ->
  getRoom (Player.currentLocation (player g)) g = Some r ->
  key ∈ Room.creatures r ->
  creatures g !! key = Some c ->
  Creature.isAlive c = true -> Creature.isHostile c = true ->
  stable (snd (fight randoms r key c g)).
Proof.
  intros Hst Halive [Hr1 Hr2] Hr Hkey Hc Hcalive Hhostile.
  pose proof (playerDamageRoll_range _ Hr1) as Hroll.
  set (roll := playerDamageRoll (fst randoms)) in *.
  assert (Hroll0 : 0 <= roll) by lia.
  destruct Hst as [Hrooms Hcs Hrca Hp Hinv Hloc Hwin Hover Hdead].
  destruct (Hcs key c Hc) as (c0 & Hc0 & Hfrom).
  destruct (Creature_takeDamage_from roll c0 c Hroll0 Hfrom Hcalive)
    as (Hfrom' & Hdied & Hhealth).
  assert (Hcs' : creaturesOk
            (<[key := snd (Creature.takeDamage roll c)]> (creatures g))).
  { eapply creaturesOk_update; [exact Hcs|exact Hc|].
    intros c1 Hf1. apply (Creature_takeDamage_from roll c1 c Hroll0 Hf1 Hcalive). }
  destruct (creaturesOk_id _ _ _ Hcs Hc) as [Hid Hdamage].
  unfold fight. fold roll.
  set (c' := snd (Creature.takeDamage roll c)) in *.
  assert (Hid' : Creature.id c' = key).
  { destruct Hfrom' as (Hi & _). destruct Hfrom as (Hi0 & _). congruence. }
  destruct (fst (Creature.takeDamage roll c)) eqn:Hfst; simpl.
  - (* the creature died and leaves the room *)
    rewrite Hid'.
    destruct (removeCreature_key (<[key := c']> (creatures g)) r key)
      as (_ & Hshrink & _ & Hperm & Hgone).
    { intros k Hk. destruct (Hrca _ _ _ Hr Hk) as (ck & Hck & _).
      rewrite lookup_insert. destruct (decide (key = k)) as [<-|Hne].
      - exists c'. split; [reflexivity|exact Hid'].
      - exists ck. split; [exact Hck|].
        apply (creaturesOk_id _ _ _ Hcs Hck). }
    { exact (room_creatures_NoDup _ _ _ Hrooms Hr). }
    { exact Hkey. }
    set (r' := snd (Room.removeCreature (<[key := c']> (creatures g)) key r))
      in *.
    unfold getRoom in Hr.
    constructor; simpl; try assumption.
    + eapply roomsOk_update; eassumption.
    + intros k1 r1 k. rewrite lookup_insert.
      destruct (decide (toPropertyKey (Player.currentLocation (player g)) = k1))
        as [<-|Hne].
      * intros [= <-] Hk.
        assert (Hk' : k ∈ Room.creatures r).
        { rewrite Hperm. right. exact Hk. }
        destruct (Hrca _ _ _ Hr Hk') as (ck & Hck & Hckalive).
        exists ck. split; [|exact Hckalive].
        rewrite lookup_insert_ne; [exact Hck|].
        intros <-. exact (Hgone Hk).
      * intros Hk1 Hk.
        destruct (Hrca _ _ _ Hk1 Hk) as (ck & Hck & Hckalive).
        exists ck. split; [|exact Hckalive].
        rewrite lookup_insert_ne; [exact Hck|].
        intros <-. apply Hne.
        eapply placedCreatures_distinct; eapply room_creature_placed; eauto.
    + eapply inventoryOk_update; eassumption.
  - (* the creature survived and strikes back *)
    assert (Hcalive' : Creature.isAlive c' = true).
    { destruct (Creature.isAlive c'); [reflexivity|discriminate Hdied]. }
    assert (Hhostile' : Creature.isHostile c' = true).
    { destruct Hfrom' as (_ & _ & _ & _ & _ & Hh & _).
      destruct Hfrom as (_ & _ & _ & _ & _ & Hh0 & _). congruence. }
    assert (Hdamage' : 0 <= Creature.damage c').
    { destruct Hfrom' as (_ & _ & _ & _ & Hd & _).
      destruct Hfrom as (_ & _ & _ & _ & Hd0 & _). lia. }
    unfold Creature_attack. rewrite Hcalive', Hhostile'. simpl.
    pose proof (creatureDamageRoll_range _ c' Hr2 Hdamage') as Hcroll.
    assert (Hcroll0 : 0 <= Creature.damageRoll (snd randoms) c') by lia.
    destruct (Player_takeDamage_ok _ _ Hcroll0 Hp Halive)
      as (Hp' & _ & _ & Hinv' & Hloc').
    constructor; simpl; rewrite ?Hinv', ?Hloc'; try assumption.
    + intros k1 r1 k Hk1 Hk.
      destruct (Hrca _ _ _ Hk1 Hk) as (ck & Hck & Hckalive).
      rewrite lookup_insert. destruct (decide (key = k)) as [<-|Hne].
      * exists c'. split; [reflexivity|exact Hcalive'].
      * exists ck. split; assumption.
    + intros Ho. destruct (Hover Ho) as [Hw|Hd]; [left; exact Hw|].
      congruence.
    + intros _. eapply room_creature_not_peak; eassumption.
Qed.

Lemma Player_attack_stable (randoms : Q * Q) (name : string)
    (g : GameEngine.t) :
  stable g -> Player.isAlive (player g) = true -> validRandoms randoms ->
  stable (snd (Player_attack randoms name g)).
Proof.
  intros Hst Halive Hrandoms.
  destruct (Player_attack_cases randoms name g)
    as [(msg & -> & _)|(r & key & c & Hr & Hkey & Hc & Hca & Hch & ->)];
    [exact Hst|].
  apply getCreatureByName_Some in Hkey as [Hkey _].
  eapply fight_stable; eassumption.
Qed.

(** *** Every reachable state satisfies the invariant *)

Lemma dispatch_stable (randoms : Q * Q) (command : string) (g : GameEngine.t) :
  stable g -> Player.isAlive (player g) = true -> validRandoms randoms ->
  stable (snd (dispatch randoms command g)).
Proof.
  intros Hst Halive Hrandoms. unfold dispatch.
  destruct (isCase _ ["go"; "move"; "walk"]).
  { destruct (seq _ ""); [exact Hst|]. by apply Player_move_stable. }
  destruct (isCase _ ["look"; "l"]).
  { destruct (getRoom _ g); exact Hst. }
  destruct (isCase _ ["take"; "get"]).
  { destruct (seq _ ""); [exact Hst|]. by apply Player_take_stable. }
  destruct (isCase _ ["use"]).
  { destruct (seq _ ""); [exact Hst|]. by apply Player_use_stable. }
  destruct (isCase _ ["attack"; "fight"; "hit"]).
  { destruct (seq _ ""); [exact Hst|]. by apply Player_attack_stable. }
  destruct (isCase _ ["inventory"; "inv"; "i"]); [exact Hst|].
  destruct (isCase _ ["status"; "health"; "hp"]); [exact Hst|].
  destruct (isCase _ ["help"; "h"; "?"]); exact Hst.
Qed.

Lemma checkGameConditions_invariant (g : GameEngine.t) :
  stable g -> invariant (checkGameConditions g).
Proof.
  intros Hst. unfold checkGameConditions.
  destruct (Player.isAlive (player g)) eqn:Halive; simpl.
  - split; [exact Hst|]. rewrite Halive. discriminate.
  - split; [|reflexivity].
    destruct Hst. constructor; simpl; try assumption; auto.
Qed.

Lemma invariant_alive (g : GameEngine.t) :
  invariant g -> isGameOver g = false -> Player.isAlive (player g) = true.
Proof.
  intros [_ Hdead] Hover. destruct (Player.isAlive (player g)); [reflexivity|].
  rewrite Hdead in Hover by reflexivity. discriminate.
Qed.

Lemma processCommand_unfold (randoms : Q * Q) (command : string)
    (g : GameEngine.t) :
  isGameOver g = false ->
  processCommand randoms command g
  = (fst (dispatch randoms command g),
     checkGameConditions (snd (dispatch randoms command g))).
Proof.
  intros Hover. unfold processCommand. rewrite Hover.
  destruct (dispatch randoms command g). reflexivity.
Qed.

Lemma processCommand_invariant (randoms : Q * Q) (command : string)
    (g : GameEngine.t) :
  invariant g -> validRandoms randoms ->
  invariant (snd (processCommand randoms command g)).
Proof.
  intros Hinv Hrandoms. destruct (isGameOver g) eqn:Hover.
  - rewrite processCommand_gameOver by exact Hover. exact Hinv.
  - rewrite processCommand_unfold by exact Hover. simpl.
    apply checkGameConditions_invariant, dispatch_stable;
      [apply Hinv|by apply invariant_alive|exact Hrandoms].
Qed.

Lemma reachable_invariant (g : GameEngine.t) : reachable g -> invariant g.
Proof.
  induction 1 as [|g randoms command _ IH Hrandoms].
  - exact invariant_init.
  - by apply processCommand_invariant.
Qed.

(** In a game that goes on, the player is alive and [checkGameConditions]
    changes nothing. *)
Lemma checkGameConditions_alive (g : GameEngine.t) :
  Player.isAlive (player g) = true -> checkGameConditions g = g.
Proof. intros H. unfold checkGameConditions. rewrite H. reflexivity. Qed.

(** The location of a reachable state is the key of a room of the engine, or
    an inherited property, for which [getRoom] finds nothing: [getRoom] is
    never asked for an inherited property of [this.rooms] by name. *)
Lemma location_known (g : GameEngine.t) :
  reachable g ->
  match Player.currentLocation (player g) with
  | JsStr s => is_Some (rooms g !! s) /\ s ∉ objectPrototypeKeys
  | JsInherited p =>
      p ∈ objectPrototypeKeys
      /\ getRoom (Player.currentLocation (player g)) g = None
  end.
Proof.
  intros Hg. destruct (reachable_invariant g Hg) as [Hst _].
  destruct Hst as [[Hfrom Hdom] _ _ _ _ Hloc _ _ _].
  destruct (Player.currentLocation (player g)) as [s|p] eqn:Hl; simpl in Hloc.
  - destruct Hloc as [r0 H0]. split; [exact (Hdom s r0 H0)|].
    apply initialRooms_lookup in H0. unfold initialRooms in H0.
    list_cases H0; injection H0 as -> _; intros Hin; unfold objectPrototypeKeys in Hin;
      list_cases Hin; discriminate Hin.
  - split; [exact Hloc|]. unfold getRoom.
    destruct (rooms g !! toPropertyKey (JsInherited p)) as [r|] eqn:Hr;
      [|reflexivity].
    destruct (Hfrom _ _ Hr) as (r0 & H0 & _).
    apply initialRooms_lookup in H0. unfold initialRooms in H0.
    unfold objectPrototypeKeys in Hloc.
    list_cases Hloc; subst p; list_cases H0; discriminate H0.
Qed.

(** ** Commands that use an item *)

Lemma seq_eq (x y : string) : seq x y = true <-> x = y.
Proof. apply String.eqb_eq. Qed.

Lemma seq_neq (x y : string) : seq x y = false <-> x <> y.
Proof. apply String.eqb_neq. Qed.

Lemma dispatch_use (randoms : Q * Q) (command : string) (g : GameEngine.t) :
  action command = "use" -> target command <> "" ->
  dispatch randoms command g = Player_use (target command) g.
Proof.
  intros Ha Ht. unfold dispatch. rewrite Ha. simpl.
  apply seq_neq in Ht. rewrite Ht. reflexivity.
Qed.

(** The items of the world by id. *)
Lemma placedItems_registered (k : string) (i : Item.t) :
  (k, i) ∈ placedItems -> createItems !! Item.id i = Some i.
Proof.
  intros H. unfold placedItems in H.
  list_cases H; injection H as -> ->; vm_compute; reflexivity.
Qed.

Lemma placedItems_lowercase (k : string) (i : Item.t) :
  (k, i) ∈ placedItems ->
  toLowerCase (Item.id i) = Item.id i /\ Item.id i <> ""
  /\ toLowerCase (Item.name i) <> "".
Proof.
  intros H. unfold placedItems in H.
  list_cases H; injection H as -> ->; vm_compute; repeat split; discriminate.
Qed.

Lemma inventory_item_registered (g : GameEngine.t) (i : Item.t) :
  stable g -> i ∈ Player.inventory (player g) ->
  createItems !! Item.id i = Some i.
Proof.
  intros Hst Hi. destruct Hst as [_ _ _ _ [_ Hinv] _ _ _ _].
  destruct (Hinv i Hi) as [[k Hk] _]. exact (placedItems_registered k i Hk).
Qed.

(** ** The health of the player (C3) *)

Lemma Player_use_medkit (itemId : string) (item : Item.t) (g : GameEngine.t) :
  find (useMatches itemId) (Player.inventory (player g)) = Some item ->
  Item.isUsable item = true -> Item.use item = UseMedkit ->
  snd (Player_use itemId g)
  = setPlayer (Player.setHealth
                 (Z.min (Player.health (player g) + 50)
                        (Player.maxHealth (player g))) (player g)) g.
Proof.
  intros Hfind Husable Huse. unfold Player_use.
  change (fun i : Item.t => seq (Item.id i) itemId
                            || seq (toLowerCase (Item.name i))
                                   (toLowerCase itemId))
    with (useMatches itemId).
  rewrite Hfind, Husable. simpl. unfold Item_use. rewrite Huse. reflexivity.
Qed.

(** C3. In every reachable state the health of the player lies between 0 and
    [maxHealth], and [isAlive] is true exactly when the health is positive
    (health 0 and a false [isAlive] imply each other).  A [use] command that
    resolves to the medkit sets the health to the minimum of health + 50 and
    [maxHealth]: at 90 of 100 it yields exactly 100. *)
Theorem C3_player_health_bounds :
  forall g : GameEngine.t,
    reachable g ->
    0 <= Player.health (player g) <= Player.maxHealth (player g)
    /\ (Player.isAlive (player g) = true <-> 0 < Player.health (player g))
    /\ (Player.health (player g) = 0 <-> Player.isAlive (player g) = false)
    /\ forall (randoms : Q * Q) (command : string) (item : Item.t),
         isGameOver g = false ->
         usesItem command g item ->
         Item.id item = "medkit" ->
         Player.health (player (snd (processCommand randoms command g)))
         = Z.min (Player.health (player g) + 50) (Player.maxHealth (player g))
         /\ (Player.health (player g) = 90 ->
             Player.maxHealth (player g) = 100 ->
             Player.health (player (snd (processCommand randoms command g)))
             = 100).
Proof.
  intros g Hg. pose proof (reachable_invariant g Hg) as Hinv.
  destruct Hinv as [Hst Hdead].
  pose proof (stable_player g Hst) as [Hrange Hflag].
  split; [exact Hrange|]. split; [|split].
  - rewrite Hflag. apply Z.ltb_lt.
  - rewrite Hflag. rewrite Z.ltb_ge. lia.
  - intros randoms command item Hover (Ha & Ht & Hfind) Hid.
    assert (Halive : Player.isAlive (player g) = true)
      by (apply invariant_alive; [split; assumption|exact Hover]).
    pose proof (find_Some_elem _ _ _ Hfind) as [Hin _].
    pose proof (inventory_item_registered g item Hst Hin) as Hreg.
    rewrite Hid in Hreg. vm_compute in Hreg. injection Hreg as <-.
    assert (Hhealth :
      Player.health (player (snd (processCommand randoms command g)))
      = Z.min (Player.health (player g) + 50) (Player.maxHealth (player g))).
    { rewrite processCommand_unfold by exact Hover. simpl.
      rewrite (dispatch_use _ _ _ Ha Ht).
      rewrite (Player_use_medkit _ _ _ Hfind eq_refl eq_refl).
      rewrite checkGameConditions_alive by exact Halive. reflexivity. }
    split; [exact Hhealth|]. intros H90 H100. rewrite Hhealth. lia.
Qed.

(** ** The win flag (C1) *)

Lemma Player_take_flags (itemId : string) (g : GameEngine.t) :
  isWin (snd (Player_take itemId g)) = isWin g
  /\ isGameOver (snd (Player_take itemId g)) = isGameOver g
  /\ Player.isAlive (player (snd (Player_take itemId g)))
     = Player.isAlive (player g).
Proof.
  destruct (Player_take_cases itemId g)
    as [->|(r & r' & itemId' & item & _ & _ & ->)]; repeat split.
Qed.

Lemma Player_attack_flags (randoms : Q * Q) (name : string) (g : GameEngine.t) :
  isWin (snd (Player_attack randoms name g)) = isWin g
  /\ isGameOver (snd (Player_attack randoms name g)) = isGameOver g.
Proof.
  destruct (Player_attack_cases randoms name g)
    as [(msg & -> & _)|(r & key & c & _ & _ & _ & _ & _ & ->)];
    [repeat split|].
  unfold fight. destruct (fst (Creature.takeDamage _ c)); repeat split.
Qed.

(** The only way in which [Player.use] sets the win flag. *)
Lemma Player_use_wins (itemId : string) (g : GameEngine.t) :
  isWin g = false -> isWin (snd (Player_use itemId g)) = true ->
  exists item,
    find (useMatches itemId) (Player.inventory (player g)) = Some item
    /\ Item.isUsable item = true
    /\ Item.use item = UseBeacon
    /\ strictEqStr (Player.currentLocation (player g)) "mountain_peak" = true
    /\ hasItem "battery" (player g) = true.
Proof.
  intros Hwin. unfold Player_use.
  change (fun i : Item.t => seq (Item.id i) itemId
                            || seq (toLowerCase (Item.name i))
                                   (toLowerCase itemId))
    with (useMatches itemId).
  destruct (find (useMatches itemId) _) as [item|] eqn:Hfind; simpl;
    [|congruence].
  destruct (Item.isUsable item) eqn:Husable; simpl; [|congruence].
  unfold Item_use. destruct (Item.use item) eqn:Huse; simpl; try congruence.
  - destruct (hasItem "beacon" (player g)); simpl; congruence.
  - destruct (strictEqStr _ _) eqn:Hloc; simpl; [|congruence].
    destruct (hasItem "battery" (player g)) eqn:Hbat; simpl; [|congruence].
    intros _. exists item. repeat split; assumption.
Qed.

Lemma Player_use_beacon (itemId : string) (item : Item.t) (g : GameEngine.t) :
  find (useMatches itemId) (Player.inventory (player g)) = Some item ->
  Item.isUsable item = true -> Item.use item = UseBeacon ->
  strictEqStr (Player.currentLocation (player g)) "mountain_peak" = true ->
  hasItem "battery" (player g) = true ->
  Player_use itemId g = (victoryText, setIsGameOver true (setIsWin true g)).
Proof.
  intros Hfind Husable Huse Hloc Hbat. unfold Player_use.
  change (fun i : Item.t => seq (Item.id i) itemId
                            || seq (toLowerCase (Item.name i))
                                   (toLowerCase itemId))
    with (useMatches itemId).
  rewrite Hfind, Husable. simpl. unfold Item_use.
  rewrite Huse, Hloc, Hbat. reflexivity.
Qed.

Lemma isCase_use (a : string) : isCase a ["use"] = true -> a = "use".
Proof.
  unfold isCase. simpl. rewrite orb_false_r. apply seq_eq.
Qed.

(** The only command that sets the win flag is a [use] command. *)
(** The win flag cannot be both unset and set. *)
Ltac no_win Hwin :=
  let H := fresh in
  intros H;
  match type of Hwin with
  | ?w = false => change (w = true) in H; rewrite Hwin in H; discriminate H
  end.

Lemma dispatch_wins (randoms : Q * Q) (command : string) (g : GameEngine.t) :
  isWin g = false -> isWin (snd (dispatch randoms command g)) = true ->
  action command = "use" /\ target command <> ""
  /\ dispatch randoms command g = Player_use (target command) g.
Proof.
  intros Hwin. unfold dispatch.
  destruct (isCase (action command) ["go"; "move"; "walk"]).
  { destruct (seq _ ""); [no_win Hwin|].
    destruct (Player_move_flags (target command) g) as (_ & -> & _).
    no_win Hwin. }
  destruct (isCase (action command) ["look"; "l"]).
  { destruct (getRoom _ g); no_win Hwin. }
  destruct (isCase (action command) ["take"; "get"]).
  { destruct (seq _ ""); [no_win Hwin|].
    destruct (Player_take_flags (target command) g) as (-> & _). no_win Hwin. }
  destruct (isCase (action command) ["use"]) eqn:Huse.
  { destruct (seq _ "") eqn:Ht; [no_win Hwin|].
    intros _. apply isCase_use in Huse. apply seq_neq in Ht. by repeat split. }
  destruct (isCase (action command) ["attack"; "fight"; "hit"]).
  { destruct (seq _ ""); [no_win Hwin|].
    destruct (Player_attack_flags randoms (target command) g) as (-> & _).
    no_win Hwin. }
  destruct (isCase (action command) ["inventory"; "inv"; "i"]); [no_win Hwin|].
  destruct (isCase (action command) ["status"; "health"; "hp"]); [no_win Hwin|].
  destruct (isCase (action command) ["help"; "h"; "?"]); no_win Hwin.
Qed.

Lemma placedItems_beacon (k : string) (i : Item.t) :
  (k, i) ∈ placedItems ->
  (Item.use i = UseBeacon <-> Item.id i = "beacon")
  /\ (Item.id i = "beacon" -> Item.isUsable i = true).
Proof.
  intros H. unfold placedItems in H.
  list_cases H; injection H as -> ->; simpl;
    (split; [split; intros Hx; first [discriminate Hx|reflexivity]
            |intros Hx; first [discriminate Hx|reflexivity]]).
Qed.

Lemma strictEqStr_eq (v : JsValue) (s : string) :
  strictEqStr v s = true <-> v = JsStr s.
Proof.
  destruct v as [t|p]; simpl.
  - rewrite seq_eq. split; [intros ->; reflexivity|intros [= ->]; reflexivity].
  - split; discriminate.
Qed.

Lemma hasItem_elem (itemId : string) (p : Player.t) :
  hasItem itemId p = true
  <-> exists b, b ∈ Player.inventory p /\ Item.id b = itemId.
Proof.
  unfold hasItem. rewrite existsb_exists. split.
  - intros (b & Hin & Hid). exists b. split; [by apply list_elem_of_In|].
    by apply seq_eq.
  - intros (b & Hin & Hid). exists b. split; [by apply list_elem_of_In|].
    by apply seq_eq.
Qed.

Lemma checkGameConditions_isWin (g : GameEngine.t) :
  isWin (checkGameConditions g) = isWin g.
Proof.
  unfold checkGameConditions. destruct (negb _); reflexivity.
Qed.

(** C1. From a reachable state in which the win flag is not set, a command
    sets it if and only if it is a [use] command that resolves to the beacon
    while the player is at the mountain peak and an item with id [battery] is
    in the inventory; the command then also sets [isGameOver] and returns the
    victory text.  No other command, and no use of the beacon elsewhere or
    without the battery, sets the flag. *)
Theorem C1_win_iff_beacon_used_at_peak_with_battery :
  forall (g : GameEngine.t) (randoms : Q * Q) (command : string),
    reachable g ->
    isWin g = false ->
    (isWin (snd (processCommand randoms command g)) = true
     <-> (exists item : Item.t,
            usesItem command g item /\ Item.id item = "beacon")
         /\ Player.currentLocation (player g) = JsStr "mountain_peak"
         /\ (exists b : Item.t,
               b ∈ Player.inventory (player g) /\ Item.id b = "battery"))
    /\ (isWin (snd (processCommand randoms command g)) = true ->
        isGameOver (snd (processCommand randoms command g)) = true
        /\ fst (processCommand randoms command g) = victoryText).
Proof.
  intros g randoms command Hg Hwin.
  pose proof (reachable_invariant g Hg) as [Hst Hdead].
  assert (Hplaced : forall i, i ∈ Player.inventory (player g) ->
                      exists k, (k, i) ∈ placedItems).
  { intros i Hi. destruct Hst as [_ _ _ _ [_ Hinv] _ _ _ _].
    apply (Hinv i Hi). }
  assert (Hforward :
    isWin (snd (processCommand randoms command g)) = true ->
    ((exists item : Item.t,
        usesItem command g item /\ Item.id item = "beacon")
     /\ Player.currentLocation (player g) = JsStr "mountain_peak"
     /\ (exists b : Item.t,
           b ∈ Player.inventory (player g) /\ Item.id b = "battery"))
    /\ isGameOver (snd (processCommand randoms command g)) = true
    /\ fst (processCommand randoms command g) = victoryText).
  { destruct (isGameOver g) eqn:Hover.
    { rewrite processCommand_gameOver by exact Hover. simpl. congruence. }
    rewrite processCommand_unfold by exact Hover. simpl.
    rewrite checkGameConditions_isWin. intros Hwin'.
    destruct (dispatch_wins _ _ _ Hwin Hwin') as (Ha & Ht & Hd).
    rewrite Hd in *.
    destruct (Player_use_wins _ _ Hwin Hwin')
      as (item & Hfind & Husable & Huse & Hloc & Hbat).
    rewrite (Player_use_beacon _ _ _ Hfind Husable Huse Hloc Hbat). simpl.
    pose proof (find_Some_elem _ _ _ Hfind) as [Hin _].
    destruct (Hplaced item Hin) as [k Hk].
    repeat split.
    - exists item. split; [by repeat split|].
      by apply (placedItems_beacon k item Hk).
    - by apply strictEqStr_eq.
    - by apply hasItem_elem.
    - unfold checkGameConditions. destruct (negb _); reflexivity. }
  split; [split|]; [apply Hforward| |apply Hforward].
  intros ((item & (Ha & Ht & Hfind) & Hid) & Hloc & Hbat).
  apply strictEqStr_eq in Hloc. apply hasItem_elem in Hbat.
  assert (Hover : isGameOver g = false).
  { destruct (isGameOver g) eqn:Hover; [|reflexivity].
    destruct (stable_over g Hst Hover) as [Hw|Hd]; [congruence|].
    pose proof (stable_dead g Hst Hd). congruence. }
  pose proof (find_Some_elem _ _ _ Hfind) as [Hin _].
  destruct (Hplaced item Hin) as [k Hk].
  destruct (placedItems_beacon k item Hk) as [Huse Husable].
  rewrite processCommand_unfold by exact Hover. simpl.
  rewrite checkGameConditions_isWin, (dispatch_use _ _ _ Ha Ht).
  rewrite (Player_use_beacon _ _ _ Hfind (Husable Hid) (proj2 Huse Hid)
             Hloc Hbat).
  reflexivity.
Qed.

(** ** Strings: lower case, tokens *)

Lemma lowerChar_idem (c : ascii) : lowerChar (lowerChar c) = lowerChar c.
Proof. destruct c as [[] [] [] [] [] [] [] []]; reflexivity. Qed.

Lemma lowerChar_isWhite (c : ascii) : isWhite (lowerChar c) = isWhite c.
Proof. destruct c as [[] [] [] [] [] [] [] []]; reflexivity. Qed.

Lemma lowerChar_space (c : ascii) :
  Ascii.eqb (lowerChar c) " " = Ascii.eqb c " ".
Proof. destruct c as [[] [] [] [] [] [] [] []]; reflexivity. Qed.

Lemma toLowerCase_idem (s : string) :
  toLowerCase (toLowerCase s) = toLowerCase s.
Proof.
  induction s as [|c s IH]; simpl; [reflexivity|].
  rewrite lowerChar_idem, IH. reflexivity.
Qed.

Lemma toLowerCase_app (s t : string) :
  toLowerCase (s +:+ t) = toLowerCase s +:+ toLowerCase t.
Proof.
  induction s as [|c s IH]; simpl; [reflexivity|]. rewrite IH. reflexivity.
Qed.

(** Splitting and joining the lower-cased input yields lower-cased words. *)
Lemma split_lower (s : string) :
  toLowerCase s = s -> Forall (fun w => toLowerCase w = w) (split " " s).
Proof.
  induction s as [|c s IH]; simpl; intros H.
  - repeat constructor.
  - injection H as Hc Hs. specialize (IH Hs).
    destruct (Ascii.eqb c " ").
    + constructor; [reflexivity|exact IH].
    + destruct (split " " s) as [|w ws]; [repeat constructor; simpl; congruence|].
      inversion IH as [|? ? Hw Hws]; subst.
      constructor; [simpl; congruence|exact Hws].
Qed.

Lemma join_lower (l : list string) :
  Forall (fun w => toLowerCase w = w) l -> toLowerCase (join " " l) = join " " l.
Proof.
  induction l as [|w l IH]; intros H; [reflexivity|].
  inversion H as [|? ? Hw Hl]; subst. specialize (IH Hl).
  destruct l as [|w' l']; [exact Hw|].
  change (join " " (w :: w' :: l')) with (w +:+ " " +:+ join " " (w' :: l')).
  rewrite !toLowerCase_app, Hw, IH. reflexivity.
Qed.

Lemma parts_lower (command : string) :
  Forall (fun w => toLowerCase w = w) (parts command).
Proof. apply split_lower, toLowerCase_idem. Qed.

Lemma target_lower (command : string) :
  toLowerCase (target command) = target command.
Proof.
  apply join_lower. pose proof (parts_lower command) as H.
  destruct (parts command); [constructor|]. inversion H; assumption.
Qed.

(** ** Which commands use the beacon *)

Lemma placedItems_useMatches_beacon (k : string) (i : Item.t) (t : string) :
  (k, i) ∈ placedItems ->
  t = "beacon" \/ t = "rescue beacon" ->
  useMatches t i = true -> Item.id i = "beacon".
Proof.
  intros H Ht. unfold placedItems in H.
  list_cases H; injection H as -> ->; destruct Ht as [-> | ->];
    vm_compute; intros Hm; first [reflexivity|discriminate Hm].
Qed.

(** In a reachable state the [use] commands that resolve to the beacon are
    those whose argument is the id or the lower-cased name of the beacon,
    when the beacon is in the inventory. *)
Lemma uses_beacon_iff (g : GameEngine.t) (command : string) :
  reachable g ->
  (exists item : Item.t, usesItem command g item /\ Item.id item = "beacon")
  <-> action command = "use"
      /\ (target command = "beacon" \/ target command = "rescue beacon")
      /\ exists b : Item.t,
           b ∈ Player.inventory (player g) /\ Item.id b = "beacon".
Proof.
  intros Hg. destruct (reachable_invariant g Hg) as [Hst _].
  assert (Hplaced : forall i, i ∈ Player.inventory (player g) ->
                      exists k, (k, i) ∈ placedItems).
  { intros i Hi. destruct Hst as [_ _ _ _ [_ Hinv] _ _ _ _].
    apply (Hinv i Hi). }
  split.
  - intros (item & (Ha & Ht & Hfind) & Hid).
    apply find_Some_elem in Hfind as [Hin Hmatch].
    pose proof (inventory_item_registered g item Hst Hin) as Hreg.
    rewrite Hid in Hreg. vm_compute in Hreg. injection Hreg as <-.
    split; [exact Ha|]. split; [|eauto].
    unfold useMatches in Hmatch. apply orb_true_iff in Hmatch as [Hm|Hm];
      apply seq_eq in Hm.
    + left. symmetry. exact Hm.
    + right. rewrite target_lower in Hm. symmetry. exact Hm.
  - intros (Ha & Ht & b & Hin & Hid).
    pose proof (inventory_item_registered g b Hst Hin) as Hreg.
    rewrite Hid in Hreg. vm_compute in Hreg. injection Hreg as <-.
    destruct (find (useMatches (target command))
                   (Player.inventory (player g))) as [item|] eqn:Hfind.
    + exists item. pose proof (find_Some_elem _ _ _ Hfind) as [Hitem Hmatch].
      destruct (Hplaced item Hitem) as [k Hk].
      split; [|exact (placedItems_useMatches_beacon k item _ Hk Ht Hmatch)].
      split; [exact Ha|]. split; [|exact Hfind].
      destruct Ht as [Ht|Ht]; rewrite Ht; discriminate.
    + pose proof (find_None_elem _ _ _ Hfind Hin) as Hm.
      destruct Ht as [Ht|Ht]; rewrite Ht in Hm; vm_compute in Hm;
        discriminate Hm.
Qed.

(** ** Looking after a move (C7) *)

Lemma Player_move_enters (direction : string) (g : GameEngine.t)
    (r rx : Room.t) (X : string) :
  getRoom (Player.currentLocation (player g)) g = Some r ->
  ownProperty (toLowerCase direction) (Room.exits r) = Some X ->
  X <> "" ->
  rooms g !! X = Some rx ->
  Player_move direction g
  = (Room.getDescription (creatures g) rx,
     putRoom (JsStr X) (entered rx)
       (setPlayer (Player.setCurrentLocation (JsStr X) (player g)) g)).
Proof.
  intros Hr Hexit HX Hrx. unfold Player_move, getProperty.
  rewrite Hr, Hexit.
  assert (Htruthy : truthy (JsStr X) = true) by (destruct X; [congruence|reflexivity]).
  rewrite Htruthy. simpl negb. cbv iota.
  unfold getRoom at 1. simpl. rewrite Hrx.
  unfold entered. destruct (negb (Room.isVisited rx)); reflexivity.
Qed.

Lemma isCase_look (a : string) :
  isCase a ["look"; "l"] = true -> a = "look" \/ a = "l".
Proof.
  unfold isCase. simpl. rewrite orb_false_r. intros H.
  apply orb_true_iff in H as [H|H]; apply seq_eq in H; auto.
Qed.

Lemma dispatch_look (randoms : Q * Q) (command : string) (g : GameEngine.t) :
  isCase (action command) ["look"; "l"] = true ->
  dispatch randoms command g
  = match getRoom (Player.currentLocation (player g)) g with
    | Some currentRoom => (Room.getDescription (creatures g) currentRoom, g)
    | None => ("You're in an unknown location.", g)
    end.
Proof.
  intros H. unfold dispatch.
  destruct (isCase_look _ H) as [-> | ->]; reflexivity.
Qed.

Lemma dispatch_move (randoms : Q * Q) (command : string) (g : GameEngine.t) :
  isCase (action command) ["go"; "move"; "walk"] = true ->
  target command <> "" ->
  dispatch randoms command g = Player_move (target command) g.
Proof.
  intros Ha Ht. unfold dispatch. rewrite Ha.
  apply seq_neq in Ht. rewrite Ht. reflexivity.
Qed.

(** C7. From a reachable state in which the game goes on, a move command
    whose direction is an exit of the current room to room [X] puts the
    player in [X] and returns the description of [X]; a look command issued
    next returns the same text and changes nothing. *)
Theorem C7_look_repeats_move_description :
  forall (g : GameEngine.t) (randoms : Q * Q) (command : string)
         (r : Room.t) (X : string),
    reachable g ->
    isGameOver g = false ->
    isCase (action command) ["go"; "move"; "walk"] = true ->
    getRoom (Player.currentLocation (player g)) g = Some r ->
    ownProperty (target command) (Room.exits r) = Some X ->
    (exists rx : Room.t,
       getRoom (JsStr X) (snd (processCommand randoms command g)) = Some rx
       /\ Player.currentLocation
            (player (snd (processCommand randoms command g))) = JsStr X
       /\ fst (processCommand randoms command g)
          = Room.getDescription
              (creatures (snd (processCommand randoms command g))) rx)
    /\ forall (randoms' : Q * Q) (look : string),
         isCase (action look) ["look"; "l"] = true ->
         processCommand randoms' look (snd (processCommand randoms command g))
         = (fst (processCommand randoms command g),
            snd (processCommand randoms command g)).
Proof.
  intros g randoms command r X Hg Hover Ha Hr Hexit.
  pose proof (reachable_invariant g Hg) as Hinv.
  pose proof (invariant_alive g Hinv Hover) as Halive.
  destruct Hinv as [Hst _].
  destruct (stable_rooms g Hst) as [Hfrom Hdom].
  pose proof Hr as Hr'. unfold getRoom in Hr'.
  destruct (Hfrom _ _ Hr') as (r0 & H0 & Hf).
  assert (Hexit0 : ownProperty (target command) (Room.exits r0) = Some X).
  { destruct Hf as (_ & _ & _ & _ & <- & _). exact Hexit. }
  destruct (initialRooms_exits _ _ _ _ H0 Hexit0) as (HX & [rx0 Hrx0] & Ht).
  destruct (Hdom X rx0 Hrx0) as [rx Hrx].
  assert (Hmove : processCommand randoms command g
    = (Room.getDescription (creatures g) rx,
       putRoom (JsStr X) (entered rx)
         (setPlayer (Player.setCurrentLocation (JsStr X) (player g)) g))).
  { rewrite processCommand_unfold by exact Hover.
    rewrite (dispatch_move _ _ _ Ha Ht).
    rewrite (Player_move_enters _ _ r rx X Hr); try assumption.
    - simpl. rewrite checkGameConditions_alive by exact Halive. reflexivity.
    - rewrite target_lower. exact Hexit. }
  rewrite Hmove. simpl.
  assert (Hentered : getRoom (JsStr X)
            (putRoom (JsStr X) (entered rx)
               (setPlayer (Player.setCurrentLocation (JsStr X) (player g)) g))
          = Some (entered rx)).
  { unfold getRoom. simpl. apply lookup_insert_eq. }
  assert (Hdesc : Room.getDescription (creatures g) (entered rx)
                  = Room.getDescription (creatures g) rx).
  { unfold entered. destruct (negb (Room.isVisited rx)); reflexivity. }
  split.
  - exists (entered rx). repeat split; [exact Hentered|]. symmetry. exact Hdesc.
  - intros randoms' look Hlook.
    rewrite processCommand_unfold by exact Hover.
    rewrite (dispatch_look _ _ _ Hlook).
    change (Player.currentLocation (player (putRoom (JsStr X) (entered rx)
              (setPlayer (Player.setCurrentLocation (JsStr X) (player g)) g))))
      with (JsStr X).
    rewrite Hentered. simpl. rewrite Hdesc.
    rewrite checkGameConditions_alive by exact Halive. reflexivity.
Qed.

(** ** Taking an item, and taking it again (C8) *)

Lemma isCase_take (a : string) :
  isCase a ["take"; "get"] = true -> a = "take" \/ a = "get".
Proof.
  unfold isCase. simpl. rewrite orb_false_r. intros H.
  apply orb_true_iff in H as [H|H]; apply seq_eq in H; auto.
Qed.

Lemma dispatch_take (randoms : Q * Q) (command : string) (g : GameEngine.t) :
  isCase (action command) ["take"; "get"] = true ->
  target command <> "" ->
  dispatch randoms command g = Player_take (target command) g.
Proof.
  intros Ha Ht. unfold dispatch. apply seq_neq in Ht.
  destruct (isCase_take _ Ha) as [-> | ->]; simpl; rewrite Ht; reflexivity.
Qed.

Lemma Player_take_resolve (itemId : string) (g : GameEngine.t) (r : Room.t) :
  getRoom (Player.currentLocation (player g)) g = Some r ->
  Player_take itemId g
  = match resolveItem itemId r with
    | None => ("There is no " +:+ itemId +:+ " here.", g)
    | Some itemId' =>
        match Room.removeItem itemId' r with
        | (Some takenItem, r') =>
            ("You take the " +:+ Item.name takenItem +:+ ".",
             taken takenItem r' g)
        | (None, _) => ("You can't take that.", g)
        end
    end.
Proof. intros Hr. unfold Player_take. rewrite Hr. reflexivity. Qed.

Section TakeInRoom.
Variables (g : GameEngine.t) (r : Room.t) (item : Item.t).
Hypothesis Hrooms : roomsOk (rooms g).
Hypothesis Hr : getRoom (Player.currentLocation (player g)) g = Some r.
Hypothesis Hitem : item ∈ Room.items r.

Let k : string := toPropertyKey (Player.currentLocation (player g)).

Lemma room_item_unique (i : Item.t) :
  i ∈ Room.items r -> itemsClash i item = true -> i = item.
Proof using Hrooms Hr Hitem.
  intros Hi Hclash.
  pose proof (room_item_placed _ k r i Hrooms Hr Hi) as Hpi.
  pose proof (room_item_placed _ k r item Hrooms Hr Hitem) as Hpitem.
  apply (placedItems_distinct _ _ _ _ Hpi Hpitem Hclash).
Qed.

Lemma removeItem_item :
  exists r', Room.removeItem (Item.id item) r = (Some item, r').
Proof using Hrooms Hr Hitem.
  unfold Room.removeItem.
  destruct (spliceFirst_is_Some
              (fun i => seq (Item.id i) (Item.id item)) _ item Hitem)
    as [[y rest] Hs].
  { apply seq_eq. reflexivity. }
  rewrite Hs. destruct (spliceFirst_Some _ _ _ _ Hs) as (Hp & Hin & _).
  assert (y = item) as ->.
  { apply room_item_unique; [exact Hin|]. unfold itemsClash. rewrite Hp.
    reflexivity. }
  eauto.
Qed.

Lemma resolveItem_item (t : string) :
  t = Item.id item \/ t = toLowerCase (Item.name item) ->
  resolveItem t r = Some (Item.id item).
Proof using Hrooms Hr Hitem.
  intros Ht. unfold resolveItem, Room.getItem.
  destruct (find (fun i => seq (Item.id i) t) (Room.items r))
    as [i2|] eqn:Hfind.
  - apply find_Some_elem in Hfind as [Hin Hp]. apply seq_eq in Hp.
    destruct Ht as [->| ->]; [reflexivity|].
    f_equal. rewrite <- Hp. f_equal.
    apply room_item_unique; [exact Hin|]. unfold itemsClash.
    rewrite Hp. unfold seq. rewrite String.eqb_refl, orb_true_r. reflexivity.
  - destruct Ht as [->| ->].
    + pose proof (find_None_elem _ _ item Hfind Hitem) as Hp. simpl in Hp.
      unfold seq in Hp. rewrite String.eqb_refl in Hp. discriminate.
    + rewrite toLowerCase_idem.
      destruct (find (fun i => seq (toLowerCase (Item.name i))
                                   (toLowerCase (Item.name item)))
                     (Room.items r)) as [i3|] eqn:Hname.
      * apply find_Some_elem in Hname as [Hin Hp]. simpl in Hp.
        f_equal. f_equal. apply room_item_unique; [exact Hin|].
        unfold itemsClash. rewrite Hp, !orb_true_r. reflexivity.
      * pose proof (find_None_elem _ _ item Hname Hitem) as Hp. simpl in Hp.
        unfold seq in Hp. rewrite String.eqb_refl in Hp. discriminate.
Qed.

End TakeInRoom.

Lemma Player_take_absent (t : string) (g : GameEngine.t) (r : Room.t) :
  getRoom (Player.currentLocation (player g)) g = Some r ->
  (forall i, i ∈ Room.items r ->
     seq (Item.id i) t = false
     /\ seq (toLowerCase (Item.name i)) (toLowerCase t) = false) ->
  Player_take t g = ("There is no " +:+ t +:+ " here.", g).
Proof.
  intros Hr Habsent. rewrite (Player_take_resolve _ _ _ Hr).
  unfold resolveItem, Room.getItem.
  rewrite find_all_false by (intros i Hi; apply (Habsent i Hi)).
  rewrite find_all_false by (intros i Hi; apply (Habsent i Hi)).
  reflexivity.
Qed.

(** C8. From a reachable state in which the game goes on, a take command
    that names an item of the current room, by its id or by its name in any
    letter case, removes that item from the room, appends it to the
    inventory, where it was not before, and returns the confirmation.  A
    second take command for the same item issued next finds nothing: it
    returns the not-found message and changes nothing. *)
Theorem C8_take_then_take_again :
  forall (g : GameEngine.t) (randoms : Q * Q) (command : string)
         (r : Room.t) (item : Item.t),
    reachable g ->
    isGameOver g = false ->
    isCase (action command) ["take"; "get"] = true ->
    getRoom (Player.currentLocation (player g)) g = Some r ->
    item ∈ Room.items r ->
    (target command = Item.id item
     \/ target command = toLowerCase (Item.name item)) ->
    fst (processCommand randoms command g)
    = "You take the " +:+ Item.name item +:+ "."
    /\ (exists r' : Room.t,
          getRoom (Player.currentLocation (player g))
                  (snd (processCommand randoms command g)) = Some r'
          /\ (item ∉ Room.items r')
          /\ Room.items r ≡ₚ (item :: Room.items r')
          /\ Room.items r' `sublist_of` Room.items r)
    /\ Player.inventory (player (snd (processCommand randoms command g)))
       = (Player.inventory (player g) ++ [item])%list
    /\ (item ∉ Player.inventory (player g))
    /\ forall (randoms2 : Q * Q) (command2 : string),
         isCase (action command2) ["take"; "get"] = true ->
         (target command2 = Item.id item
          \/ target command2 = toLowerCase (Item.name item)) ->
         processCommand randoms2 command2
           (snd (processCommand randoms command g))
         = ("There is no " +:+ target command2 +:+ " here.",
            snd (processCommand randoms command g)).
Proof.
  intros g randoms command r item Hg Hover Ha Hr Hitem Htarget.
  pose proof (reachable_invariant g Hg) as Hinv.
  pose proof (invariant_alive g Hinv Hover) as Halive.
  destruct Hinv as [Hst _].
  pose proof (stable_rooms g Hst) as Hrooms.
  pose proof (room_item_placed _ _ r item Hrooms Hr Hitem) as Hplaced.
  destruct (placedItems_lowercase _ _ Hplaced) as (Hlow & Hid & Hname).
  assert (Hnonempty : forall t,
            t = Item.id item \/ t = toLowerCase (Item.name item) -> t <> "").
  { intros t [->| ->]; assumption. }
  destruct (removeItem_item g r item Hrooms Hr Hitem) as [r' Hrem].
  destruct (removeItem_Some _ _ _ _ Hrem) as (_ & _ & Hshrink & Hperm & Hgone).
  specialize (Hgone (room_items_NoDup _ _ _ Hrooms Hr)).
  assert (Htake : processCommand randoms command g
            = ("You take the " +:+ Item.name item +:+ ".", taken item r' g)).
  { rewrite processCommand_unfold by exact Hover.
    rewrite (dispatch_take _ _ _ Ha (Hnonempty _ Htarget)).
    rewrite (Player_take_resolve _ _ _ Hr).
    rewrite (resolveItem_item g r item Hrooms Hr Hitem _ Htarget), Hrem.
    simpl. rewrite checkGameConditions_alive by exact Halive. reflexivity. }
  rewrite Htake. simpl.
  assert (Hroom' : getRoom (Player.currentLocation (player g)) (taken item r' g)
                   = Some r').
  { unfold getRoom. simpl. apply lookup_insert_eq. }
  split; [reflexivity|]. split; [|split; [reflexivity|split]].
  - exists r'. repeat split; try assumption. apply Hshrink.
  - intros Hin. destruct (stable_inventory g Hst) as [_ Hall].
    destruct (Hall item Hin) as [_ Hout]. exact (Hout _ _ Hr Hitem).
  - intros randoms2 command2 Ha2 Htarget2.
    assert (Hover' : isGameOver (taken item r' g) = false) by exact Hover.
    rewrite processCommand_unfold by exact Hover'.
    rewrite (dispatch_take _ _ _ Ha2 (Hnonempty _ Htarget2)).
    rewrite (Player_take_absent _ _ r' Hroom').
    { simpl. rewrite checkGameConditions_alive by exact Halive. reflexivity. }
    intros i Hi.
    assert (Hir : i ∈ Room.items r).
    { rewrite Hperm. right. exact Hi. }
    assert (Hne : i <> item) by (intros ->; exact (Hgone Hi)).
    pose proof (room_item_placed _ _ r i Hrooms Hr Hir) as Hpi.
    split.
    + destruct (seq (Item.id i) (target command2)) eqn:Hp; [|reflexivity].
      exfalso. apply Hne. apply seq_eq in Hp.
      apply (room_item_unique g r item Hrooms Hr Hitem i Hir).
      unfold itemsClash.
      destruct Htarget2 as [Ht2|Ht2]; rewrite Ht2 in Hp; rewrite Hp;
        unfold seq; rewrite String.eqb_refl, ?orb_true_r; reflexivity.
    + destruct (seq (toLowerCase (Item.name i))
                    (toLowerCase (target command2))) eqn:Hp; [|reflexivity].
      exfalso. apply Hne. apply seq_eq in Hp.
      destruct Htarget2 as [Ht2|Ht2]; rewrite Ht2 in Hp.
      * rewrite Hlow in Hp. symmetry.
        apply (placedItems_distinct _ _ _ _ Hplaced Hpi).
        unfold itemsClash. rewrite Hp. unfold seq.
        rewrite String.eqb_refl, ?orb_true_r. reflexivity.
      * rewrite toLowerCase_idem in Hp.
        apply (room_item_unique g r item Hrooms Hr Hitem i Hir).
        unfold itemsClash. rewrite Hp. unfold seq.
        rewrite String.eqb_refl, ?orb_true_r. reflexivity.
Qed.

(** ** Telling replies apart *)

Lemma length_append (a b : string) :
  String.length (a +:+ b) = (String.length a + String.length b)%nat.
Proof. induction a as [|c a IH]; simpl; [reflexivity|]. rewrite IH. reflexivity. Qed.

Lemma lastChars_app (n : nat) (a b : string) :
  (n <= String.length b)%nat -> lastChars n (a +:+ b) = lastChars n b.
Proof.
  intros Hn. induction a as [|c a IH]; simpl; [reflexivity|].
  rewrite length_append.
  destruct (Nat.leb_spec n (String.length a + String.length b)); [exact IH|lia].
Qed.

Lemma lastChars_app3 (n : nat) (a b c : string) :
  (n <= String.length c)%nat ->
  lastChars n (a +:+ b +:+ c) = lastChars n c.
Proof.
  intros Hn. rewrite lastChars_app.
  - apply lastChars_app, Hn.
  - rewrite length_append. lia.
Qed.

Lemma alreadyDead_not_gameOver (name : string) :
  gameOverMessage <> alreadyDead name.
Proof.
  intros H. apply (f_equal (lastChars 2)) in H.
  unfold alreadyDead in H. rewrite lastChars_app3 in H by (simpl; lia).
  vm_compute in H. discriminate H.
Qed.

Lemma alreadyDead_not_peaceful (name name' : string) :
  "The " +:+ name' +:+ " is not hostile and doesn't want to fight."
  <> alreadyDead name.
Proof.
  intros H. apply (f_equal (lastChars 2)) in H.
  unfold alreadyDead in H. rewrite !lastChars_app3 in H by (simpl; lia).
  vm_compute in H. discriminate H.
Qed.

Lemma alreadyDead_not_absent (name name' : string) :
  "There is no " +:+ name' +:+ " here." <> alreadyDead name.
Proof.
  intros H. apply (f_equal (String.get 3)) in H. vm_compute in H.
  discriminate H.
Qed.

Lemma alreadyDead_starts_with_T (name s : string) :
  String.get 0 s <> Some "T"%char -> s <> alreadyDead name.
Proof. intros Hs ->. apply Hs. reflexivity. Qed.

(** ** Creatures in rooms are alive (C4, C10) *)

Lemma isCase_attack (a : string) :
  isCase a ["attack"; "fight"; "hit"] = true ->
  a = "attack" \/ a = "fight" \/ a = "hit".
Proof.
  unfold isCase. simpl. rewrite orb_false_r. intros H.
  apply orb_true_iff in H as [H|H]; [apply seq_eq in H; auto|].
  apply orb_true_iff in H as [H|H]; apply seq_eq in H; auto.
Qed.

Lemma dispatch_attack (randoms : Q * Q) (command : string) (g : GameEngine.t) :
  isCase (action command) ["attack"; "fight"; "hit"] = true ->
  dispatch randoms command g
  = if seq (target command) "" then
      ("Attack what? Specify a creature name.", g)
    else Player_attack randoms (target command) g.
Proof.
  intros Ha. unfold dispatch.
  destruct (isCase_attack _ Ha) as [-> | [-> | ->]]; reflexivity.
Qed.

Lemma Player_attack_fight (randoms : Q * Q) (name : string) (g : GameEngine.t)
    (r : Room.t) (key : string) (c : Creature.t) :
  getRoom (Player.currentLocation (player g)) g = Some r ->
  Room.getCreatureByName (creatures g) name r = Some key ->
  creatures g !! key = Some c ->
  Creature.isAlive c = true -> Creature.isHostile c = true ->
  Player_attack randoms name g = fight randoms r key c g.
Proof.
  intros Hr Hkey Hc Halive Hhostile. unfold Player_attack, fight.
  rewrite Hr, Hkey, Hc, Halive, Hhostile. simpl.
  destruct (Creature.takeDamage (playerDamageRoll (fst randoms)) c)
    as [died c'] eqn:Htd. simpl.
  destruct died.
  - destruct (Room.removeCreature _ _ r) as [removed r']. reflexivity.
  - destruct (Creature_attack (snd randoms) c' (player g)) as [msg p'].
    reflexivity.
Qed.

Lemma fight_reply (randoms : Q * Q) (r : Room.t) (key : string)
    (c : Creature.t) (g : GameEngine.t) :
  String.get 0 (fst (fight randoms r key c g)) = Some "Y"%char.
Proof.
  unfold fight. destruct (fst (Creature.takeDamage _ c)); reflexivity.
Qed.

Lemma append_assoc (x y z : string) : (x +:+ y) +:+ z = x +:+ y +:+ z.
Proof.
  induction x as [|c x IH]; [reflexivity|].
  change (String c ((x +:+ y) +:+ z) = String c (x +:+ y +:+ z)).
  f_equal. exact IH.
Qed.

Lemma Creature_takeDamage_name (amount : Z) (c : Creature.t) :
  Creature.name (snd (Creature.takeDamage amount c)) = Creature.name c.
Proof.
  unfold Creature.takeDamage. destruct (_ <=? 0); reflexivity.
Qed.

(** C2. The damage the player deals, [Math.floor(Math.random() * 15) + 5],
    is an integer between 5 and 19: each of 5, ..., 19 is the roll of some
    value of [Math.random()], and no value of [Math.random()] rolls 20, the
    upper bound that the specification (and the comment of the source line)
    gives.
    An attack that reaches a living hostile creature of the current room
    deals exactly this roll and reports it. *)
Theorem C2_player_damage_is_5_to_19 :
  (forall r : Q, validRandom r ->
     5 <= playerDamageRoll r <= 19 /\ playerDamageRoll r <> 20)
  /\ (forall n : Z, 5 <= n <= 19 ->
        exists r : Q, validRandom r /\ playerDamageRoll r = n)
  /\ (forall (randoms : Q * Q) (name : string) (g : GameEngine.t)
             (r : Room.t) (key : string) (c : Creature.t),
        getRoom (Player.currentLocation (player g)) g = Some r ->
        Room.getCreatureByName (creatures g) name r = Some key ->
        creatures g !! key = Some c ->
        Creature.isAlive c = true -> Creature.isHostile c = true ->
        creatures (snd (Player_attack randoms name g)) !! key
        = Some (snd (Creature.takeDamage (playerDamageRoll (fst randoms)) c))
        /\ exists rest : string,
             fst (Player_attack randoms name g)
             = "You attack the " +:+ Creature.name c +:+ " for "
               +:+ ofNumber (playerDamageRoll (fst randoms)) +:+ " damage!"
               +:+ rest).
Proof.
  split; [|split].
  - intros r Hr. pose proof (playerDamageRoll_range r Hr). lia.
  - intros n Hn. exists (n - 5 # 15). apply playerDamageRoll_attained, Hn.
  - intros randoms name g r key c Hr Hkey Hc Halive Hhostile.
    rewrite (Player_attack_fight _ _ _ r key c Hr Hkey Hc Halive Hhostile).
    unfold fight. rewrite Creature_takeDamage_name.
    destruct (fst (Creature.takeDamage _ c)); simpl fst; simpl snd.
    + split; [apply lookup_insert_eq|]. eexists.
      rewrite !append_assoc. reflexivity.
    + split; [apply lookup_insert_eq|]. eexists.
      rewrite !append_assoc. reflexivity.
Qed.

Lemma Player_attack_not_alreadyDead (randoms : Q * Q) (t name : string)
    (g : GameEngine.t) :
  stable g -> fst (Player_attack randoms t g) <> alreadyDead name.
Proof.
  intros Hst.
  destruct (Player_attack_cases randoms t g)
    as [(msg & -> & Hmsg)|(r & key & c & _ & _ & _ & _ & _ & ->)]; simpl.
  - destruct Hmsg as [->|[->|[->|[_ Hdead]]]].
    + apply alreadyDead_starts_with_T. discriminate.
    + apply alreadyDead_not_absent.
    + apply alreadyDead_not_peaceful.
    + exfalso. destruct Hdead as (r & key & c & Hr & Hkey & Hc & Hcdead).
      destruct (stable_alive g Hst _ _ _ Hr Hkey) as (cr & Hcr & Hcralive).
      congruence.
  - apply alreadyDead_starts_with_T. rewrite fight_reply. discriminate.
Qed.

Lemma createCreatures_names (k1 k2 : string) (c1 c2 : Creature.t) :
  createCreatures !! k1 = Some c1 -> createCreatures !! k2 = Some c2 ->
  toLowerCase (Creature.name c1) = toLowerCase (Creature.name c2) ->
  k1 = k2.
Proof.
  intros H1 H2.
  assert (Heq : map_to_list createCreatures
                = ltac:(let l := eval vm_compute in (map_to_list createCreatures)
                        in exact l)) by (vm_compute; reflexivity).
  apply elem_of_map_to_list in H1, H2. rewrite Heq in H1, H2.
  list_cases H1; injection H1 as -> ->;
    list_cases H2; injection H2 as -> ->;
    vm_compute; intros Hn; first [reflexivity|discriminate Hn].
Qed.

Lemma createCreatures_name_nonempty (k : string) (c0 : Creature.t) :
  createCreatures !! k = Some c0 -> toLowerCase (Creature.name c0) <> "".
Proof.
  intros H.
  assert (Heq : map_to_list createCreatures
                = ltac:(let l := eval vm_compute in (map_to_list createCreatures)
                        in exact l)) by (vm_compute; reflexivity).
  apply elem_of_map_to_list in H. rewrite Heq in H.
  list_cases H; injection H as -> ->; vm_compute; discriminate.
Qed.

(** C10. In every reachable state each creature that a room contains is in
    the store with [isAlive] true; so no attack command is ever answered
    with the already-dead reply, whatever the name, and an attack on a
    creature that has been killed is answered as for a creature that is not
    there. *)
Theorem C10_rooms_hold_only_living_creatures :
  forall g : GameEngine.t,
    reachable g ->
    (forall (k : string) (r : Room.t) (key : string),
       rooms g !! k = Some r -> key ∈ Room.creatures r ->
       exists c : Creature.t,
         creatures g !! key = Some c /\ Creature.isAlive c = true)
    /\ (forall (randoms : Q * Q) (command name : string),
          isCase (action command) ["attack"; "fight"; "hit"] = true ->
          fst (processCommand randoms command g)
          <> "The " +:+ name +:+ " is already dead.")
    /\ (forall (randoms : Q * Q) (command : string) (r : Room.t)
               (key : string) (c : Creature.t),
          isGameOver g = false ->
          isCase (action command) ["attack"; "fight"; "hit"] = true ->
          getRoom (Player.currentLocation (player g)) g = Some r ->
          creatures g !! key = Some c ->
          Creature.isAlive c = false ->
          target command = toLowerCase (Creature.name c) ->
          processCommand randoms command g
          = ("There is no " +:+ target command +:+ " here.", g)).
Proof.
  intros g Hg. pose proof (reachable_invariant g Hg) as Hinv.
  pose proof Hinv as [Hst _].
  split; [exact (stable_alive g Hst)|]. split.
  - intros randoms command name Ha.
    change (fst (processCommand randoms command g) <> alreadyDead name).
    destruct (isGameOver g) eqn:Hover.
    + rewrite processCommand_gameOver by exact Hover. simpl.
      apply alreadyDead_not_gameOver.
    + rewrite processCommand_unfold by exact Hover. simpl.
      rewrite (dispatch_attack _ _ _ Ha).
      destruct (seq (target command) ""); simpl.
      * apply alreadyDead_starts_with_T. discriminate.
      * apply Player_attack_not_alreadyDead, Hst.
  - intros randoms command r key c Hover Ha Hr Hc Hdead Htarget.
    pose proof (invariant_alive g Hinv Hover) as Halive.
    pose proof (stable_creatures g Hst) as Hcs.
    destruct (Hcs key c Hc) as (c0 & Hc0 & Hfrom).
    assert (Hne : target command <> "").
    { rewrite Htarget. destruct Hfrom as (_ & -> & _).
      exact (createCreatures_name_nonempty key c0 Hc0). }
    rewrite processCommand_unfold by exact Hover.
    rewrite (dispatch_attack _ _ _ Ha).
    apply seq_neq in Hne. rewrite Hne.
    unfold Player_attack. rewrite Hr.
    assert (Hfind : Room.getCreatureByName (creatures g) (target command) r
                    = None).
    { apply find_all_false. intros k Hk. unfold Room.hasName.
      unfold getRoom in Hr.
      destruct (stable_alive g Hst _ _ _ Hr Hk) as (ck & Hck & Hckalive).
      rewrite Hck. apply seq_neq. intros Hname.
      rewrite Htarget, toLowerCase_idem in Hname.
      destruct (Hcs k ck Hck) as (ck0 & Hck0 & Hfromk).
      assert (k = key).
      { apply (createCreatures_names k key ck0 c0 Hck0 Hc0).
        destruct Hfrom as (_ & <- & _). destruct Hfromk as (_ & <- & _).
        exact Hname. }
      subst k. congruence. }
    rewrite Hfind. simpl.
    rewrite checkGameConditions_alive by exact Halive. reflexivity.
Qed.

Lemma checkGameConditions_world (g : GameEngine.t) :
  rooms (checkGameConditions g) = rooms g
  /\ creatures (checkGameConditions g) = creatures g
  /\ Player.currentLocation (player (checkGameConditions g))
     = Player.currentLocation (player g).
Proof.
  unfold checkGameConditions. destruct (negb _); repeat split.
Qed.

(** C4. In every reachable state each creature of the store has its health
    between 0 and [maxHealth] and [isAlive] equal to (health > 0), and the
    creatures that rooms contain have positive health.  An attack that
    reaches a hostile creature of the current room leaves it with the health
    lowered by the roll and clamped at 0, [maxHealth] unchanged and [isAlive]
    equal to (health > 0); when the health reaches 0 the creature is in no
    room afterwards, otherwise it stays in the current room. *)
Theorem C4_creature_health_and_removal :
  forall g : GameEngine.t,
    reachable g ->
    (forall (key : string) (c : Creature.t),
       creatures g !! key = Some c ->
       0 <= Creature.health c <= Creature.maxHealth c
       /\ Creature.isAlive c = (0 <? Creature.health c))
    /\ (forall (k : string) (r : Room.t) (key : string) (c : Creature.t),
          rooms g !! k = Some r -> key ∈ Room.creatures r ->
          creatures g !! key = Some c ->
          0 < Creature.health c /\ Creature.isAlive c = true)
    /\ (forall (randoms : Q * Q) (command : string) (r : Room.t)
               (key : string) (c : Creature.t),
          validRandoms randoms ->
          isGameOver g = false ->
          isCase (action command) ["attack"; "fight"; "hit"] = true ->
          target command <> "" ->
          getRoom (Player.currentLocation (player g)) g = Some r ->
          Room.getCreatureByName (creatures g) (target command) r = Some key ->
          creatures g !! key = Some c ->
          Creature.isHostile c = true ->
          exists c' : Creature.t,
            creatures (snd (processCommand randoms command g)) !! key = Some c'
            /\ Creature.health c'
               = Z.max 0 (Creature.health c - playerDamageRoll (fst randoms))
            /\ Creature.maxHealth c' = Creature.maxHealth c
            /\ Creature.isAlive c' = (0 <? Creature.health c')
            /\ (Creature.health c' = 0 ->
                forall (k : string) (r' : Room.t),
                  rooms (snd (processCommand randoms command g)) !! k = Some r' ->
                  key ∉ Room.creatures r')
            /\ (0 < Creature.health c' ->
                getRoom (Player.currentLocation (player g))
                        (snd (processCommand randoms command g)) = Some r)).
Proof.
  intros g Hg. pose proof (reachable_invariant g Hg) as Hinv.
  pose proof Hinv as [Hst _].
  pose proof (stable_creatures g Hst) as Hcs.
  assert (Hstore : forall key c, creatures g !! key = Some c ->
            0 <= Creature.health c <= Creature.maxHealth c
            /\ Creature.isAlive c = (0 <? Creature.health c)).
  { intros key c Hc. destruct (Hcs key c Hc) as (c0 & _ & Hfrom).
    destruct Hfrom as (_ & _ & _ & _ & _ & _ & Hrange & Hflag). by split. }
  split; [exact Hstore|]. split.
  - intros k r key c Hr Hkey Hc.
    destruct (stable_alive g Hst _ _ _ Hr Hkey) as (cr & Hcr & Hcralive).
    assert (cr = c) as -> by congruence.
    split; [|exact Hcralive].
    destruct (Hstore key c Hc) as [_ Hflag]. rewrite Hcralive in Hflag.
    symmetry in Hflag. by apply Z.ltb_lt in Hflag.
  - intros randoms command r key c Hrandoms Hover Ha Ht Hr Hkey Hc Hhostile.
    pose proof (reachable_step g randoms command Hg Hrandoms) as Hg'.
    pose proof (reachable_invariant _ Hg') as [Hst' _].
    pose proof (getCreatureByName_Some _ _ _ _ Hkey) as [Hin _].
    pose proof Hr as Hr0. unfold getRoom in Hr0.
    destruct (stable_alive g Hst _ _ _ Hr0 Hin) as (cr & Hcr & Hcalive).
    assert (cr = c) as -> by congruence.
    destruct (Hcs key c Hc) as (c0 & _ & Hfrom).
    pose proof (playerDamageRoll_range _ (proj1 Hrandoms)) as Hroll.
    assert (Hroll0 : 0 <= playerDamageRoll (fst randoms)) by lia.
    destruct (Creature_takeDamage_from _ c0 c Hroll0 Hfrom Hcalive)
      as (Hfrom' & Hdied & Hhealth).
    assert (Hstep : snd (processCommand randoms command g)
              = checkGameConditions (snd (fight randoms r key c g))).
    { rewrite processCommand_unfold by exact Hover. simpl.
      rewrite (dispatch_attack _ _ _ Ha). apply seq_neq in Ht. rewrite Ht.
      rewrite (Player_attack_fight _ _ _ r key c); try assumption.
      reflexivity. }
    set (c' := snd (Creature.takeDamage (playerDamageRoll (fst randoms)) c))
      in *.
    assert (Hc' : creatures (snd (processCommand randoms command g)) !! key
                  = Some c').
    { rewrite Hstep.
      destruct (checkGameConditions_world (snd (fight randoms r key c g)))
        as (_ & -> & _).
      unfold fight. fold c'.
      destruct (fst (Creature.takeDamage _ c)); simpl; apply lookup_insert_eq. }
    exists c'. split; [exact Hc'|]. split; [exact Hhealth|].
    destruct Hfrom' as (_ & _ & _ & Hmax' & _ & _ & _ & Hflag').
    destruct Hfrom as (_ & _ & _ & Hmax & _).
    split; [congruence|]. split; [exact Hflag'|]. split.
    + intros Hzero k r' Hr' Hin'.
      destruct (stable_alive _ Hst' _ _ _ Hr' Hin') as (cr' & Hcr' & Hcralive).
      assert (cr' = c') as -> by congruence.
      rewrite Hflag', Hzero in Hcralive. discriminate Hcralive.
    + intros Hpos. rewrite Hstep. unfold getRoom.
      destruct (checkGameConditions_world (snd (fight randoms r key c g)))
        as (-> & _ & _).
      assert (Hsurvived :
        fst (Creature.takeDamage (playerDamageRoll (fst randoms)) c) = false).
      { rewrite Hdied. fold c'. rewrite Hflag'.
        apply negb_false_iff, Z.ltb_lt, Hpos. }
      unfold fight. rewrite Hsurvived. simpl. exact Hr0.
Qed.

(** ** Inputs that are not understood (C9) *)

Lemma hd_split (s : string) : hd "" (split " " s) = untilSpace s.
Proof.
  induction s as [|c s IH]; simpl; [reflexivity|].
  destruct (Ascii.eqb c " "); [reflexivity|].
  rewrite <- IH. destruct (split " " s); reflexivity.
Qed.

Lemma untilSpace_lower (s : string) :
  untilSpace (toLowerCase s) = toLowerCase (untilSpace s).
Proof.
  induction s as [|c s IH]; simpl; [reflexivity|].
  rewrite lowerChar_space. destruct (Ascii.eqb c " "); [reflexivity|].
  simpl. rewrite IH. reflexivity.
Qed.

Lemma hasWhite_lower (s : string) : hasWhite (toLowerCase s) = hasWhite s.
Proof.
  induction s as [|c s IH]; simpl; [reflexivity|].
  rewrite lowerChar_isWhite, IH. reflexivity.
Qed.

Lemma untilSpace_untilWhite (s : string) :
  hasWhite (untilSpace s) = false -> untilSpace s = untilWhite s.
Proof.
  induction s as [|c s IH]; simpl; [reflexivity|].
  destruct (Ascii.eqb_spec c " ") as [->|Hne]; [reflexivity|].
  simpl. intros H. apply orb_false_iff in H as [Hc Hs].
  rewrite Hc, (IH Hs). reflexivity.
Qed.

Lemma untilWhite_trimEnd (s : string) : untilWhite (trimEnd s) = untilWhite s.
Proof.
  induction s as [|c s IH]; simpl; [reflexivity|].
  destruct (isWhite c) eqn:Hc.
  - destruct (trimEnd s); simpl; rewrite ?Hc; reflexivity.
  - rewrite <- IH. destruct (trimEnd s); simpl; rewrite Hc; reflexivity.
Qed.

Lemma isVerb_hasWhite (a : string) : isVerb a = true -> hasWhite a = false.
Proof.
  unfold isVerb. intros H. apply existsb_exists in H as (w & Hw & Heq).
  apply seq_eq in Heq. subst w. apply list_elem_of_In in Hw.
  unfold vocabulary in Hw. list_cases Hw; subst a; reflexivity.
Qed.

(** The verb that [processCommand] reads is, when it is in the vocabulary,
    the first token of the input in lower case. *)
Lemma action_firstToken (command : string) :
  isVerb (action command) = true ->
  action command = toLowerCase (firstToken command).
Proof.
  intros Hverb. pose proof (isVerb_hasWhite _ Hverb) as Hwhite.
  unfold action, parts in *. rewrite hd_split, untilSpace_lower in *.
  rewrite hasWhite_lower in Hwhite.
  rewrite (untilSpace_untilWhite _ Hwhite). unfold trim, firstToken.
  rewrite untilWhite_trimEnd. reflexivity.
Qed.

Lemma inVocabulary_action (command : string) :
  inVocabulary (firstToken command) = false -> isVerb (action command) = false.
Proof.
  intros H. destruct (isVerb (action command)) eqn:Hverb; [|reflexivity].
  pose proof (action_firstToken _ Hverb) as Heq. rewrite Heq in Hverb.
  unfold inVocabulary in H. rewrite H in Hverb. discriminate Hverb.
Qed.

Lemma existsb_false {A : Type} (f : A -> bool) (l : list A) :
  existsb f l = false -> Forall (fun x => f x = false) l.
Proof.
  induction l as [|x l IH]; simpl; intros H; constructor.
  - apply orb_false_iff in H. apply H.
  - apply IH. apply orb_false_iff in H. apply H.
Qed.

Lemma dispatch_not_understood (randoms : Q * Q) (command : string)
    (g : GameEngine.t) :
  isVerb (action command) = false ->
  dispatch randoms command g = (notUnderstood command, g).
Proof.
  intros H. apply existsb_false in H. unfold vocabulary in H.
  repeat match goal with
         | Hx : Forall _ (_ :: _) |- _ =>
             apply Forall_cons in Hx as [? Hx]
         end.
  unfold dispatch, isCase. cbn [existsb].
  repeat match goal with
         | Hx : seq (action command) _ = false |- _ => rewrite Hx; clear Hx
         end.
  reflexivity.
Qed.

(** C9, as stated, fails: the reply quotes the input, so two inputs that are
    not understood are answered differently. *)
Lemma C9_reply_is_not_fixed : ~ notUnderstoodIsFixed.
Proof.
  intros [msg H].
  pose proof (H initializeGame (0, 0)%Q "xyzzy" reachable_init eq_refl) as H1.
  pose proof (H initializeGame (0, 0)%Q "plugh" reachable_init eq_refl) as H2.
  apply (f_equal fst) in H1, H2. vm_compute in H1, H2.
  rewrite <- H1 in H2. discriminate H2.
Qed.

(** C9, amended. In a reachable state in which the game goes on, every input
    of characters below U+0080 whose first white-space-delimited token is
    not in the vocabulary, the empty input included, is answered by the
    not-understood message, which quotes the input as typed, and leaves the
    whole engine unchanged; no error is raised.  (An input with a character
    above U+007F is not covered: there [trim] and [toLowerCase] of JS do
    more than the token shows, and the engine can read a verb of the
    vocabulary off such an input.) *)
Theorem C9_unknown_verb_is_not_understood :
  forall (g : GameEngine.t) (randoms : Q * Q) (command : string),
    reachable g ->
    isGameOver g = false ->
    isAscii command = true ->
    inVocabulary (firstToken command) = false ->
    processCommand randoms command g
    = ("I don't understand '" +:+ command
       +:+ "'. Type 'help' for available commands.", g).
Proof.
  intros g randoms command Hg Hover _ Hvoc.
  pose proof (invariant_alive g (reachable_invariant g Hg) Hover) as Halive.
  rewrite processCommand_unfold by exact Hover.
  rewrite (dispatch_not_understood _ _ _ (inVocabulary_action _ Hvoc)).
  unfold notUnderstood. cbn [fst snd].
  rewrite checkGameConditions_alive by exact Halive. reflexivity.
Qed.

(** * Concrete runs and instances *)

Lemma validRandoms_lowRolls : validRandoms lowRolls.
Proof. repeat split; unfold Qle, Qlt; simpl; lia. Qed.

Lemma validRandoms_highRolls : validRandoms highRolls.
Proof. repeat split; unfold Qle, Qlt; simpl; lia. Qed.

Lemma validRandoms_mixedRolls : validRandoms mixedRolls.
Proof. repeat split; unfold Qle, Qlt; simpl; lia. Qed.

Lemma reachable_atPeak : reachable atPeak.
Proof.
  apply reachable_processCommands; [exact reachable_init|].
  repeat (constructor; [exact validRandoms_lowRolls|]). constructor.
Defined.

Lemma reachable_wounded : reachable wounded.
Proof.
  apply reachable_processCommands; [exact reachable_init|].
  repeat (constructor;
          [first [exact validRandoms_lowRolls|exact validRandoms_mixedRolls]|]).
  constructor.
Defined.

Lemma reachable_xenomorphWeak : reachable xenomorphWeak.
Proof.
  apply reachable_processCommands; [exact reachable_init|].
  repeat (constructor;
          [first [exact validRandoms_lowRolls|exact validRandoms_highRolls]|]).
  constructor.
Defined.

Lemma reachable_xenomorphDead : reachable xenomorphDead.
Proof.
  apply reachable_step; [exact reachable_xenomorphWeak|].
  exact validRandoms_highRolls.
Defined.

Example playerDead_state :
  Player.health (player playerDead) = 0
  /\ Player.isAlive (player playerDead) = false
  /\ isGameOver playerDead = true /\ isWin playerDead = false.
Proof. vm_compute. repeat split. Qed.

Example wounded_state :
  Player.health (player wounded) = 90
  /\ Player.maxHealth (player wounded) = 100
  /\ map Item.id (Player.inventory (player wounded)) = ["medkit"].
Proof. vm_compute. repeat split. Qed.

(** Once the game is over, an input that is not understood is answered like
    any other. *)
Example unknown_verb_after_gameOver :
  inVocabulary (firstToken "xyzzy") = false
  /\ processCommand lowRolls "xyzzy" playerDead
     = ("The game is over. Refresh the page to play again.", playerDead).
Proof. split; vm_compute; reflexivity. Qed.

(** The empty input is not understood either. *)
Example empty_input_is_not_understood :
  isAscii "" = true
  /\ inVocabulary (firstToken "") = false
  /\ processCommand lowRolls "" initializeGame
     = ("I don't understand ''. Type 'help' for available commands.",
        initializeGame).
Proof. repeat split; vm_compute; reflexivity. Qed.

Example attack_rolls_19_at_most :
  fst (processCommand highRolls "attack xenomorph"
         (snd (processCommand lowRolls "go north" initializeGame)))
  = "You attack the Xenomorph for 19 damage!" +:+ nl
    +:+ "Xenomorph attacks you for 15 damage!".
Proof. vm_compute. reflexivity. Qed.

Lemma C1_witness :
  reachable atPeak
  /\ isWin atPeak = false
  /\ isWin (snd (processCommand lowRolls "use beacon" atPeak)) = true
  /\ isGameOver (snd (processCommand lowRolls "use beacon" atPeak)) = true
  /\ fst (processCommand lowRolls "use beacon" atPeak) = victoryText.
Proof.
  assert (Hwin : isWin atPeak = false) by (vm_compute; reflexivity).
  pose proof (C1_win_iff_beacon_used_at_peak_with_battery
                atPeak lowRolls "use beacon" reachable_atPeak Hwin)
    as [Hiff Hthen].
  assert (Hset : isWin (snd (processCommand lowRolls "use beacon" atPeak)) = true).
  { apply Hiff. split; [|split].
    - exists (itemOf "beacon"). split; [|reflexivity].
      split; [vm_compute; reflexivity|].
      split; [vm_compute; discriminate|vm_compute; reflexivity].
    - vm_compute. reflexivity.
    - apply hasItem_elem. vm_compute. reflexivity. }
  split; [exact reachable_atPeak|]. split; [exact Hwin|].
  split; [exact Hset|]. exact (Hthen Hset).
Defined.

Lemma C2_witness :
  validRandom (14 # 15)
  /\ 5 <= playerDamageRoll (14 # 15) <= 19
  /\ playerDamageRoll (14 # 15) <> 20.
Proof.
  assert (Hvalid : validRandom (14 # 15)).
  { split; unfold Qle, Qlt; simpl; lia. }
  split; [exact Hvalid|].
  exact (proj1 C2_player_damage_is_5_to_19 (14 # 15)%Q Hvalid).
Defined.

Lemma C3_witness :
  reachable wounded
  /\ isGameOver wounded = false
  /\ usesItem "use medkit" wounded (itemOf "medkit")
  /\ Player.health (player wounded) = 90
  /\ Player.maxHealth (player wounded) = 100
  /\ Player.health (player (snd (processCommand lowRolls "use medkit" wounded)))
     = 100.
Proof.
  assert (Hover : isGameOver wounded = false) by (vm_compute; reflexivity).
  assert (Huses : usesItem "use medkit" wounded (itemOf "medkit")).
  { split; [vm_compute; reflexivity|].
    split; [vm_compute; discriminate|vm_compute; reflexivity]. }
  assert (H90 : Player.health (player wounded) = 90) by (vm_compute; reflexivity).
  assert (H100 : Player.maxHealth (player wounded) = 100)
    by (vm_compute; reflexivity).
  repeat (split; [assumption || exact reachable_wounded|]).
  destruct (C3_player_health_bounds wounded reachable_wounded)
    as (_ & _ & _ & Hmedkit).
  destruct (Hmedkit lowRolls "use medkit" (itemOf "medkit") Hover Huses eq_refl)
    as [_ Hclamp].
  exact (Hclamp H90 H100).
Defined.

Lemma C4_witness :
  reachable xenomorphWeak
  /\ validRandoms highRolls
  /\ Creature.health (creatureOf "xenomorph" xenomorphWeak) = 12
  /\ exists c' : Creature.t,
       creatures xenomorphDead !! "xenomorph" = Some c'
       /\ Creature.health c' = 0
       /\ Creature.isAlive c' = false
       /\ forall (k : string) (r' : Room.t),
            rooms xenomorphDead !! k = Some r' ->
            "xenomorph" ∉ Room.creatures r'.
Proof.
  split; [exact reachable_xenomorphWeak|].
  split; [exact validRandoms_highRolls|].
  split; [vm_compute; reflexivity|].
  destruct (C4_creature_health_and_removal xenomorphWeak reachable_xenomorphWeak)
    as (_ & _ & Hattack).
  destruct (Hattack highRolls "fight xenomorph"
              (roomOf "alien_forest" xenomorphWeak) "xenomorph"
              (creatureOf "xenomorph" xenomorphWeak))
    as (c' & Hc' & Hhealth & _ & Hflag & Hgone & _).
  - exact validRandoms_highRolls.
  - vm_compute. reflexivity.
  - vm_compute. reflexivity.
  - vm_compute. discriminate.
  - vm_compute. reflexivity.
  - vm_compute. reflexivity.
  - vm_compute. reflexivity.
  - vm_compute. reflexivity.
  - assert (Hzero : Creature.health c' = 0).
    { rewrite Hhealth. vm_compute. reflexivity. }
    exists c'. split; [exact Hc'|]. split; [exact Hzero|].
    split; [rewrite Hflag, Hzero; reflexivity|]. exact (Hgone Hzero).
Defined.

Lemma C5_witness :
  isGameOver playerDead = true
  /\ processCommands [(lowRolls, "go north"); (lowRolls, "use medkit")] playerDead
     = (["The game is over. Refresh the page to play again.";
         "The game is over. Refresh the page to play again."], playerDead).
Proof.
  assert (Hover : isGameOver playerDead = true) by (vm_compute; reflexivity).
  split; [exact Hover|].
  exact (proj1 (C5_gameOver_is_terminal
                  [(lowRolls, "go north"); (lowRolls, "use medkit")]
                  playerDead Hover)).
Defined.

Lemma C6_witness :
  rooms initializeGame !! "crash_site"
  = Some (roomOf "crash_site" initializeGame)
  /\ ownProperty "north" (Room.exits (roomOf "crash_site" initializeGame))
     = Some "alien_forest"
  /\ exists rb : Room.t,
       rooms initializeGame !! "alien_forest" = Some rb
       /\ ownProperty "south" (Room.exits rb) = Some "crash_site".
Proof.
  assert (Ha : rooms initializeGame !! "crash_site"
               = Some (roomOf "crash_site" initializeGame))
    by (vm_compute; reflexivity).
  assert (Hd : ownProperty "north"
                 (Room.exits (roomOf "crash_site" initializeGame))
               = Some "alien_forest") by (vm_compute; reflexivity).
  split; [exact Ha|]. split; [exact Hd|].
  destruct (C6_exits_reverse_except_three "crash_site" _ "north" "alien_forest"
              Ha Hd) as [_ Hrev].
  apply Hrev. reflexivity.
Defined.

Lemma C7_witness :
  reachable initializeGame
  /\ isGameOver initializeGame = false
  /\ ownProperty (target "go north")
       (Room.exits (roomOf "crash_site" initializeGame)) = Some "alien_forest"
  /\ processCommand lowRolls "look"
       (snd (processCommand lowRolls "go north" initializeGame))
     = (fst (processCommand lowRolls "go north" initializeGame),
        snd (processCommand lowRolls "go north" initializeGame)).
Proof.
  assert (Hover : isGameOver initializeGame = false)
    by (vm_compute; reflexivity).
  assert (Hexit : ownProperty (target "go north")
                    (Room.exits (roomOf "crash_site" initializeGame))
                  = Some "alien_forest") by (vm_compute; reflexivity).
  split; [exact reachable_init|]. split; [exact Hover|]. split; [exact Hexit|].
  destruct (C7_look_repeats_move_description initializeGame lowRolls "go north"
              (roomOf "crash_site" initializeGame) "alien_forest"
              reachable_init Hover) as [_ Hlook].
  - vm_compute. reflexivity.
  - vm_compute. reflexivity.
  - exact Hexit.
  - apply Hlook. vm_compute. reflexivity.
Defined.

Lemma C8_witness :
  reachable initializeGame
  /\ isGameOver initializeGame = false
  /\ itemOf "flashlight" ∈ Room.items (roomOf "crash_site" initializeGame)
  /\ fst (processCommand lowRolls "take flashlight" initializeGame)
     = "You take the Flashlight."
  /\ processCommand lowRolls "get Flashlight"
       (snd (processCommand lowRolls "take flashlight" initializeGame))
     = ("There is no flashlight here.",
        snd (processCommand lowRolls "take flashlight" initializeGame)).
Proof.
  assert (Hover : isGameOver initializeGame = false)
    by (vm_compute; reflexivity).
  assert (Hin : itemOf "flashlight"
                ∈ Room.items (roomOf "crash_site" initializeGame)).
  { apply list_elem_of_In. vm_compute. left. reflexivity. }
  split; [exact reachable_init|]. split; [exact Hover|]. split; [exact Hin|].
  destruct (C8_take_then_take_again initializeGame lowRolls "take flashlight"
              (roomOf "crash_site" initializeGame) (itemOf "flashlight")
              reachable_init Hover)
    as (Hreply & _ & _ & _ & Hagain).
  - vm_compute. reflexivity.
  - vm_compute. reflexivity.
  - exact Hin.
  - left. vm_compute. reflexivity.
  - split; [exact Hreply|].
    apply (Hagain lowRolls "get Flashlight").
    + vm_compute. reflexivity.
    + left. vm_compute. reflexivity.
Defined.

Lemma C9_witness :
  reachable wounded
  /\ isGameOver wounded = false
  /\ isAscii "  Dance with the xenomorph " = true
  /\ inVocabulary (firstToken "  Dance with the xenomorph ") = false
  /\ processCommand lowRolls "  Dance with the xenomorph " wounded
     = ("I don't understand '  Dance with the xenomorph '. Type 'help' for available commands.",
        wounded).
Proof.
  assert (Hover : isGameOver wounded = false) by (vm_compute; reflexivity).
  split; [exact reachable_wounded|]. split; [exact Hover|].
  split; [reflexivity|]. split; [reflexivity|].
  exact (C9_unknown_verb_is_not_understood wounded lowRolls
           "  Dance with the xenomorph " reachable_wounded Hover eq_refl
           eq_refl).
Defined.

Lemma C10_witness :
  reachable xenomorphDead
  /\ isGameOver xenomorphDead = false
  /\ Creature.isAlive (creatureOf "xenomorph" xenomorphDead) = false
  /\ processCommand highRolls "attack Xenomorph" xenomorphDead
     = ("There is no xenomorph here.", xenomorphDead).
Proof.
  assert (Hover : isGameOver xenomorphDead = false)
    by (vm_compute; reflexivity).
  assert (Hdead : Creature.isAlive (creatureOf "xenomorph" xenomorphDead)
                  = false) by (vm_compute; reflexivity).
  split; [exact reachable_xenomorphDead|]. split; [exact Hover|].
  split; [exact Hdead|].
  destruct (C10_rooms_hold_only_living_creatures xenomorphDead
              reachable_xenomorphDead) as (_ & _ & Habsent).
  apply (Habsent highRolls "attack Xenomorph"
           (roomOf "alien_forest" xenomorphDead) "xenomorph"
           (creatureOf "xenomorph" xenomorphDead) Hover).
  - vm_compute. reflexivity.
  - vm_compute. reflexivity.
  - vm_compute. reflexivity.
  - exact Hdead.
  - vm_compute. reflexivity.
Defined.

(** * Further properties of the engine *)

(** ** Reading the verb and the argument *)

Lemma split_nonempty (sep : ascii) (s : string) : split sep s <> [].
Proof.
  destruct s as [|c s]; simpl; [discriminate|].
  destruct (Ascii.eqb c sep); [discriminate|].
  destruct (split sep s); discriminate.
Qed.

Lemma join_cons (w : string) (ws : list string) :
  ws <> [] -> join " " (w :: ws) = w +:+ " " +:+ join " " ws.
Proof. destruct ws; [congruence|reflexivity]. Qed.

Lemma join_split (s : string) : join " " (split " " s) = s.
Proof.
  induction s as [|c s IH]; [reflexivity|]. simpl.
  destruct (Ascii.eqb_spec c " ") as [->|Hne].
  - rewrite join_cons by apply split_nonempty. rewrite IH. reflexivity.
  - pose proof (split_nonempty " " s) as Hs.
    destruct (split " " s) as [|w ws]; [congruence|].
    destruct ws as [|w' ws'].
    + simpl in *. congruence.
    + change (join " " (String c w :: w' :: ws'))
        with (String c (w +:+ " " +:+ join " " (w' :: ws'))).
      change (join " " (w :: w' :: ws'))
        with (w +:+ " " +:+ join " " (w' :: ws')) in IH.
      rewrite IH. reflexivity.
Qed.

Lemma parts_cons (command : string) :
  parts command = action command :: tl (parts command).
Proof.
  unfold action, parts. pose proof (split_nonempty " " (toLowerCase (trim command))).
  destruct (split " " (toLowerCase (trim command))); [congruence|reflexivity].
Qed.

(** X1. The verb that [processCommand] reads is the lower-cased, trimmed
    input up to its first space, and the argument is everything after that
    space, further spaces included: the verb alone, or the verb, one space
    and the argument, give back the lower-cased, trimmed input. *)
Theorem X1_verb_and_argument_recompose :
  forall command : string,
    action command = untilSpace (toLowerCase (trim command))
    /\ (toLowerCase (trim command) = action command /\ target command = ""
        \/ toLowerCase (trim command)
           = action command +:+ " " +:+ target command).
Proof.
  intros command. split; [apply hd_split|].
  pose proof (join_split (toLowerCase (trim command))) as Hjoin.
  fold (parts command) in Hjoin. rewrite parts_cons in Hjoin.
  unfold target. destruct (tl (parts command)) as [|w ws] eqn:Htl.
  - left. split; [symmetry; exact Hjoin|reflexivity].
  - right. rewrite join_cons in Hjoin by discriminate. symmetry. exact Hjoin.
Qed.

(** ** What a command depends on *)

Lemma vocabulary_groups : vocabulary = concat verbGroups.
Proof. reflexivity. Qed.

Lemma isVerb_groups (a : string) :
  isVerb a = true <-> exists group, group ∈ verbGroups /\ isCase a group = true.
Proof.
  unfold isVerb, isCase. rewrite vocabulary_groups. split.
  - intros H. apply existsb_exists in H as (w & Hw & Hseq).
    apply in_concat in Hw as (group & Hgroup & Hin).
    exists group. split; [by apply list_elem_of_In|].
    apply existsb_exists. eauto.
  - intros (group & Hgroup & H). apply existsb_exists in H as (w & Hw & Hseq).
    apply existsb_exists. exists w. split; [|exact Hseq].
    apply in_concat. exists group. split; [by apply list_elem_of_In|exact Hw].
Qed.

(** Each branch of the [switch], by its labels. *)
Lemma dispatch_go (randoms : Q * Q) (command : string) (g : GameEngine.t) :
  isCase (action command) ["go"; "move"; "walk"] = true ->
  dispatch randoms command g
  = if seq (target command) "" then
      ("Go where? Specify a direction (north, south, east, west).", g)
    else Player_move (target command) g.
Proof. intros Ha. unfold dispatch. rewrite Ha. reflexivity. Qed.

Lemma dispatch_get (randoms : Q * Q) (command : string) (g : GameEngine.t) :
  isCase (action command) ["take"; "get"] = true ->
  dispatch randoms command g
  = if seq (target command) "" then ("Take what? Specify an item name.", g)
    else Player_take (target command) g.
Proof.
  intros Ha. unfold dispatch.
  destruct (isCase_take _ Ha) as [-> | ->]; reflexivity.
Qed.

Lemma dispatch_apply (randoms : Q * Q) (command : string) (g : GameEngine.t) :
  isCase (action command) ["use"] = true ->
  dispatch randoms command g
  = if seq (target command) "" then ("Use what? Specify an item name.", g)
    else Player_use (target command) g.
Proof.
  intros Ha. unfold dispatch. rewrite (isCase_use _ Ha). reflexivity.
Qed.

Lemma isCase_three (a x y z : string) :
  isCase a [x; y; z] = true -> a = x \/ a = y \/ a = z.
Proof.
  unfold isCase. simpl. rewrite orb_false_r. intros H.
  apply orb_true_iff in H as [H|H]; [apply seq_eq in H; auto|].
  apply orb_true_iff in H as [H|H]; apply seq_eq in H; auto.
Qed.

Lemma dispatch_inventory (randoms : Q * Q) (command : string)
    (g : GameEngine.t) :
  isCase (action command) ["inventory"; "inv"; "i"] = true ->
  dispatch randoms command g
  = ("Inventory: " +:+ Player.getInventory (player g), g).
Proof.
  intros Ha. unfold dispatch.
  destruct (isCase_three _ _ _ _ Ha) as [-> | [-> | ->]]; reflexivity.
Qed.

Lemma dispatch_status (randoms : Q * Q) (command : string) (g : GameEngine.t) :
  isCase (action command) ["status"; "health"; "hp"] = true ->
  dispatch randoms command g
  = ("Status: " +:+ Player.checkStatus (player g), g).
Proof.
  intros Ha. unfold dispatch.
  destruct (isCase_three _ _ _ _ Ha) as [-> | [-> | ->]]; reflexivity.
Qed.

Lemma dispatch_help (randoms : Q * Q) (command : string) (g : GameEngine.t) :
  isCase (action command) ["help"; "h"; "?"] = true ->
  dispatch randoms command g = (getHelpText, g).
Proof.
  intros Ha. unfold dispatch.
  destruct (isCase_three _ _ _ _ Ha) as [-> | [-> | ->]]; reflexivity.
Qed.

(** Two inputs with verbs of one branch and the same argument are
    dispatched alike. *)
Lemma dispatch_same_branch (randoms : Q * Q) (c1 c2 : string)
    (group : list string) (g : GameEngine.t) :
  group ∈ verbGroups ->
  isCase (action c1) group = true -> isCase (action c2) group = true ->
  target c1 = target c2 ->
  dispatch randoms c1 g = dispatch randoms c2 g.
Proof.
  intros Hgroup H1 H2 Ht. unfold verbGroups in Hgroup.
  list_cases Hgroup; subst group.
  - rewrite (dispatch_go _ _ _ H1), (dispatch_go _ _ _ H2), Ht. reflexivity.
  - rewrite (dispatch_look _ _ _ H1), (dispatch_look _ _ _ H2). reflexivity.
  - rewrite (dispatch_get _ _ _ H1), (dispatch_get _ _ _ H2), Ht. reflexivity.
  - rewrite (dispatch_apply _ _ _ H1), (dispatch_apply _ _ _ H2), Ht.
    reflexivity.
  - rewrite (dispatch_attack _ _ _ H1), (dispatch_attack _ _ _ H2), Ht.
    reflexivity.
  - rewrite (dispatch_inventory _ _ _ H1), (dispatch_inventory _ _ _ H2).
    reflexivity.
  - rewrite (dispatch_status _ _ _ H1), (dispatch_status _ _ _ H2).
    reflexivity.
  - rewrite (dispatch_help _ _ _ H1), (dispatch_help _ _ _ H2). reflexivity.
Qed.

Lemma processCommand_same_dispatch (randoms : Q * Q) (c1 c2 : string)
    (g : GameEngine.t) :
  dispatch randoms c1 g = dispatch randoms c2 g ->
  processCommand randoms c1 g = processCommand randoms c2 g.
Proof. intros H. unfold processCommand. rewrite H. reflexivity. Qed.

(** X2. Synonyms are interchangeable: in any state of the engine, two inputs
    whose verbs are labels of the same branch of the [switch] and whose
    arguments are equal get the same reply and leave the same state. *)
Theorem X2_synonyms_are_interchangeable :
  forall (g : GameEngine.t) (randoms : Q * Q) (c1 c2 : string)
         (group : list string),
    group ∈ verbGroups ->
    isCase (action c1) group = true ->
    isCase (action c2) group = true ->
    target c1 = target c2 ->
    processCommand randoms c1 g = processCommand randoms c2 g.
Proof.
  intros g randoms c1 c2 group Hgroup H1 H2 Ht.
  apply processCommand_same_dispatch.
  exact (dispatch_same_branch randoms c1 c2 group g Hgroup H1 H2 Ht).
Qed.

Lemma X2_witness :
  ["go"; "move"; "walk"] ∈ verbGroups
  /\ isCase (action "walk north") ["go"; "move"; "walk"] = true
  /\ isCase (action "GO north") ["go"; "move"; "walk"] = true
  /\ target "walk north" = target "GO north"
  /\ processCommand lowRolls "walk north" initializeGame
     = processCommand lowRolls "GO north" initializeGame.
Proof.
  assert (Hgroup : ["go"; "move"; "walk"] ∈ verbGroups).
  { apply list_elem_of_In. left. reflexivity. }
  split; [exact Hgroup|]. repeat (split; [reflexivity|]).
  exact (X2_synonyms_are_interchangeable initializeGame lowRolls
           "walk north" "GO north" _ Hgroup eq_refl eq_refl eq_refl).
Defined.

Lemma processCommand_same_text (randoms : Q * Q) (c1 c2 : string)
    (g : GameEngine.t) :
  toLowerCase (trim c1) = toLowerCase (trim c2) ->
  action c1 = action c2
  /\ snd (processCommand randoms c1 g) = snd (processCommand randoms c2 g)
  /\ (isVerb (action c1) = true ->
      processCommand randoms c1 g = processCommand randoms c2 g).
Proof.
  intros Hnorm.
  assert (Hparts : parts c1 = parts c2) by (unfold parts; rewrite Hnorm; reflexivity).
  assert (Ha : action c1 = action c2) by (unfold action; rewrite Hparts; reflexivity).
  assert (Ht : target c1 = target c2) by (unfold target; rewrite Hparts; reflexivity).
  split; [exact Ha|].
  destruct (isVerb (action c1)) eqn:Hverb.
  - apply isVerb_groups in Hverb as (group & Hgroup & H1).
    assert (H2 : isCase (action c2) group = true) by (rewrite <- Ha; exact H1).
    pose proof (processCommand_same_dispatch randoms c1 c2 g
                  (dispatch_same_branch randoms c1 c2 group g Hgroup H1 H2 Ht))
      as Heq.
    split; [rewrite Heq; reflexivity|intros _; exact Heq].
  - split; [|discriminate].
    assert (Hverb2 : isVerb (action c2) = false) by (rewrite <- Ha; exact Hverb).
    unfold processCommand.
    rewrite (dispatch_not_understood _ _ _ Hverb),
            (dispatch_not_understood _ _ _ Hverb2).
    destruct (isGameOver g); reflexivity.
Qed.

(** X3. Letter case and surrounding white space of an input do not matter:
    two inputs with the same lower-cased, trimmed text leave the same state,
    and get the same reply when the verb is in the vocabulary (the
    not-understood reply quotes the input as typed). *)
Theorem X3_case_and_padding_do_not_matter :
  forall (g : GameEngine.t) (randoms : Q * Q) (c1 c2 : string),
    toLowerCase (trim c1) = toLowerCase (trim c2) ->
    snd (processCommand randoms c1 g) = snd (processCommand randoms c2 g)
    /\ (isVerb (action c1) = true ->
        processCommand randoms c1 g = processCommand randoms c2 g).
Proof.
  intros g randoms c1 c2 Hnorm.
  exact (proj2 (processCommand_same_text randoms c1 c2 g Hnorm)).
Qed.

Lemma X3_witness :
  toLowerCase (trim "  Take FLASHLIGHT ") = toLowerCase (trim "take flashlight")
  /\ processCommand lowRolls "  Take FLASHLIGHT " initializeGame
     = processCommand lowRolls "take flashlight" initializeGame.
Proof.
  split; [reflexivity|].
  exact (proj2 (X3_case_and_padding_do_not_matter initializeGame lowRolls
                  "  Take FLASHLIGHT " "take flashlight" eq_refl) eq_refl).
Defined.

(** ** Commands that change nothing *)

(** In a reachable state in which the game goes on, a command that leaves
    the state to [checkGameConditions] as it was returns it unchanged. *)
Lemma processCommand_unchanged (randoms : Q * Q) (command : string)
    (g : GameEngine.t) (reply : string) :
  reachable g -> isGameOver g = false ->
  dispatch randoms command g = (reply, g) ->
  processCommand randoms command g = (reply, g).
Proof.
  intros Hg Hover Hd.
  pose proof (invariant_alive g (reachable_invariant g Hg) Hover) as Halive.
  rewrite processCommand_unfold by exact Hover. rewrite Hd. cbn [fst snd].
  rewrite checkGameConditions_alive by exact Halive. reflexivity.
Qed.

(** X4. A verb that needs an argument and gets none is answered by a
    prompt, and nothing changes: "Go where?" for go, move and walk, "Take
    what?" for take and get, "Use what?" for use, "Attack what?" for attack,
    fight and hit. *)
Theorem X4_missing_argument_is_prompted :
  forall (g : GameEngine.t) (randoms : Q * Q) (command : string),
    reachable g ->
    isGameOver g = false ->
    target command = "" ->
    (isCase (action command) ["go"; "move"; "walk"] = true ->
     processCommand randoms command g
     = ("Go where? Specify a direction (north, south, east, west).", g))
    /\ (isCase (action command) ["take"; "get"] = true ->
        processCommand randoms command g
        = ("Take what? Specify an item name.", g))
    /\ (isCase (action command) ["use"] = true ->
        processCommand randoms command g
        = ("Use what? Specify an item name.", g))
    /\ (isCase (action command) ["attack"; "fight"; "hit"] = true ->
        processCommand randoms command g
        = ("Attack what? Specify a creature name.", g)).
Proof.
  intros g randoms command Hg Hover Ht.
  repeat split; intros Ha; apply processCommand_unchanged; try assumption.
  - rewrite (dispatch_go _ _ _ Ha), Ht. reflexivity.
  - rewrite (dispatch_get _ _ _ Ha), Ht. reflexivity.
  - rewrite (dispatch_apply _ _ _ Ha), Ht. reflexivity.
  - rewrite (dispatch_attack _ _ _ Ha), Ht. reflexivity.
Qed.

Lemma X4_witness :
  reachable initializeGame
  /\ isGameOver initializeGame = false
  /\ target " Attack " = ""
  /\ processCommand lowRolls " Attack " initializeGame
     = ("Attack what? Specify a creature name.", initializeGame).
Proof.
  assert (Hover : isGameOver initializeGame = false)
    by (vm_compute; reflexivity).
  split; [exact reachable_init|]. split; [exact Hover|].
  split; [reflexivity|].
  destruct (X4_missing_argument_is_prompted initializeGame lowRolls " Attack "
              reachable_init Hover eq_refl) as (_ & _ & _ & Hattack).
  exact (Hattack eq_refl).
Defined.

(** X5. Looking, listing the inventory, asking for the status and asking for
    help never change the state.  In a reachable state in which the game
    goes on the status reply always gives the health: the "You are dead."
    text of [Player.checkStatus] is never returned. *)
Theorem X5_reading_commands_change_nothing :
  forall (g : GameEngine.t) (randoms : Q * Q) (command : string),
    reachable g ->
    isGameOver g = false ->
    (isCase (action command) ["look"; "l"] = true ->
     processCommand randoms command g
     = (match getRoom (Player.currentLocation (player g)) g with
        | Some currentRoom => Room.getDescription (creatures g) currentRoom
        | None => "You're in an unknown location."
        end, g))
    /\ (isCase (action command) ["inventory"; "inv"; "i"] = true ->
        processCommand randoms command g
        = ("Inventory: " +:+ Player.getInventory (player g), g))
    /\ (isCase (action command) ["status"; "health"; "hp"] = true ->
        processCommand randoms command g
        = ("Status: Health: " +:+ ofNumber (Player.health (player g))
           +:+ "/" +:+ ofNumber (Player.maxHealth (player g)), g))
    /\ (isCase (action command) ["help"; "h"; "?"] = true ->
        processCommand randoms command g = (getHelpText, g)).
Proof.
  intros g randoms command Hg Hover.
  pose proof (invariant_alive g (reachable_invariant g Hg) Hover) as Halive.
  repeat split; intros Ha; apply processCommand_unchanged; try assumption.
  - rewrite (dispatch_look _ _ _ Ha).
    destruct (getRoom (Player.currentLocation (player g)) g); reflexivity.
  - apply dispatch_inventory, Ha.
  - rewrite (dispatch_status _ _ _ Ha). unfold Player.checkStatus.
    rewrite Halive. reflexivity.
  - apply dispatch_help, Ha.
Qed.

Lemma X5_witness :
  reachable wounded
  /\ isGameOver wounded = false
  /\ processCommand lowRolls "hp" wounded = ("Status: Health: 90/100", wounded)
  /\ processCommand lowRolls "i" wounded = ("Inventory: Medkit", wounded).
Proof.
  assert (Hover : isGameOver wounded = false) by (vm_compute; reflexivity).
  split; [exact reachable_wounded|]. split; [exact Hover|].
  destruct (X5_reading_commands_change_nothing wounded lowRolls "hp"
              reachable_wounded Hover) as (_ & _ & Hstatus & _).
  destruct (X5_reading_commands_change_nothing wounded lowRolls "i"
              reachable_wounded Hover) as (_ & Hinv & _).
  split.
  - rewrite (Hstatus eq_refl). f_equal.
  - rewrite (Hinv eq_refl). f_equal.
Defined.

(** ** Moving *)

Lemma initialRooms_ids (k : string) (r0 : Room.t) :
  rooms initializeGame !! k = Some r0 -> Room.id r0 = k.
Proof.
  intros Hk. apply initialRooms_lookup in Hk. unfold initialRooms in Hk.
  list_cases Hk; injection Hk as -> ->; reflexivity.
Qed.

Lemma initialRooms_exit_keys (k : string) (r0 : Room.t) (d : string) :
  rooms initializeGame !! k = Some r0 ->
  is_Some (ownProperty d (Room.exits r0)) -> d ∈ directions.
Proof.
  intros Hk [v Hd]. apply initialRooms_lookup in Hk. unfold initialRooms in Hk.
  list_cases Hk; injection Hk as -> ->;
    apply ownProperty_elem in Hd; simpl in Hd;
    list_cases Hd; injection Hd as -> ->;
    apply list_elem_of_In; simpl; tauto.
Qed.

Lemma getRoom_inherited (g : GameEngine.t) (p : string) :
  roomsOk (rooms g) -> p ∈ objectPrototypeKeys ->
  getRoom (JsInherited p) g = None.
Proof.
  intros [Hfrom _] Hp. unfold getRoom.
  destruct (rooms g !! toPropertyKey (JsInherited p)) as [r|] eqn:Hr;
    [|reflexivity].
  destruct (Hfrom _ _ Hr) as (r0 & H0 & _).
  apply initialRooms_lookup in H0. unfold initialRooms in H0.
  unfold objectPrototypeKeys in Hp.
  list_cases Hp; subst p; list_cases H0; discriminate H0.
Qed.

(** X6. A move in a direction that is no exit of the current room is
    refused: the reply is "You can't go <direction> from here." and nothing
    changes.  (The directions that name a property inherited by the exits
    object are not among these; see X7.) *)
Theorem X6_no_exit_no_move :
  forall (g : GameEngine.t) (randoms : Q * Q) (command : string) (r : Room.t),
    reachable g ->
    isGameOver g = false ->
    isCase (action command) ["go"; "move"; "walk"] = true ->
    target command <> "" ->
    getRoom (Player.currentLocation (player g)) g = Some r ->
    ownProperty (target command) (Room.exits r) = None ->
    target command ∉ objectPrototypeKeys ->
    processCommand randoms command g
    = ("You can't go " +:+ target command +:+ " from here.", g).
Proof.
  intros g randoms command r Hg Hover Ha Ht Hr Hexit Hproto.
  apply processCommand_unchanged; try assumption.
  rewrite (dispatch_go _ _ _ Ha). apply seq_neq in Ht. rewrite Ht.
  unfold Player_move, getProperty. rewrite Hr, target_lower, Hexit.
  destruct (existsb (seq (target command)) objectPrototypeKeys) eqn:He;
    [|reflexivity].
  exfalso. apply Hproto. apply existsb_exists in He as (x & Hx & Heq).
  apply seq_eq in Heq. subst x. by apply list_elem_of_In.
Qed.

Lemma X6_witness :
  reachable initializeGame
  /\ isGameOver initializeGame = false
  /\ ownProperty (target "go west")
       (Room.exits (roomOf "crash_site" initializeGame)) = None
  /\ processCommand lowRolls "go west" initializeGame
     = ("You can't go west from here.", initializeGame).
Proof.
  assert (Hover : isGameOver initializeGame = false)
    by (vm_compute; reflexivity).
  assert (Hexit : ownProperty (target "go west")
                    (Room.exits (roomOf "crash_site" initializeGame)) = None)
    by (vm_compute; reflexivity).
  split; [exact reachable_init|]. split; [exact Hover|]. split; [exact Hexit|].
  apply (X6_no_exit_no_move initializeGame lowRolls "go west"
           (roomOf "crash_site" initializeGame) reachable_init Hover).
  - reflexivity.
  - vm_compute. discriminate.
  - vm_compute. reflexivity.
  - exact Hexit.
  - intros Hin. apply list_elem_of_In in Hin. vm_compute in Hin.
    repeat (destruct Hin as [Hin|Hin]; [discriminate Hin|]). exact Hin.
Defined.

(** A move whose lower-cased direction is the name of an inherited
    property. *)
Lemma processCommand_inherited (g : GameEngine.t) (randoms : Q * Q)
    (command : string) (r : Room.t) :
  reachable g ->
  isGameOver g = false ->
  isCase (action command) ["go"; "move"; "walk"] = true ->
  getRoom (Player.currentLocation (player g)) g = Some r ->
  target command ∈ objectPrototypeKeys ->
  processCommand randoms command g
  = ("You move to an unknown location.",
     setPlayer (Player.setCurrentLocation (JsInherited (target command))
                  (player g)) g).
Proof.
  intros Hg Hover Ha Hr Hproto.
  pose proof (reachable_invariant g Hg) as Hinv.
  pose proof (invariant_alive g Hinv Hover) as Halive.
  destruct Hinv as [Hst _]. pose proof (stable_rooms g Hst) as Hrooms.
  assert (Ht : target command <> "").
  { intros Heq. rewrite Heq in Hproto. apply list_elem_of_In in Hproto.
    vm_compute in Hproto.
    repeat (destruct Hproto as [Hproto|Hproto]; [discriminate Hproto|]).
    exact Hproto. }
  assert (Hexit : ownProperty (target command) (Room.exits r) = None).
  { destruct (ownProperty (target command) (Room.exits r)) as [v|] eqn:Hv;
      [|reflexivity].
    exfalso. pose proof Hr as Hr0. unfold getRoom in Hr0.
    destruct Hrooms as [Hfrom _]. destruct (Hfrom _ _ Hr0) as (r0 & H0 & Hf).
    destruct Hf as (_ & _ & _ & _ & Hex & _). rewrite Hex in Hv.
    assert (Hdir : target command ∈ directions).
    { eapply initialRooms_exit_keys; [exact H0|eauto]. }
    unfold directions in Hdir. list_cases Hdir; rewrite Hdir in Hproto;
      apply list_elem_of_In in Hproto; vm_compute in Hproto;
      repeat (destruct Hproto as [Hproto|Hproto]; [discriminate Hproto|]);
      exact Hproto. }
  rewrite processCommand_unfold by exact Hover.
  rewrite (dispatch_go _ _ _ Ha). apply seq_neq in Ht. rewrite Ht.
  unfold Player_move, getProperty. rewrite Hr, target_lower, Hexit.
  assert (He : existsb (seq (target command)) objectPrototypeKeys = true).
  { apply existsb_exists. exists (target command).
    split; [by apply list_elem_of_In|by apply seq_eq]. }
  rewrite He. cbn [truthy negb].
  rewrite (getRoom_inherited
             (setPlayer (Player.setCurrentLocation
                           (JsInherited (target command)) (player g)) g)
             _ Hrooms Hproto).
  cbn [fst snd].
  rewrite checkGameConditions_alive by exact Halive. reflexivity.
Qed.

(** The inherited names that a lower-cased direction can be. *)
Lemma lowercase_prototype_keys (t : string) :
  toLowerCase t = t -> t ∈ objectPrototypeKeys ->
  t = "constructor" \/ t = "__proto__".
Proof.
  intros Hlow Hin. unfold objectPrototypeKeys in Hin.
  list_cases Hin; subst t;
    first [ left; reflexivity | right; reflexivity
          | vm_compute in Hlow; discriminate Hlow ].
Qed.

(** The other inherited names, lower-cased, are names of nothing. *)
Lemma folded_prototype_keys (key : string) :
  key ∈ objectPrototypeKeys -> key <> "constructor" -> key <> "__proto__" ->
  (toLowerCase key ∉ objectPrototypeKeys)
  /\ (toLowerCase key ∉ directions)
  /\ toLowerCase key <> "".
Proof.
  intros Hin Hc Hp. unfold objectPrototypeKeys in Hin.
  list_cases Hin; subst key; try contradiction;
    (split;
     [ intros H; apply list_elem_of_In in H; vm_compute in H;
       repeat (destruct H as [H|H]; [discriminate H|]); exact H
     | split;
       [ intros H; apply list_elem_of_In in H; vm_compute in H;
         repeat (destruct H as [H|H]; [discriminate H|]); exact H
       | vm_compute; discriminate ] ]).
Qed.

(** X7. The exits object inherits the properties of [Object.prototype], and
    a move looks the lower-cased direction up in it.  From any room a move
    to [constructor] or to [__proto__] is therefore not refused:
    [exits[direction]] is truthy, the player's location becomes that
    inherited value, no room is found for it and the reply is "You move to
    an unknown location.".  These two are the only inherited names that a
    command reaches: the others have an upper-case letter ([toString],
    [hasOwnProperty], ...), are looked up in lower case and are refused
    like any direction that is no exit. *)
Theorem X7_inherited_property_is_taken_for_an_exit :
  forall (g : GameEngine.t) (randoms : Q * Q) (command : string) (r : Room.t),
    reachable g ->
    isGameOver g = false ->
    isCase (action command) ["go"; "move"; "walk"] = true ->
    getRoom (Player.currentLocation (player g)) g = Some r ->
    (target command = "constructor" \/ target command = "__proto__" ->
     processCommand randoms command g
     = ("You move to an unknown location.",
        setPlayer (Player.setCurrentLocation (JsInherited (target command))
                     (player g)) g))
    /\ (forall key : string,
          key ∈ objectPrototypeKeys ->
          key <> "constructor" -> key <> "__proto__" ->
          target command = toLowerCase key ->
          processCommand randoms command g
          = ("You can't go " +:+ target command +:+ " from here.", g))
    /\ (target command ∈ objectPrototypeKeys ->
        target command = "constructor" \/ target command = "__proto__").
Proof.
  intros g randoms command r Hg Hover Ha Hr. split; [|split].
  - intros Ht. apply (processCommand_inherited g randoms command r);
      try assumption.
    apply list_elem_of_In. unfold objectPrototypeKeys.
    destruct Ht as [-> | ->]; simpl; tauto.
  - intros key Hkey Hc Hp Ht.
    destruct (folded_prototype_keys key Hkey Hc Hp) as (Hproto & Hdir & Hne).
    rewrite <- Ht in Hproto, Hdir, Hne.
    destruct (reachable_invariant g Hg) as [Hst _].
    apply processCommand_unchanged; try assumption.
    rewrite (dispatch_go _ _ _ Ha). apply seq_neq in Hne. rewrite Hne.
    unfold Player_move, getProperty. rewrite Hr, target_lower.
    assert (Hexit : ownProperty (target command) (Room.exits r) = None).
    { destruct (ownProperty (target command) (Room.exits r)) as [v|] eqn:Hv;
        [|reflexivity].
      exfalso. apply Hdir. pose proof Hr as Hr0. unfold getRoom in Hr0.
      destruct (stable_rooms g Hst) as [Hfrom _].
      destruct (Hfrom _ _ Hr0) as (r0 & H0 & Hf).
      destruct Hf as (_ & _ & _ & _ & Hex & _). rewrite Hex in Hv.
      eapply initialRooms_exit_keys; [exact H0|eauto]. }
    rewrite Hexit.
    destruct (existsb (seq (target command)) objectPrototypeKeys) eqn:He;
      [|reflexivity].
    exfalso. apply Hproto. apply existsb_exists in He as (x & Hx & Heq).
    apply seq_eq in Heq. subst x. by apply list_elem_of_In.
  - apply lowercase_prototype_keys, target_lower.
Qed.

Lemma X7_witness :
  reachable initializeGame
  /\ isGameOver initializeGame = false
  /\ target "go constructor" = "constructor"
  /\ fst (processCommand lowRolls "go constructor" initializeGame)
     = "You move to an unknown location."
  /\ Player.currentLocation
       (player (snd (processCommand lowRolls "go constructor" initializeGame)))
     = JsInherited "constructor"
  /\ "toString" ∈ objectPrototypeKeys
  /\ target "go toString" = toLowerCase "toString"
  /\ processCommand lowRolls "go toString" initializeGame
     = ("You can't go tostring from here.", initializeGame).
Proof.
  assert (Hover : isGameOver initializeGame = false)
    by (vm_compute; reflexivity).
  assert (Hr : getRoom (Player.currentLocation (player initializeGame))
                 initializeGame
               = Some (roomOf "crash_site" initializeGame))
    by (vm_compute; reflexivity).
  assert (Hkey : "toString" ∈ objectPrototypeKeys).
  { apply list_elem_of_In. vm_compute. tauto. }
  split; [exact reachable_init|]. split; [exact Hover|].
  split; [reflexivity|].
  destruct (X7_inherited_property_is_taken_for_an_exit initializeGame lowRolls
              "go constructor" (roomOf "crash_site" initializeGame)
              reachable_init Hover eq_refl Hr) as (Hmove & _ & _).
  destruct (X7_inherited_property_is_taken_for_an_exit initializeGame lowRolls
              "go toString" (roomOf "crash_site" initializeGame)
              reachable_init Hover eq_refl Hr) as (_ & Hrefused & _).
  rewrite (Hmove (or_introl eq_refl)).
  split; [reflexivity|]. split; [reflexivity|]. split; [exact Hkey|].
  split; [reflexivity|].
  apply (Hrefused "toString" Hkey); [discriminate|discriminate|reflexivity].
Defined.

Lemma Player_use_frame (itemId : string) (g : GameEngine.t) :
  rooms (snd (Player_use itemId g)) = rooms g
  /\ creatures (snd (Player_use itemId g)) = creatures g
  /\ Player.inventory (player (snd (Player_use itemId g)))
     = Player.inventory (player g)
  /\ Player.currentLocation (player (snd (Player_use itemId g)))
     = Player.currentLocation (player g)
  /\ Player.isAlive (player (snd (Player_use itemId g)))
     = Player.isAlive (player g)
  /\ (isWin (snd (Player_use itemId g)) = isWin g
      \/ strictEqStr (Player.currentLocation (player g)) "mountain_peak" = true).
Proof.
  unfold Player_use. destruct (find _ _) as [item|]; [|by repeat split; auto].
  destruct (Item.isUsable item); cbn [negb]; [|by repeat split; auto].
  unfold Item_use. destruct (Item.use item); try (by repeat split; auto).
  - destruct (hasItem "beacon" (player g)); by repeat split; auto.
  - destruct (strictEqStr _ _) eqn:Hloc; [|by repeat split; auto].
    destruct (hasItem "battery" (player g)); by repeat split; auto.
Qed.

(** One command, issued off the map. *)
Lemma offTheMap_step (randoms : Q * Q) (command : string) (g : GameEngine.t)
    (p : string) :
  getRoom (JsInherited p) g = None ->
  Player.currentLocation (player g) = JsInherited p ->
  Player.currentLocation (player (snd (processCommand randoms command g)))
  = JsInherited p
  /\ rooms (snd (processCommand randoms command g)) = rooms g
  /\ creatures (snd (processCommand randoms command g)) = creatures g
  /\ Player.inventory (player (snd (processCommand randoms command g)))
     = Player.inventory (player g)
  /\ isWin (snd (processCommand randoms command g)) = isWin g.
Proof.
  intros Hnone Hloc. destruct (isGameOver g) eqn:Hover.
  { rewrite processCommand_gameOver by exact Hover. by repeat split. }
  rewrite processCommand_unfold by exact Hover. cbn [snd].
  destruct (checkGameConditions_world (snd (dispatch randoms command g)))
    as (-> & -> & ->).
  rewrite checkGameConditions_isWin.
  assert (Hinv : Player.inventory
                   (player (checkGameConditions (snd (dispatch randoms command g))))
                 = Player.inventory (player (snd (dispatch randoms command g)))).
  { unfold checkGameConditions. destruct (negb _); reflexivity. }
  rewrite Hinv. clear Hinv.
  assert (Hroom : getRoom (Player.currentLocation (player g)) g = None)
    by (rewrite Hloc; exact Hnone).
  unfold dispatch.
  destruct (isCase (action command) ["go"; "move"; "walk"]).
  { destruct (seq (target command) ""); [by repeat split|].
    unfold Player_move. rewrite Hroom. by repeat split. }
  destruct (isCase (action command) ["look"; "l"]).
  { rewrite Hroom. by repeat split. }
  destruct (isCase (action command) ["take"; "get"]).
  { destruct (seq (target command) ""); [by repeat split|].
    unfold Player_take. rewrite Hroom. by repeat split. }
  destruct (isCase (action command) ["use"]).
  { destruct (seq (target command) ""); [by repeat split|].
    destruct (Player_use_frame (target command) g)
      as (-> & -> & -> & -> & _ & [-> | Hpeak]); [by repeat split|].
    rewrite Hloc in Hpeak. discriminate Hpeak. }
  destruct (isCase (action command) ["attack"; "fight"; "hit"]).
  { destruct (seq (target command) ""); [by repeat split|].
    unfold Player_attack. rewrite Hroom. by repeat split. }
  destruct (isCase (action command) ["inventory"; "inv"; "i"]);
    [by repeat split|].
  destruct (isCase (action command) ["status"; "health"; "hp"]);
    [by repeat split|].
  destruct (isCase (action command) ["help"; "h"; "?"]); by repeat split.
Qed.

(** X8. There is no way back from an unknown location: once the player's
    location is an inherited value, no list of commands changes the
    location, the rooms, the creatures, the inventory or the win flag, so
    the game can no longer be won, and every look is answered "You're in an
    unknown location." while the game goes on. *)
Theorem X8_unknown_location_is_final :
  forall (g : GameEngine.t) (p : string) (inputs : list (Q * Q * string)),
    reachable g ->
    Player.currentLocation (player g) = JsInherited p ->
    (Player.currentLocation (player (snd (processCommands inputs g)))
     = JsInherited p
     /\ rooms (snd (processCommands inputs g)) = rooms g
     /\ creatures (snd (processCommands inputs g)) = creatures g
     /\ Player.inventory (player (snd (processCommands inputs g)))
        = Player.inventory (player g)
     /\ isWin (snd (processCommands inputs g)) = isWin g)
    /\ forall (randoms : Q * Q) (look : string),
         isCase (action look) ["look"; "l"] = true ->
         isGameOver (snd (processCommands inputs g)) = false ->
         fst (processCommand randoms look (snd (processCommands inputs g)))
         = "You're in an unknown location.".
Proof.
  intros g p inputs Hg Hloc.
  pose proof (location_known g Hg) as Hknown. rewrite Hloc in Hknown.
  destruct Hknown as [_ Hnone]. clear Hg.
  assert (Hframe :
    Player.currentLocation (player (snd (processCommands inputs g)))
    = JsInherited p
    /\ rooms (snd (processCommands inputs g)) = rooms g
    /\ creatures (snd (processCommands inputs g)) = creatures g
    /\ Player.inventory (player (snd (processCommands inputs g)))
       = Player.inventory (player g)
    /\ isWin (snd (processCommands inputs g)) = isWin g).
  { revert g Hloc Hnone.
    induction inputs as [|[randoms command] rest IH]; intros g Hloc Hnone.
    - by repeat split.
    - destruct (offTheMap_step randoms command g p Hnone Hloc)
        as (Hl & Hr & Hc & Hi & Hw).
      simpl. destruct (processCommand randoms command g) as [out g1] eqn:Hstep.
      cbn [snd] in *.
      assert (Hnone1 : getRoom (JsInherited p) g1 = None).
      { unfold getRoom in *. rewrite Hr. exact Hnone. }
      specialize (IH g1 Hl Hnone1).
      destruct (processCommands rest g1) as [outs g2]. cbn [snd] in *.
      destruct IH as (IHl & IHr & IHc & IHi & IHw).
      repeat split; congruence. }
  split; [exact Hframe|].
  intros randoms look Hlook Hover. destruct Hframe as (Hl & Hr & _).
  rewrite processCommand_unfold by exact Hover. cbn [fst].
  rewrite (dispatch_look _ _ _ Hlook), Hl.
  unfold getRoom in *. rewrite Hr, Hnone. reflexivity.
Qed.

Lemma reachable_offTheMap : reachable offTheMap.
Proof.
  apply reachable_step; [exact reachable_atPeak|exact validRandoms_lowRolls].
Defined.

Lemma X8_witness :
  reachable offTheMap
  /\ Player.currentLocation (player offTheMap) = JsInherited "constructor"
  /\ Player.currentLocation
       (player (snd (processCommands
                       [(lowRolls, "go west"); (lowRolls, "use beacon")]
                       offTheMap)))
     = JsInherited "constructor"
  /\ isWin (snd (processCommands
                   [(lowRolls, "go west"); (lowRolls, "use beacon")] offTheMap))
     = isWin offTheMap.
Proof.
  assert (Hloc : Player.currentLocation (player offTheMap)
                 = JsInherited "constructor") by (vm_compute; reflexivity).
  split; [exact reachable_offTheMap|]. split; [exact Hloc|].
  destruct (X8_unknown_location_is_final offTheMap "constructor"
              [(lowRolls, "go west"); (lowRolls, "use beacon")]
              reachable_offTheMap Hloc) as [(Hl & _ & _ & _ & Hw) _].
  split; [exact Hl|exact Hw].
Defined.

(** ** The rooms *)

(** X9. In every reachable state the engine has exactly the rooms that the
    constructor built, each stored under its id with the name, description,
    image and exits it was built with; every exit is one of the four
    compass directions and leads to a room of the engine. *)
Theorem X9_rooms_keep_their_shape :
  forall g : GameEngine.t,
    reachable g ->
    (forall k : string,
       is_Some (rooms g !! k) <-> is_Some (rooms initializeGame !! k))
    /\ forall (k : string) (r : Room.t),
         rooms g !! k = Some r ->
         Room.id r = k
         /\ (exists r0 : Room.t,
               rooms initializeGame !! k = Some r0
               /\ Room.name r = Room.name r0
               /\ Room.description r = Room.description r0
               /\ Room.image r = Room.image r0
               /\ Room.exits r = Room.exits r0)
         /\ forall d v : string,
              ownProperty d (Room.exits r) = Some v ->
              d ∈ directions /\ is_Some (rooms g !! v).
Proof.
  intros g Hg. destruct (reachable_invariant g Hg) as [Hst _].
  destruct (stable_rooms g Hst) as [Hfrom Hdom]. split.
  - intros k. split.
    + intros [r Hr]. destruct (Hfrom k r Hr) as (r0 & H0 & _). eauto.
    + intros [r0 H0]. eapply Hdom, H0.
  - intros k r Hr. destruct (Hfrom k r Hr) as (r0 & H0 & Hf).
    destruct Hf as (Hid & Hname & Hdesc & Himg & Hex & _).
    split; [rewrite Hid; exact (initialRooms_ids k r0 H0)|].
    split; [exists r0; by repeat split|].
    intros d v Hd. rewrite Hex in Hd. split.
    + eapply initialRooms_exit_keys; [exact H0|eauto].
    + destruct (initialRooms_exits k r0 d v H0 Hd) as (_ & [rv Hrv] & _).
      eapply Hdom, Hrv.
Qed.

Lemma X9_witness :
  reachable atPeak
  /\ forall d v : string,
       ownProperty d (Room.exits (roomOf "mountain_peak" atPeak)) = Some v ->
       d ∈ directions /\ is_Some (rooms atPeak !! v).
Proof.
  split; [exact reachable_atPeak|].
  destruct (X9_rooms_keep_their_shape atPeak reachable_atPeak) as [_ Hrooms].
  destruct (Hrooms "mountain_peak" (roomOf "mountain_peak" atPeak)
              ltac:(vm_compute; reflexivity)) as (_ & _ & Hexits).
  exact Hexits.
Defined.

(** ** Using items *)

Lemma Player_use_find (itemId : string) (g : GameEngine.t) :
  Player_use itemId g
  = match find (useMatches itemId) (Player.inventory (player g)) with
    | None => ("You don't have a " +:+ itemId +:+ ".", g)
    | Some item =>
        if negb (Item.isUsable item) then
          ("You can't use the " +:+ Item.name item +:+ ".", g)
        else Item_use item g
    end.
Proof. reflexivity. Qed.

(** X10. A use command whose argument is neither the id nor the lower-cased
    name of an item of the inventory is answered "You don't have a
    <argument>." and changes nothing, whatever lies in the room. *)
Theorem X10_cannot_use_what_is_not_held :
  forall (g : GameEngine.t) (randoms : Q * Q) (command : string),
    reachable g ->
    isGameOver g = false ->
    isCase (action command) ["use"] = true ->
    target command <> "" ->
    (forall i : Item.t,
       i ∈ Player.inventory (player g) ->
       Item.id i <> target command
       /\ toLowerCase (Item.name i) <> target command) ->
    processCommand randoms command g
    = ("You don't have a " +:+ target command +:+ ".", g).
Proof.
  intros g randoms command Hg Hover Ha Ht Hnone.
  apply processCommand_unchanged; try assumption.
  rewrite (dispatch_apply _ _ _ Ha). apply seq_neq in Ht. rewrite Ht.
  rewrite Player_use_find, find_all_false; [reflexivity|].
  intros i Hi. destruct (Hnone i Hi) as [Hid Hname]. unfold useMatches.
  rewrite target_lower. apply orb_false_iff. split; by apply seq_neq.
Qed.

Lemma X10_witness :
  reachable initializeGame
  /\ isGameOver initializeGame = false
  /\ Player.inventory (player initializeGame) = []
  /\ processCommand lowRolls "use flashlight" initializeGame
     = ("You don't have a flashlight.", initializeGame).
Proof.
  assert (Hover : isGameOver initializeGame = false)
    by (vm_compute; reflexivity).
  assert (Hempty : Player.inventory (player initializeGame) = [])
    by (vm_compute; reflexivity).
  split; [exact reachable_init|]. split; [exact Hover|]. split; [exact Hempty|].
  apply (X10_cannot_use_what_is_not_held initializeGame lowRolls
           "use flashlight" reachable_init Hover eq_refl).
  - vm_compute. discriminate.
  - intros i Hi. rewrite Hempty in Hi. apply elem_of_nil in Hi. contradiction.
Defined.

(** X11. A use command that resolves to an item that is not usable is
    answered "You can't use the <name>." and changes nothing. *)
Theorem X11_unusable_item_is_refused :
  forall (g : GameEngine.t) (randoms : Q * Q) (command : string)
         (item : Item.t),
    reachable g ->
    isGameOver g = false ->
    usesItem command g item ->
    Item.isUsable item = false ->
    processCommand randoms command g
    = ("You can't use the " +:+ Item.name item +:+ ".", g).
Proof.
  intros g randoms command item Hg Hover (Ha & Ht & Hfind) Husable.
  apply processCommand_unchanged; try assumption.
  rewrite (dispatch_use _ _ _ Ha Ht), Player_use_find, Hfind, Husable.
  reflexivity.
Qed.

Lemma reachable_holdingCrystal : reachable holdingCrystal.
Proof.
  apply reachable_processCommands; [exact reachable_init|].
  repeat (constructor; [exact validRandoms_lowRolls|]). constructor.
Defined.

Lemma X11_witness :
  reachable holdingCrystal
  /\ isGameOver holdingCrystal = false
  /\ usesItem "use Energy Crystal" holdingCrystal (itemOf "crystal")
  /\ Item.isUsable (itemOf "crystal") = false
  /\ processCommand lowRolls "use Energy Crystal" holdingCrystal
     = ("You can't use the Energy Crystal.", holdingCrystal).
Proof.
  assert (Hover : isGameOver holdingCrystal = false)
    by (vm_compute; reflexivity).
  assert (Huses : usesItem "use Energy Crystal" holdingCrystal (itemOf "crystal")).
  { split; [vm_compute; reflexivity|].
    split; [vm_compute; discriminate|vm_compute; reflexivity]. }
  split; [exact reachable_holdingCrystal|]. split; [exact Hover|].
  split; [exact Huses|]. split; [reflexivity|].
  exact (X11_unusable_item_is_refused holdingCrystal lowRolls
           "use Energy Crystal" (itemOf "crystal")
           reachable_holdingCrystal Hover Huses eq_refl).
Defined.

(** X12. Using an item never consumes it: a use command, whatever its
    outcome, leaves the inventory, the rooms, the creatures and the location
    as they were, in every state of the engine; so a medkit that was used
    can be used again. *)
Theorem X12_use_does_not_consume :
  forall (g : GameEngine.t) (randoms : Q * Q) (command : string),
    isCase (action command) ["use"] = true ->
    Player.inventory (player (snd (processCommand randoms command g)))
    = Player.inventory (player g)
    /\ rooms (snd (processCommand randoms command g)) = rooms g
    /\ creatures (snd (processCommand randoms command g)) = creatures g
    /\ Player.currentLocation (player (snd (processCommand randoms command g)))
       = Player.currentLocation (player g).
Proof.
  intros g randoms command Ha. destruct (isGameOver g) eqn:Hover.
  { rewrite processCommand_gameOver by exact Hover. by repeat split. }
  rewrite processCommand_unfold by exact Hover. cbn [snd].
  destruct (checkGameConditions_world (snd (dispatch randoms command g)))
    as (-> & -> & ->).
  assert (Hinv : Player.inventory
                   (player (checkGameConditions (snd (dispatch randoms command g))))
                 = Player.inventory (player (snd (dispatch randoms command g)))).
  { unfold checkGameConditions. destruct (negb _); reflexivity. }
  rewrite Hinv, (dispatch_apply _ _ _ Ha).
  destruct (seq (target command) ""); [by repeat split|].
  destruct (Player_use_frame (target command) g) as (-> & -> & -> & -> & _).
  by repeat split.
Qed.

Lemma X12_witness :
  isCase (action "use medkit") ["use"] = true
  /\ Player.inventory (player (snd (processCommand lowRolls "use medkit" wounded)))
     = Player.inventory (player wounded).
Proof.
  split; [reflexivity|].
  exact (proj1 (X12_use_does_not_consume wounded lowRolls "use medkit" eq_refl)).
Defined.

Lemma processCommand_use (randoms : Q * Q) (command : string)
    (g : GameEngine.t) (item : Item.t) :
  reachable g -> isGameOver g = false -> usesItem command g item ->
  createItems !! Item.id item = Some item
  /\ processCommand randoms command g
     = (fst (Player_use (target command) g),
        checkGameConditions (snd (Player_use (target command) g)))
  /\ Player_use (target command) g
     = if negb (Item.isUsable item) then
         ("You can't use the " +:+ Item.name item +:+ ".", g)
       else Item_use item g.
Proof.
  intros Hg Hover (Ha & Ht & Hfind).
  destruct (reachable_invariant g Hg) as [Hst _].
  pose proof (find_Some_elem _ _ _ Hfind) as [Hin _].
  split; [exact (inventory_item_registered g item Hst Hin)|]. split.
  - rewrite processCommand_unfold by exact Hover.
    rewrite (dispatch_use _ _ _ Ha Ht). reflexivity.
  - rewrite Player_use_find, Hfind. reflexivity.
Qed.

(** X13. A use command that resolves to the energy bar sets the health to
    the minimum of health + 20 and [maxHealth] and changes nothing else;
    one that resolves to the flashlight or to the battery changes nothing
    at all, and the battery's reply tells whether the beacon is held. *)
Theorem X13_energy_bar_flashlight_battery :
  forall (g : GameEngine.t) (randoms : Q * Q) (command : string)
         (item : Item.t),
    reachable g ->
    isGameOver g = false ->
    usesItem command g item ->
    (Item.id item = "energy_bar" ->
     processCommand randoms command g
     = (energyBarText,
        setPlayer (Player.setHealth
                     (Z.min (Player.health (player g) + 20)
                            (Player.maxHealth (player g))) (player g)) g))
    /\ (Item.id item = "flashlight" ->
        processCommand randoms command g = (flashlightText, g))
    /\ (Item.id item = "battery" ->
        processCommand randoms command g
        = (if hasItem "beacon" (player g) then batteryInstalledText
           else batteryUselessText, g)).
Proof.
  intros g randoms command item Hg Hover Huses.
  pose proof (invariant_alive g (reachable_invariant g Hg) Hover) as Halive.
  destruct (processCommand_use randoms command g item Hg Hover Huses)
    as (Hreg & -> & ->).
  repeat split; intros Hid; rewrite Hid in Hreg; vm_compute in Hreg;
    injection Hreg as <-; cbn [Item.isUsable negb]; unfold Item_use;
    cbn [Item.use].
  - cbn [fst snd]. rewrite checkGameConditions_alive by exact Halive.
    reflexivity.
  - cbn [fst snd]. rewrite checkGameConditions_alive by exact Halive.
    reflexivity.
  - destruct (hasItem "beacon" (player g)); cbn [fst snd];
      rewrite checkGameConditions_alive by exact Halive; reflexivity.
Qed.

(** X14. A use command that resolves to the beacon anywhere but at the
    mountain peak, or at the peak without an item of id [battery] in the
    inventory, changes nothing and names the condition that is not met. *)
Theorem X14_beacon_without_its_conditions :
  forall (g : GameEngine.t) (randoms : Q * Q) (command : string)
         (item : Item.t),
    reachable g ->
    isGameOver g = false ->
    usesItem command g item ->
    Item.id item = "beacon" ->
    (Player.currentLocation (player g) <> JsStr "mountain_peak" ->
     processCommand randoms command g = (beaconNeedsPeakText, g))
    /\ (Player.currentLocation (player g) = JsStr "mountain_peak" ->
        hasItem "battery" (player g) = false ->
        processCommand randoms command g = (beaconNeedsPowerText, g)).
Proof.
  intros g randoms command item Hg Hover Huses Hid.
  pose proof (invariant_alive g (reachable_invariant g Hg) Hover) as Halive.
  destruct (processCommand_use randoms command g item Hg Hover Huses)
    as (Hreg & -> & ->).
  rewrite Hid in Hreg. vm_compute in Hreg. injection Hreg as <-.
  cbn [Item.isUsable negb]. unfold Item_use. cbn [Item.use]. split.
  - intros Hloc.
    destruct (strictEqStr (Player.currentLocation (player g)) "mountain_peak")
      eqn:Hpeak; [apply strictEqStr_eq in Hpeak; contradiction|].
    cbn [fst snd]. rewrite checkGameConditions_alive by exact Halive.
    reflexivity.
  - intros Hloc Hbat. apply strictEqStr_eq in Hloc. rewrite Hloc, Hbat.
    cbn [fst snd]. rewrite checkGameConditions_alive by exact Halive.
    reflexivity.
Qed.

Lemma reachable_woundedWithBar : reachable woundedWithBar.
Proof.
  apply reachable_processCommands; [exact reachable_init|].
  repeat (constructor;
          [first [exact validRandoms_lowRolls|exact validRandoms_mixedRolls]|]).
  constructor.
Defined.

Lemma reachable_beaconOnly : reachable beaconOnly.
Proof.
  apply reachable_processCommands; [exact reachable_init|].
  repeat (constructor; [exact validRandoms_lowRolls|]). constructor.
Defined.

Lemma X13_witness :
  reachable woundedWithBar
  /\ isGameOver woundedWithBar = false
  /\ usesItem "use energy bar" woundedWithBar (itemOf "energy_bar")
  /\ Player.health (player woundedWithBar) = 90
  /\ Player.health
       (player (snd (processCommand lowRolls "use energy bar" woundedWithBar)))
     = 100.
Proof.
  assert (Hover : isGameOver woundedWithBar = false)
    by (vm_compute; reflexivity).
  assert (Huses : usesItem "use energy bar" woundedWithBar (itemOf "energy_bar")).
  { split; [vm_compute; reflexivity|].
    split; [vm_compute; discriminate|vm_compute; reflexivity]. }
  split; [exact reachable_woundedWithBar|]. split; [exact Hover|].
  split; [exact Huses|]. split; [vm_compute; reflexivity|].
  destruct (X13_energy_bar_flashlight_battery woundedWithBar lowRolls
              "use energy bar" (itemOf "energy_bar")
              reachable_woundedWithBar Hover Huses) as (Hbar & _ & _).
  rewrite (Hbar eq_refl). vm_compute. reflexivity.
Defined.

Lemma X14_witness :
  reachable beaconOnly
  /\ isGameOver beaconOnly = false
  /\ usesItem "use beacon" beaconOnly (itemOf "beacon")
  /\ Player.currentLocation (player beaconOnly) = JsStr "mountain_peak"
  /\ hasItem "battery" (player beaconOnly) = false
  /\ processCommand lowRolls "use beacon" beaconOnly
     = (beaconNeedsPowerText, beaconOnly).
Proof.
  assert (Hover : isGameOver beaconOnly = false) by (vm_compute; reflexivity).
  assert (Huses : usesItem "use beacon" beaconOnly (itemOf "beacon")).
  { split; [vm_compute; reflexivity|].
    split; [vm_compute; discriminate|vm_compute; reflexivity]. }
  assert (Hloc : Player.currentLocation (player beaconOnly)
                 = JsStr "mountain_peak") by (vm_compute; reflexivity).
  assert (Hbat : hasItem "battery" (player beaconOnly) = false)
    by (vm_compute; reflexivity).
  split; [exact reachable_beaconOnly|]. split; [exact Hover|].
  split; [exact Huses|]. split; [exact Hloc|]. split; [exact Hbat|].
  destruct (X14_beacon_without_its_conditions beaconOnly lowRolls "use beacon"
              (itemOf "beacon") reachable_beaconOnly Hover Huses eq_refl)
    as [_ Hpower].
  exact (Hpower Hloc Hbat).
Defined.

(** ** Taking items *)

(** X15. A take command whose argument is neither the id nor the
    lower-cased name of an item of the current room is answered "There is
    no <argument> here." and changes nothing, even when the inventory holds
    such an item. *)
Theorem X15_cannot_take_what_is_not_here :
  forall (g : GameEngine.t) (randoms : Q * Q) (command : string) (r : Room.t),
    reachable g ->
    isGameOver g = false ->
    isCase (action command) ["take"; "get"] = true ->
    target command <> "" ->
    getRoom (Player.currentLocation (player g)) g = Some r ->
    (forall i : Item.t,
       i ∈ Room.items r ->
       Item.id i <> target command
       /\ toLowerCase (Item.name i) <> target command) ->
    processCommand randoms command g
    = ("There is no " +:+ target command +:+ " here.", g).
Proof.
  intros g randoms command r Hg Hover Ha Ht Hr Hnone.
  apply processCommand_unchanged; try assumption.
  rewrite (dispatch_take _ _ _ Ha Ht).
  apply (Player_take_absent _ _ r Hr).
  intros i Hi. destruct (Hnone i Hi) as [Hid Hname].
  rewrite target_lower. split; by apply seq_neq.
Qed.

Lemma X15_witness :
  reachable wounded
  /\ isGameOver wounded = false
  /\ Room.items (roomOf "alien_forest" wounded) = []
  /\ processCommand lowRolls "take medkit" wounded
     = ("There is no medkit here.", wounded).
Proof.
  assert (Hover : isGameOver wounded = false) by (vm_compute; reflexivity).
  assert (Hempty : Room.items (roomOf "alien_forest" wounded) = [])
    by (vm_compute; reflexivity).
  split; [exact reachable_wounded|]. split; [exact Hover|].
  split; [exact Hempty|].
  apply (X15_cannot_take_what_is_not_here wounded lowRolls "take medkit"
           (roomOf "alien_forest" wounded) reachable_wounded Hover eq_refl).
  - vm_compute. discriminate.
  - vm_compute. reflexivity.
  - intros i Hi. rewrite Hempty in Hi. apply elem_of_nil in Hi. contradiction.
Defined.

(** ** Items are neither lost nor duplicated *)

Lemma itemsMove_same (g g' : GameEngine.t) :
  rooms g' = rooms g ->
  Player.inventory (player g') = Player.inventory (player g) ->
  itemsMove g g'.
Proof.
  intros Hr Hi. split.
  - intros i Hin. rewrite Hi. exact Hin.
  - intros k r i Hk Hin. right. exists r. rewrite Hr. by split.
Qed.

Lemma itemsMove_putRoom (g g' : GameEngine.t) (key : string) (r r' : Room.t) :
  rooms g' = <[key := r']> (rooms g) ->
  Player.inventory (player g') = Player.inventory (player g) ->
  rooms g !! key = Some r ->
  Room.items r' = Room.items r ->
  itemsMove g g'.
Proof.
  intros Hr Hi Hkey Hitems. split.
  - intros i Hin. rewrite Hi. exact Hin.
  - intros k r1 i Hk Hin. right. rewrite Hr, lookup_insert.
    destruct (decide (key = k)) as [<-|Hne].
    + exists r'. split; [reflexivity|]. rewrite Hitems.
      assert (r1 = r) as -> by congruence. exact Hin.
    + exists r1. by split.
Qed.

Lemma Player_move_itemsMove (direction : string) (g : GameEngine.t) :
  itemsMove g (snd (Player_move direction g)).
Proof.
  unfold Player_move.
  destruct (getRoom (Player.currentLocation (player g)) g) as [r|];
    [|by apply itemsMove_same].
  destruct (getProperty _ _) as [next|]; [|by apply itemsMove_same].
  destruct (truthy next); cbn [negb]; [|by apply itemsMove_same].
  destruct (getRoom next _) as [nextRoom|] eqn:Hnext;
    [|by apply itemsMove_same].
  cbn [snd]. unfold getRoom in Hnext. cbn in Hnext.
  eapply (itemsMove_putRoom _ _ (toPropertyKey next) nextRoom);
    [reflexivity|reflexivity|exact Hnext|].
  destruct (Room.isVisited nextRoom); reflexivity.
Qed.

Lemma Player_take_itemsMove (itemId : string) (g : GameEngine.t) :
  itemsMove g (snd (Player_take itemId g)).
Proof.
  destruct (Player_take_cases itemId g)
    as [->|(r & r' & itemId' & item & Hr & Hrem & ->)];
    [by apply itemsMove_same|].
  destruct (removeItem_Some _ _ _ _ Hrem) as (_ & _ & _ & Hperm & _).
  unfold getRoom in Hr. cbn [snd]. split.
  - intros i Hin. cbn. apply elem_of_app. left. exact Hin.
  - intros k r1 i Hk Hin. cbn. rewrite lookup_insert.
    destruct (decide (toPropertyKey (Player.currentLocation (player g)) = k))
      as [<-|Hne].
    + assert (r1 = r) as -> by congruence.
      rewrite Hperm in Hin. apply elem_of_cons in Hin as [->|Hin].
      * left. apply elem_of_app. right. apply list_elem_of_singleton.
        reflexivity.
      * right. exists r'. by split.
    + right. exists r1. by split.
Qed.

Lemma removeCreature_items (cs : gmap string Creature.t) (creatureId : string)
    (r : Room.t) :
  Room.items (snd (Room.removeCreature cs creatureId r)) = Room.items r
  /\ Room.isVisited (snd (Room.removeCreature cs creatureId r))
     = Room.isVisited r.
Proof.
  unfold Room.removeCreature.
  destruct (spliceFirst _ _) as [[k rest]|]; split; reflexivity.
Qed.

Lemma Creature_attack_frame (random : Q) (c : Creature.t) (p : Player.t) :
  Player.inventory (snd (Creature_attack random c p)) = Player.inventory p
  /\ Player.currentLocation (snd (Creature_attack random c p))
     = Player.currentLocation p
  /\ Player.maxHealth (snd (Creature_attack random c p)) = Player.maxHealth p.
Proof.
  unfold Creature_attack. destruct (_ || _); [by repeat split|].
  cbn [snd]. unfold Player.takeDamage. destruct (_ <=? 0); by repeat split.
Qed.

Lemma fight_itemsMove (randoms : Q * Q) (r : Room.t) (key : string)
    (c : Creature.t) (g : GameEngine.t) :
  getRoom (Player.currentLocation (player g)) g = Some r ->
  itemsMove g (snd (fight randoms r key c g)).
Proof.
  intros Hr. unfold fight.
  destruct (fst (Creature.takeDamage _ c)); cbn [snd].
  - eapply (itemsMove_putRoom _ _ _ r); [reflexivity|reflexivity|exact Hr|].
    apply removeCreature_items.
  - apply itemsMove_same; [reflexivity|]. apply Creature_attack_frame.
Qed.

Lemma dispatch_itemsMove (randoms : Q * Q) (command : string)
    (g : GameEngine.t) :
  itemsMove g (snd (dispatch randoms command g)).
Proof.
  unfold dispatch.
  destruct (isCase (action command) ["go"; "move"; "walk"]).
  { destruct (seq (target command) ""); [by apply itemsMove_same|].
    apply Player_move_itemsMove. }
  destruct (isCase (action command) ["look"; "l"]).
  { destruct (getRoom _ g); by apply itemsMove_same. }
  destruct (isCase (action command) ["take"; "get"]).
  { destruct (seq (target command) ""); [by apply itemsMove_same|].
    apply Player_take_itemsMove. }
  destruct (isCase (action command) ["use"]).
  { destruct (seq (target command) ""); [by apply itemsMove_same|].
    apply itemsMove_same; apply Player_use_frame. }
  destruct (isCase (action command) ["attack"; "fight"; "hit"]).
  { destruct (seq (target command) ""); [by apply itemsMove_same|].
    destruct (Player_attack_cases randoms (target command) g)
      as [(msg & -> & _)|(r & key & c & Hr & _ & _ & _ & _ & ->)];
      [by apply itemsMove_same|].
    by apply fight_itemsMove. }
  destruct (isCase (action command) ["inventory"; "inv"; "i"]);
    [by apply itemsMove_same|].
  destruct (isCase (action command) ["status"; "health"; "hp"]);
    [by apply itemsMove_same|].
  destruct (isCase (action command) ["help"; "h"; "?"]);
    by apply itemsMove_same.
Qed.

Lemma processCommand_itemsMove (randoms : Q * Q) (command : string)
    (g : GameEngine.t) :
  itemsMove g (snd (processCommand randoms command g)).
Proof.
  destruct (isGameOver g) eqn:Hover.
  { rewrite processCommand_gameOver by exact Hover. by apply itemsMove_same. }
  rewrite processCommand_unfold by exact Hover. cbn [snd].
  destruct (dispatch_itemsMove randoms command g) as [Hinv Hrooms].
  destruct (checkGameConditions_world (snd (dispatch randoms command g)))
    as (Hr & _ & _).
  assert (Hi : Player.inventory
                 (player (checkGameConditions (snd (dispatch randoms command g))))
               = Player.inventory (player (snd (dispatch randoms command g)))).
  { unfold checkGameConditions. destruct (negb _); reflexivity. }
  split.
  - intros i Hin. rewrite Hi. by apply Hinv.
  - intros k r i Hk Hin. rewrite Hi, Hr. by apply (Hrooms k r i).
Qed.

Lemma reachable_itemsAccounted (g : GameEngine.t) :
  reachable g -> itemsAccounted g.
Proof.
  induction 1 as [|g randoms command _ IH _].
  - intros k r0 i Hk Hin. right. exists r0. by split.
  - intros k r0 i Hk Hin.
    destruct (processCommand_itemsMove randoms command g) as [Hinv Hrooms].
    destruct (IH k r0 i Hk Hin) as [Hheld|(r & Hr & Hir)].
    + left. by apply Hinv.
    + by apply (Hrooms k r i).
Qed.

Lemma placedItems_origin (k : string) (i : Item.t) :
  (k, i) ∈ placedItems ->
  exists r0, rooms initializeGame !! k = Some r0 /\ i ∈ Room.items r0.
Proof.
  intros H. unfold placedItems in H.
  list_cases H; injection H as -> ->; eexists;
    (split; [vm_compute; reflexivity|]);
    apply list_elem_of_In; simpl; tauto.
Qed.

(** X16. Items are neither lost nor duplicated: in every reachable state
    each item that the constructor placed in room [k] is either in the
    inventory and in no room, or in room [k], in no other room and not in
    the inventory; no list holds an item twice, and the inventory and the
    rooms hold no other items. *)
Theorem X16_every_item_is_in_one_place :
  forall g : GameEngine.t,
    reachable g ->
    (forall (k : string) (r0 : Room.t) (i : Item.t),
       rooms initializeGame !! k = Some r0 -> i ∈ Room.items r0 ->
       (i ∈ Player.inventory (player g)
        /\ forall k' r', rooms g !! k' = Some r' -> i ∉ Room.items r')
       \/ ((i ∉ Player.inventory (player g))
           /\ (exists r, rooms g !! k = Some r /\ i ∈ Room.items r)
           /\ forall k' r', rooms g !! k' = Some r' -> i ∈ Room.items r' ->
                            k' = k))
    /\ NoDup (Player.inventory (player g))
    /\ (forall (k : string) (r : Room.t),
          rooms g !! k = Some r -> NoDup (Room.items r))
    /\ (forall i : Item.t,
          i ∈ Player.inventory (player g)
          \/ (exists k r, rooms g !! k = Some r /\ i ∈ Room.items r) ->
          exists k0 r0,
            rooms initializeGame !! k0 = Some r0 /\ i ∈ Room.items r0).
Proof.
  intros g Hg. destruct (reachable_invariant g Hg) as [Hst _].
  pose proof (stable_rooms g Hst) as Hrooms.
  destruct (stable_inventory g Hst) as [Hnd Hinv].
  pose proof (reachable_itemsAccounted g Hg) as Hacc.
  split; [|split; [exact Hnd|split]].
  - intros k r0 i Hk Hin.
    pose proof (placedItems_elem k r0 i Hk Hin) as Hplaced.
    destruct (decide (i ∈ Player.inventory (player g))) as [Hheld|Hnot].
    + left. split; [exact Hheld|]. apply (Hinv i Hheld).
    + right. split; [exact Hnot|]. split.
      * destruct (Hacc k r0 i Hk Hin) as [Hheld|Hroom]; [contradiction|].
        exact Hroom.
      * intros k' r' Hr' Hin'.
        pose proof (room_item_placed _ _ _ _ Hrooms Hr' Hin') as Hplaced'.
        apply (placedItems_distinct _ _ _ _ Hplaced' Hplaced
                 (itemsClash_refl i)).
  - intros k r Hr. exact (room_items_NoDup _ _ _ Hrooms Hr).
  - intros i [Hheld|(k & r & Hr & Hin)].
    + destruct (Hinv i Hheld) as [[k Hk] _].
      destruct (placedItems_origin k i Hk) as (r0 & H0 & Hin0). eauto.
    + pose proof (room_item_placed _ _ _ _ Hrooms Hr Hin) as Hplaced.
      destruct (placedItems_origin k i Hplaced) as (r0 & H0 & Hin0). eauto.
Qed.

Lemma X16_witness :
  reachable atPeak
  /\ itemOf "beacon" ∈ Room.items (roomOf "mountain_peak" initializeGame)
  /\ itemOf "beacon" ∈ Player.inventory (player atPeak)
  /\ forall k' r', rooms atPeak !! k' = Some r' ->
                   itemOf "beacon" ∉ Room.items r'.
Proof.
  assert (Hin : itemOf "beacon"
                ∈ Room.items (roomOf "mountain_peak" initializeGame)).
  { apply list_elem_of_In. vm_compute. left. reflexivity. }
  assert (Hheld : itemOf "beacon" ∈ Player.inventory (player atPeak)).
  { apply list_elem_of_In. vm_compute. right. left. reflexivity. }
  split; [exact reachable_atPeak|]. split; [exact Hin|]. split; [exact Hheld|].
  destruct (X16_every_item_is_in_one_place atPeak reachable_atPeak)
    as (Hplace & _).
  destruct (Hplace "mountain_peak" (roomOf "mountain_peak" initializeGame)
              (itemOf "beacon") ltac:(vm_compute; reflexivity) Hin)
    as [[_ Hnowhere]|[Hnot _]]; [exact Hnowhere|contradiction].
Defined.

(** ** Fighting back *)

Lemma hostile_damage (k : string) (c0 : Creature.t) :
  createCreatures !! k = Some c0 -> Creature.isHostile c0 = true ->
  1 <= Creature.damage c0.
Proof.
  intros Hk. apply elem_of_map_to_list in Hk.
  assert (Heq : map_to_list createCreatures
                = ltac:(let l := eval vm_compute in (map_to_list createCreatures)
                        in exact l)) by (vm_compute; reflexivity).
  rewrite Heq in Hk.
  list_cases Hk; injection Hk as -> ->; vm_compute; congruence.
Qed.

Lemma checkGameConditions_player (g : GameEngine.t) :
  player (checkGameConditions g) = player g
  /\ isGameOver (checkGameConditions g)
     = negb (Player.isAlive (player g)) || isGameOver g.
Proof.
  unfold checkGameConditions. destruct (negb _); split; reflexivity.
Qed.

(** X17. An attack that reaches a living hostile creature of the current
    room: when the roll of the player is at least the health of the
    creature, the creature does not strike back and the player is as
    before; otherwise the creature strikes back once, for a roll between 1
    and its [damage], the health of the player drops by that roll and stops
    at 0, the reply reports both rolls, and the game is over exactly when
    the health of the player was at most the roll of the creature. *)
Theorem X17_creature_strikes_back :
  forall (g : GameEngine.t) (randoms : Q * Q) (command : string) (r : Room.t)
         (key : string) (c : Creature.t),
    reachable g ->
    validRandoms randoms ->
    isGameOver g = false ->
    isCase (action command) ["attack"; "fight"; "hit"] = true ->
    target command <> "" ->
    getRoom (Player.currentLocation (player g)) g = Some r ->
    Room.getCreatureByName (creatures g) (target command) r = Some key ->
    creatures g !! key = Some c ->
    Creature.isHostile c = true ->
    (Creature.health c <= playerDamageRoll (fst randoms) ->
     player (snd (processCommand randoms command g)) = player g
     /\ isGameOver (snd (processCommand randoms command g)) = false)
    /\ (playerDamageRoll (fst randoms) < Creature.health c ->
        1 <= Creature.damageRoll (snd randoms) c <= Creature.damage c
        /\ Player.health (player (snd (processCommand randoms command g)))
           = Z.max 0 (Player.health (player g)
                      - Creature.damageRoll (snd randoms) c)
        /\ fst (processCommand randoms command g)
           = "You attack the " +:+ Creature.name c +:+ " for "
             +:+ ofNumber (playerDamageRoll (fst randoms)) +:+ " damage!"
             +:+ nl +:+ Creature.name c +:+ " attacks you for "
             +:+ ofNumber (Creature.damageRoll (snd randoms) c) +:+ " damage!"
        /\ isGameOver (snd (processCommand randoms command g))
           = (Player.health (player g)
              <=? Creature.damageRoll (snd randoms) c)
        /\ isWin (snd (processCommand randoms command g)) = isWin g).
Proof.
  intros g randoms command r key c Hg [Hr1 Hr2] Hover Ha Ht Hr Hkey Hc Hhostile.
  pose proof (reachable_invariant g Hg) as Hinv. pose proof Hinv as [Hst _].
  pose proof (invariant_alive g Hinv Hover) as Halive.
  pose proof (stable_player g Hst) as Hp.
  destruct (getCreatureByName_Some _ _ _ _ Hkey) as [Hin _].
  assert (Hcalive : Creature.isAlive c = true).
  { unfold getRoom in Hr.
    destruct (stable_alive g Hst _ _ _ Hr Hin) as (c1 & Hc1 & Hc1alive).
    congruence. }
  destruct (stable_creatures g Hst key c Hc) as (c0 & Hc0 & Hfrom).
  assert (Hdamage : 1 <= Creature.damage c).
  { destruct Hfrom as (_ & _ & _ & _ & Hd & Hh & _).
    rewrite Hd. apply (hostile_damage key c0 Hc0). congruence. }
  apply seq_neq in Ht.
  rewrite processCommand_unfold by exact Hover.
  rewrite (dispatch_attack _ _ _ Ha), Ht.
  rewrite (Player_attack_fight _ _ _ r key c Hr Hkey Hc Hcalive Hhostile).
  unfold fight, Creature.takeDamage. cbn [Creature.health Creature.setHealth].
  set (roll := playerDamageRoll (fst randoms)).
  destruct (Creature.health c - roll <=? 0) eqn:Hle; cbn [fst snd].
  - apply Z.leb_le in Hle. split; [|intros Hlt; lia]. intros _.
    rewrite checkGameConditions_alive by exact Halive. by split.
  - apply Z.leb_gt in Hle. split; [intros Hge; lia|]. intros _.
    unfold Creature_attack.
    change (Creature.isAlive (Creature.setHealth (Creature.health c - roll) c))
      with (Creature.isAlive c).
    change (Creature.isHostile
              (Creature.setHealth (Creature.health c - roll) c))
      with (Creature.isHostile c).
    change (Creature.name (Creature.setHealth (Creature.health c - roll) c))
      with (Creature.name c).
    change (Creature.damageRoll (snd randoms)
              (Creature.setHealth (Creature.health c - roll) c))
      with (Creature.damageRoll (snd randoms) c).
    rewrite Hcalive, Hhostile. cbn [negb orb fst snd].
    assert (Hd0 : 0 <= Creature.damage c) by lia.
    pose proof (creatureDamageRoll_range _ c Hr2 Hd0) as Hcroll.
    set (croll := Creature.damageRoll (snd randoms) c) in *.
    assert (Hcroll0 : 0 <= croll) by lia.
    destruct (Player_takeDamage_ok croll _ Hcroll0 Hp Halive)
      as ([_ Hflag] & Hhealth & _).
    destruct (checkGameConditions_player
                (setPlayer (Player.takeDamage croll (player g))
                   (setCreatures
                      (<[key := Creature.setHealth (Creature.health c - roll) c]>
                         (creatures g)) g))) as [-> ->].
    cbn [player setPlayer setCreatures isGameOver].
    split; [lia|]. split; [exact Hhealth|].
    split; [unfold orUndefined; rewrite !append_assoc; reflexivity|].
    split; [|rewrite checkGameConditions_isWin; reflexivity].
    rewrite Hflag, Hhealth, Hover, orb_false_r.
    destruct Hp as [Hrange _].
    destruct (Z.leb_spec (Player.health (player g)) croll);
      destruct (Z.ltb_spec 0 (Z.max 0 (Player.health (player g) - croll)));
      try reflexivity; lia.
Qed.

Lemma reachable_inForest : reachable inForest.
Proof.
  apply reachable_step; [apply reachable_init|apply validRandoms_lowRolls].
Defined.

Lemma X17_witness :
  reachable inForest
  /\ playerDamageRoll (fst mixedRolls)
     < Creature.health (creatureOf "xenomorph" inForest)
  /\ Player.health
       (player (snd (processCommand mixedRolls "attack xenomorph" inForest)))
     = 90
  /\ fst (processCommand mixedRolls "attack xenomorph" inForest)
     = "You attack the Xenomorph for 5 damage!" +:+ nl
       +:+ "Xenomorph attacks you for 10 damage!".
Proof.
  assert (Hlt : playerDamageRoll (fst mixedRolls)
                < Creature.health (creatureOf "xenomorph" inForest))
    by (vm_compute; reflexivity).
  split; [exact reachable_inForest|]. split; [exact Hlt|].
  destruct (X17_creature_strikes_back inForest mixedRolls "attack xenomorph"
              (roomOf "alien_forest" inForest) "xenomorph"
              (creatureOf "xenomorph" inForest) reachable_inForest
              validRandoms_mixedRolls)
    as [_ Hback]; try (vm_compute; reflexivity).
  { vm_compute. discriminate. }
  destruct (Hback Hlt) as (_ & Hhealth & Hreply & _).
  split.
  - rewrite Hhealth. vm_compute. reflexivity.
  - rewrite Hreply. vm_compute. reflexivity.
Defined.

(** X18. A creature of the current room that is not hostile cannot be
    attacked: the reply is "The <argument> is not hostile and doesn't want
    to fight.", no roll is made and nothing changes. *)
Theorem X18_peaceful_creature_is_spared :
  forall (g : GameEngine.t) (randoms : Q * Q) (command : string) (r : Room.t)
         (key : string) (c : Creature.t),
    reachable g ->
    isGameOver g = false ->
    isCase (action command) ["attack"; "fight"; "hit"] = true ->
    target command <> "" ->
    getRoom (Player.currentLocation (player g)) g = Some r ->
    Room.getCreatureByName (creatures g) (target command) r = Some key ->
    creatures g !! key = Some c ->
    Creature.isHostile c = false ->
    processCommand randoms command g
    = ("The " +:+ target command
       +:+ " is not hostile and doesn't want to fight.", g).
Proof.
  intros g randoms command r key c Hg Hover Ha Ht Hr Hkey Hc Hhostile.
  destruct (reachable_invariant g Hg) as [Hst _].
  destruct (getCreatureByName_Some _ _ _ _ Hkey) as [Hin _].
  assert (Hcalive : Creature.isAlive c = true).
  { unfold getRoom in Hr.
    destruct (stable_alive g Hst _ _ _ Hr Hin) as (c1 & Hc1 & Hc1alive).
    congruence. }
  apply processCommand_unchanged; try assumption.
  apply seq_neq in Ht. rewrite (dispatch_attack _ _ _ Ha), Ht.
  unfold Player_attack. rewrite Hr, Hkey, Hc, Hcalive, Hhostile. reflexivity.
Qed.

Lemma reachable_inTunnels : reachable inTunnels.
Proof.
  apply reachable_processCommands; [exact reachable_init|].
  repeat (constructor; [exact validRandoms_lowRolls|]). constructor.
Defined.

Lemma X18_witness :
  reachable inTunnels
  /\ processCommand highRolls "attack Peaceful Alien" inTunnels
     = ("The peaceful alien is not hostile and doesn't want to fight.",
        inTunnels).
Proof.
  split; [exact reachable_inTunnels|].
  apply (X18_peaceful_creature_is_spared inTunnels highRolls
           "attack Peaceful Alien" (roomOf "underground_tunnels" inTunnels)
           "friendly_alien" (creatureOf "friendly_alien" inTunnels)
           reachable_inTunnels); try (vm_compute; reflexivity).
  vm_compute. discriminate.
Defined.

(** ** How the game ends *)

Lemma processCommand_wonAtPeak (randoms : Q * Q) (command : string)
    (g : GameEngine.t) :
  reachable g -> wonAtPeak g ->
  wonAtPeak (snd (processCommand randoms command g)).
Proof.
  intros Hg Hwon. pose proof (reachable_invariant g Hg) as Hinv.
  pose proof Hinv as [Hst _].
  destruct (isGameOver g) eqn:Hover.
  { rewrite processCommand_gameOver by exact Hover. exact Hwon. }
  pose proof (invariant_alive g Hinv Hover) as Halive.
  assert (Hwin : isWin g = false).
  { destruct (isWin g) eqn:Hw; [|reflexivity].
    rewrite (stable_win g Hst Hw) in Hover. discriminate Hover. }
  rewrite processCommand_unfold by exact Hover. cbn [snd].
  intros Hwin'. rewrite checkGameConditions_isWin in Hwin'.
  destruct (dispatch_wins _ _ _ Hwin Hwin') as (_ & _ & Hd).
  rewrite Hd in Hwin' |- *.
  destruct (Player_use_wins _ _ Hwin Hwin')
    as (item & Hfind & Husable & Huse & Hloc & Hbat).
  rewrite (Player_use_beacon _ _ _ Hfind Husable Huse Hloc Hbat). cbn [snd].
  rewrite checkGameConditions_alive by exact Halive.
  split; [exact Halive|]. split; [exact Hloc|]. split; [exact Hbat|].
  apply hasItem_elem. exists item.
  pose proof (find_Some_elem _ _ _ Hfind) as [Hin _].
  split; [exact Hin|].
  destruct (stable_inventory g Hst) as [_ Hinvt].
  destruct (Hinvt item Hin) as [[k Hk] _].
  apply (placedItems_beacon k item Hk). exact Huse.
Qed.

Lemma reachable_wonAtPeak (g : GameEngine.t) : reachable g -> wonAtPeak g.
Proof.
  induction 1 as [|g randoms command Hg IH _].
  - intros Hwin. destruct initializeGame_flags as [_ Hw].
    rewrite Hw in Hwin. discriminate Hwin.
  - by apply processCommand_wonAtPeak.
Qed.

(** X19. In every reachable state the game is over exactly when the win
    flag is set or the health of the player is 0, and never both: when the
    win flag is set, the player is alive at the mountain peak and holds the
    battery and the beacon. *)
Theorem X19_game_is_over_by_rescue_or_death :
  forall g : GameEngine.t,
    reachable g ->
    (isGameOver g = true
     <-> isWin g = true \/ Player.health (player g) = 0)
    /\ (isWin g = true ->
        0 < Player.health (player g)
        /\ Player.currentLocation (player g) = JsStr "mountain_peak"
        /\ hasItem "battery" (player g) = true
        /\ hasItem "beacon" (player g) = true).
Proof.
  intros g Hg. destruct (reachable_invariant g Hg) as [Hst Hdead].
  destruct (stable_player g Hst) as [Hrange Hflag].
  split.
  - split.
    + intros Hover. destruct (stable_over g Hst Hover) as [Hw|Hd];
        [left; exact Hw|right].
      rewrite Hd in Hflag. symmetry in Hflag. apply Z.ltb_ge in Hflag. lia.
    + intros [Hw|Hz]; [exact (stable_win g Hst Hw)|].
      apply Hdead. rewrite Hflag, Hz. reflexivity.
  - intros Hw.
    destruct (reachable_wonAtPeak g Hg Hw) as (Halive & Hloc & Hbat & Hbeacon).
    rewrite Halive in Hflag. symmetry in Hflag. apply Z.ltb_lt in Hflag.
    split; [exact Hflag|]. split; [|by split].
    destruct (Player.currentLocation (player g)) as [s|p]; [|discriminate Hloc].
    apply seq_eq in Hloc. rewrite Hloc. reflexivity.
Qed.

Lemma reachable_rescued : reachable rescued.
Proof.
  apply reachable_step; [exact reachable_atPeak|exact validRandoms_lowRolls].
Defined.

Lemma X19_witness :
  reachable rescued
  /\ isWin rescued = true
  /\ isGameOver rescued = true
  /\ 0 < Player.health (player rescued).
Proof.
  assert (Hwin : isWin rescued = true) by (vm_compute; reflexivity).
  split; [exact reachable_rescued|]. split; [exact Hwin|].
  destruct (X19_game_is_over_by_rescue_or_death rescued reachable_rescued)
    as [Hover Hwon].
  split; [apply Hover; left; exact Hwin|]. apply (Hwon Hwin).
Defined.

(** ** The compass *)

Lemma existsb_getExits (dir : string) (r : Room.t) :
  existsb (seq dir) (Room.getExits r)
  = match ownProperty dir (Room.exits r) with Some _ => true | None => false end.
Proof.
  unfold Room.getExits. induction (Room.exits r) as [|[k v] o IH];
    [reflexivity|].
  cbn [map fst existsb ownProperty]. unfold seq at 1 3.
  rewrite (String.eqb_sym dir k).
  destruct (String.eqb k dir); [reflexivity|]. exact IH.
Qed.

Lemma go_direction (dir : string) :
  dir ∈ directions ->
  action ("go " +:+ dir) = "go" /\ target ("go " +:+ dir) = dir
  /\ dir <> "" /\ (dir ∉ objectPrototypeKeys).
Proof.
  intros Hdir. unfold directions in Hdir.
  list_cases Hdir; subst dir;
    (split; [vm_compute; reflexivity|]);
    (split; [vm_compute; reflexivity|]);
    (split; [discriminate|]);
    intros Hin; unfold objectPrototypeKeys in Hin;
    list_cases Hin; discriminate Hin.
Qed.

(** A move through an exit of the current room. *)
Lemma processCommand_move_exit (randoms : Q * Q) (command : string)
    (g : GameEngine.t) (r : Room.t) (X : string) :
  reachable g -> isGameOver g = false ->
  isCase (action command) ["go"; "move"; "walk"] = true ->
  getRoom (Player.currentLocation (player g)) g = Some r ->
  ownProperty (target command) (Room.exits r) = Some X ->
  exists rx : Room.t,
    rooms g !! X = Some rx
    /\ processCommand randoms command g
       = (Room.getDescription (creatures g) rx,
          putRoom (JsStr X) (entered rx)
            (setPlayer (Player.setCurrentLocation (JsStr X) (player g)) g)).
Proof.
  intros Hg Hover Ha Hr Hexit.
  pose proof (reachable_invariant g Hg) as Hinv.
  pose proof (invariant_alive g Hinv Hover) as Halive.
  destruct Hinv as [Hst _].
  destruct (stable_rooms g Hst) as [Hfrom Hdom].
  pose proof Hr as Hr'. unfold getRoom in Hr'.
  destruct (Hfrom _ _ Hr') as (r0 & H0 & Hf).
  assert (Hexit0 : ownProperty (target command) (Room.exits r0) = Some X).
  { destruct Hf as (_ & _ & _ & _ & <- & _). exact Hexit. }
  destruct (initialRooms_exits _ _ _ _ H0 Hexit0) as (HX & [rx0 Hrx0] & Ht).
  destruct (Hdom X rx0 Hrx0) as [rx Hrx].
  exists rx. split; [exact Hrx|].
  rewrite processCommand_unfold by exact Hover.
  rewrite (dispatch_move _ _ _ Ha Ht).
  rewrite (Player_move_enters _ _ r rx X Hr); try assumption.
  - cbn [fst snd]. rewrite checkGameConditions_alive by exact Halive.
    reflexivity.
  - rewrite target_lower. exact Hexit.
Qed.

(** X20. While the game goes on and the player is in a room,
    [updateCompass] sets the four direction buttons, in the order north,
    south, east, west, and enables a button exactly when the command
    [go <direction>] moves the player: for a disabled direction the command
    is refused with "You can't go <direction> from here." and changes
    nothing; for an enabled one it puts the player in the room behind that
    exit and returns its description. *)
Theorem X20_compass_enables_the_moves_that_succeed :
  forall (g : GameEngine.t) (r : Room.t),
    reachable g ->
    isGameOver g = false ->
    getRoom (Player.currentLocation (player g)) g = Some r ->
    exists buttons : list (string * bool),
      updateCompass g = Some buttons
      /\ map fst buttons = ["north"; "south"; "east"; "west"]
      /\ forall (dir : string) (disabled : bool) (randoms : Q * Q),
           (dir, disabled) ∈ buttons ->
           if disabled then
             processCommand randoms ("go " +:+ dir) g
             = ("You can't go " +:+ dir +:+ " from here.", g)
           else
             exists (X : string) (rx : Room.t),
               ownProperty dir (Room.exits r) = Some X
               /\ rooms g !! X = Some rx
               /\ processCommand randoms ("go " +:+ dir) g
                  = (Room.getDescription (creatures g) rx,
                     putRoom (JsStr X) (entered rx)
                       (setPlayer
                          (Player.setCurrentLocation (JsStr X) (player g)) g)).
Proof.
  intros g r Hg Hover Hr. unfold updateCompass. rewrite Hr.
  eexists. split; [reflexivity|]. split; [reflexivity|].
  intros dir disabled randoms Hin.
  apply list_elem_of_In, in_map_iff in Hin as (d & Heq & Hd).
  apply list_elem_of_In in Hd.
  apply (f_equal snd) in Heq as Hdis. apply (f_equal fst) in Heq.
  cbn [fst snd] in Heq, Hdis. subst d.
  destruct (go_direction dir Hd) as (Ha & Ht & Hne & Hproto).
  assert (Hcase : isCase (action ("go " +:+ dir)) ["go"; "move"; "walk"] = true)
    by (rewrite Ha; reflexivity).
  rewrite existsb_getExits in Hdis.
  destruct (ownProperty dir (Room.exits r)) as [X|] eqn:Hexit; subst disabled.
  - destruct (processCommand_move_exit randoms ("go " +:+ dir) g r X Hg Hover
                Hcase Hr) as (rx & Hrx & Hmove).
    { rewrite Ht. exact Hexit. }
    exists X, rx. by repeat split.
  - apply processCommand_unchanged; try assumption.
    rewrite (dispatch_go _ _ _ Hcase), Ht.
    apply seq_neq in Hne. rewrite Hne.
    unfold Player_move, getProperty. rewrite Hr.
    assert (Hlow : toLowerCase dir = dir).
    { rewrite <- Ht. apply target_lower. }
    rewrite Hlow, Hexit.
    destruct (existsb (seq dir) objectPrototypeKeys) eqn:He; [|reflexivity].
    exfalso. apply Hproto. apply existsb_exists in He as (x & Hx & Hxe).
    apply seq_eq in Hxe. subst x. by apply list_elem_of_In.
Qed.

Lemma X20_witness :
  reachable initializeGame
  /\ exists buttons : list (string * bool),
       updateCompass initializeGame = Some buttons
       /\ buttons = [("north", false); ("south", true); ("east", false);
                     ("west", true)]
       /\ processCommand lowRolls "go south" initializeGame
          = ("You can't go south from here.", initializeGame).
Proof.
  split; [exact reachable_init|].
  destruct (X20_compass_enables_the_moves_that_succeed initializeGame
              (roomOf "crash_site" initializeGame) reachable_init)
    as (buttons & Hcompass & _ & Hmoves); try (vm_compute; reflexivity).
  exists buttons. split; [exact Hcompass|].
  assert (Hb : buttons = [("north", false); ("south", true); ("east", false);
                          ("west", true)]).
  { apply (inj Some). rewrite <- Hcompass. vm_compute. reflexivity. }
  split; [exact Hb|].
  apply (Hmoves "south" true lowRolls). rewrite Hb.
  apply list_elem_of_In. simpl. tauto.
Defined.

(** ** The context buttons *)

Lemma button_item_parse (k : string) (i : Item.t) :
  (k, i) ∈ placedItems ->
  action ("take " +:+ Item.name i) = "take"
  /\ target ("take " +:+ Item.name i) = toLowerCase (Item.name i)
  /\ action ("use " +:+ Item.name i) = "use"
  /\ target ("use " +:+ Item.name i) = toLowerCase (Item.name i).
Proof.
  intros H. unfold placedItems in H.
  list_cases H; injection H as -> ->; vm_compute; repeat split.
Qed.

Lemma button_creature_parse (k : string) (c0 : Creature.t) :
  createCreatures !! k = Some c0 ->
  action ("attack " +:+ Creature.name c0) = "attack"
  /\ target ("attack " +:+ Creature.name c0) = toLowerCase (Creature.name c0).
Proof.
  intros H.
  assert (Heq : map_to_list createCreatures
                = ltac:(let l := eval vm_compute in (map_to_list createCreatures)
                        in exact l)) by (vm_compute; reflexivity).
  apply elem_of_map_to_list in H. rewrite Heq in H.
  list_cases H; injection H as -> ->; vm_compute; split; reflexivity.
Qed.

(** The name of an item of the inventory resolves to that item. *)
Lemma find_useMatches_held (g : GameEngine.t) (item : Item.t) :
  stable g -> item ∈ Player.inventory (player g) ->
  find (useMatches (toLowerCase (Item.name item)))
       (Player.inventory (player g)) = Some item.
Proof.
  intros Hst Hin. destruct (stable_inventory g Hst) as [_ Hinv].
  destruct (Hinv item Hin) as [[k Hk] _].
  destruct (find (useMatches (toLowerCase (Item.name item)))
                 (Player.inventory (player g))) as [i'|] eqn:Hfind.
  - apply find_Some_elem in Hfind as [Hin' Hp].
    destruct (Hinv i' Hin') as [[k' Hk'] _].
    f_equal. apply (placedItems_distinct k' k i' item Hk' Hk).
    unfold itemsClash. unfold useMatches in Hp.
    rewrite toLowerCase_idem in Hp.
    apply orb_true_iff in Hp as [Hp|Hp]; rewrite Hp, ?orb_true_r; reflexivity.
  - pose proof (find_None_elem _ _ item Hfind Hin) as Hp.
    unfold useMatches in Hp. rewrite toLowerCase_idem in Hp.
    apply orb_false_iff in Hp as [_ Hp]. apply seq_neq in Hp.
    contradiction.
Qed.

(** The name of a creature of a room resolves to that creature. *)
Lemma getCreatureByName_present (g : GameEngine.t) (r : Room.t) (key : string)
    (c : Creature.t) :
  stable g -> key ∈ Room.creatures r -> creatures g !! key = Some c ->
  Room.getCreatureByName (creatures g) (toLowerCase (Creature.name c)) r
  = Some key.
Proof.
  intros Hst Hin Hc. unfold Room.getCreatureByName.
  destruct (find (Room.hasName (creatures g) (toLowerCase (Creature.name c)))
                 (Room.creatures r)) as [key'|] eqn:Hfind.
  - apply find_Some_elem in Hfind as [Hin' Hp]. unfold Room.hasName in Hp.
    destruct (creatures g !! key') as [c'|] eqn:Hc'; [|discriminate Hp].
    apply seq_eq in Hp. rewrite toLowerCase_idem in Hp.
    destruct (stable_creatures g Hst key' c' Hc') as (c0' & H0' & Hf').
    destruct (stable_creatures g Hst key c Hc) as (c0 & H0 & Hf).
    f_equal. apply (createCreatures_names key' key c0' c0 H0' H0).
    destruct Hf' as (_ & <- & _). destruct Hf as (_ & <- & _). exact Hp.
  - pose proof (find_None_elem _ _ key Hfind Hin) as Hp.
    unfold Room.hasName in Hp. rewrite Hc, toLowerCase_idem in Hp.
    apply seq_neq in Hp. contradiction.
Qed.

(** X21. While the game goes on, each command that [updateContextButtons]
    puts on a button is carried out on the object the button was made for:
    [take <name>] takes that item of the current room, [attack <name>]
    opens the exchange of blows with that creature of the room, and
    [use <name>] calls the [use] method of that item of the inventory. *)
Theorem X21_context_buttons_are_carried_out :
  forall (g : GameEngine.t) (r : Room.t) (randoms : Q * Q) (command : string),
    reachable g ->
    isGameOver g = false ->
    getRoom (Player.currentLocation (player g)) g = Some r ->
    command ∈ updateContextButtons g ->
    (exists (item : Item.t) (r' : Room.t),
       item ∈ Room.items r
       /\ command = "take " +:+ Item.name item
       /\ Room.removeItem (Item.id item) r = (Some item, r')
       /\ processCommand randoms command g
          = ("You take the " +:+ Item.name item +:+ ".", taken item r' g))
    \/ (exists (key : string) (c : Creature.t),
          key ∈ Room.creatures r
          /\ creatures g !! key = Some c
          /\ Creature.isHostile c = true
          /\ command = "attack " +:+ Creature.name c
          /\ Room.getCreatureByName (creatures g) (target command) r = Some key
          /\ processCommand randoms command g
             = (fst (fight randoms r key c g),
                checkGameConditions (snd (fight randoms r key c g))))
    \/ (exists item : Item.t,
          item ∈ Player.inventory (player g)
          /\ Item.isUsable item = true
          /\ command = "use " +:+ Item.name item
          /\ usesItem command g item
          /\ processCommand randoms command g = Item_use item g).
Proof.
  intros g r randoms command Hg Hover Hr Hin.
  pose proof (reachable_invariant g Hg) as Hinv. pose proof Hinv as [Hst _].
  pose proof (invariant_alive g Hinv Hover) as Halive.
  pose proof (stable_rooms g Hst) as Hrooms.
  pose proof Hr as Hr'. unfold getRoom in Hr'.
  unfold updateContextButtons in Hin. rewrite Hr in Hin.
  apply elem_of_app in Hin as [Hin|Hin];
    [|apply elem_of_app in Hin as [Hin|Hin]].
  - (* a take button *)
    apply list_elem_of_In, in_map_iff in Hin as (item & <- & Hitem).
    apply list_elem_of_In in Hitem. left.
    pose proof (room_item_placed _ _ _ _ Hrooms Hr' Hitem) as Hplaced.
    destruct (button_item_parse _ _ Hplaced) as (Ha & Ht & _).
    destruct (placedItems_lowercase _ _ Hplaced) as (_ & _ & Hne).
    destruct (removeItem_item g r item Hrooms Hr Hitem) as [r' Hrem].
    exists item, r'. split; [exact Hitem|]. split; [reflexivity|].
    split; [exact Hrem|].
    assert (Hcase : isCase (action ("take " +:+ Item.name item))
                      ["take"; "get"] = true) by (rewrite Ha; reflexivity).
    assert (Htarget : target ("take " +:+ Item.name item) <> "")
      by (rewrite Ht; exact Hne).
    rewrite processCommand_unfold by exact Hover.
    rewrite (dispatch_take _ _ _ Hcase Htarget).
    rewrite (Player_take_resolve _ _ _ Hr), Ht.
    rewrite (resolveItem_item g r item Hrooms Hr Hitem _ (or_intror eq_refl)).
    rewrite Hrem. cbn [fst snd].
    rewrite checkGameConditions_alive by exact Halive. reflexivity.
  - (* an attack button *)
    apply list_elem_of_In, in_map_iff in Hin as (c & <- & Hc).
    apply filter_In in Hc as [Hc Hflags].
    apply andb_true_iff in Hflags as [Hhostile Hcalive].
    apply list_elem_of_In in Hc. unfold Room.creatureObjects in Hc.
    apply list_elem_of_omap in Hc as (key & Hkey & Hstore).
    right. left.
    destruct (stable_creatures g Hst key c Hstore) as (c0 & H0 & Hf).
    assert (Hname : Creature.name c = Creature.name c0)
      by (destruct Hf as (_ & Hn & _); exact Hn).
    destruct (button_creature_parse _ _ H0) as (Ha & Ht).
    pose proof (createCreatures_name_nonempty _ _ H0) as Hne.
    rewrite <- Hname in Ha, Ht, Hne.
    pose proof (getCreatureByName_present g r key c Hst Hkey Hstore) as Hfound.
    exists key, c. split; [exact Hkey|]. split; [exact Hstore|].
    split; [exact Hhostile|]. split; [reflexivity|].
    split; [rewrite Ht; exact Hfound|].
    assert (Hcase : isCase (action ("attack " +:+ Creature.name c))
                      ["attack"; "fight"; "hit"] = true)
      by (rewrite Ha; reflexivity).
    rewrite processCommand_unfold by exact Hover.
    rewrite (dispatch_attack _ _ _ Hcase), Ht.
    apply seq_neq in Hne. rewrite Hne.
    rewrite (Player_attack_fight _ _ _ r key c Hr Hfound Hstore Hcalive
               Hhostile).
    reflexivity.
  - (* a use button *)
    apply list_elem_of_In, in_map_iff in Hin as (item & <- & Hitem).
    apply filter_In in Hitem as [Hitem Husable].
    apply list_elem_of_In in Hitem. right. right.
    destruct (stable_inventory g Hst) as [_ Hheld].
    destruct (Hheld item Hitem) as [[k Hplaced] _].
    destruct (button_item_parse _ _ Hplaced) as (_ & _ & Ha & Ht).
    destruct (placedItems_lowercase _ _ Hplaced) as (_ & _ & Hne).
    pose proof (find_useMatches_held g item Hst Hitem) as Hfind.
    assert (Huses : usesItem ("use " +:+ Item.name item) g item).
    { split; [exact Ha|]. rewrite Ht. split; [exact Hne|exact Hfind]. }
    exists item. split; [exact Hitem|]. split; [exact Husable|].
    split; [reflexivity|]. split; [exact Huses|].
    destruct (processCommand_use randoms _ g item Hg Hover Huses)
      as (_ & -> & Huse).
    destruct (Player_use_frame (target ("use " +:+ Item.name item)) g)
      as (_ & _ & _ & _ & Hsame & _).
    rewrite checkGameConditions_alive by (rewrite Hsame; exact Halive).
    rewrite Huse, Husable. cbn [negb].
    destruct (Item_use item g). reflexivity.
Qed.

Lemma X21_witness :
  reachable woundedWithBar
  /\ updateContextButtons woundedWithBar
     = ["take Medkit"; "attack Xenomorph"; "use Flashlight"; "use Energy Bar"]
  /\ fst (processCommand lowRolls "take Medkit" woundedWithBar)
     = "You take the Medkit.".
Proof.
  assert (Hbuttons : updateContextButtons woundedWithBar
                     = ["take Medkit"; "attack Xenomorph"; "use Flashlight";
                        "use Energy Bar"]) by (vm_compute; reflexivity).
  assert (Hover : isGameOver woundedWithBar = false)
    by (vm_compute; reflexivity).
  assert (Hr : getRoom (Player.currentLocation (player woundedWithBar))
                 woundedWithBar
               = Some (roomOf "alien_forest" woundedWithBar))
    by (vm_compute; reflexivity).
  assert (Hin : "take Medkit" ∈ updateContextButtons woundedWithBar).
  { rewrite Hbuttons. apply list_elem_of_In. simpl. tauto. }
  split; [exact reachable_woundedWithBar|]. split; [exact Hbuttons|].
  destruct (X21_context_buttons_are_carried_out woundedWithBar
              (roomOf "alien_forest" woundedWithBar) lowRolls "take Medkit"
              reachable_woundedWithBar Hover Hr Hin)
    as [(item & r' & _ & Hcmd & _ & Hdone)
       |[(key & c & _ & _ & _ & Hcmd & _)|(item & _ & _ & Hcmd & _)]].
  - rewrite Hdone. cbn [fst]. cbn in Hcmd. injection Hcmd as Hname.
    change ("Medkit" = Item.name item) in Hname. rewrite <- Hname.
    reflexivity.
  - cbn in Hcmd. discriminate Hcmd.
  - cbn in Hcmd. discriminate Hcmd.
Defined.

(** ** Adding to a room and removing from it *)

Lemma spliceFirst_first {A : Type} (p : A -> bool) (l : list A) (x : A)
    (rest : list A) :
  spliceFirst p l = Some (x, rest) ->
  exists before after : list A,
    l = (before ++ x :: after)%list /\ rest = (before ++ after)%list
    /\ p x = true /\ forall y, y ∈ before -> p y = false.
Proof.
  revert rest. induction l as [|y l IH]; simpl; intros rest; [discriminate|].
  destruct (p y) eqn:Hy.
  - intros [= -> ->]. exists [], rest. repeat split; [exact Hy|].
    intros z Hz. apply elem_of_nil in Hz. contradiction.
  - destruct (spliceFirst p l) as [[z r]|] eqn:Hs; [|discriminate].
    intros [= -> <-].
    destruct (IH r eq_refl) as (before & after & -> & -> & Hp & Hbefore).
    exists (y :: before), after. repeat split; [exact Hp|].
    intros w Hw. apply elem_of_cons in Hw as [->|Hw];
      [exact Hy|exact (Hbefore w Hw)].
Qed.

Lemma spliceFirst_pushed {A : Type} (p : A -> bool) (l : list A) (x : A) :
  (forall y, y ∈ l -> p y = false) -> p x = true ->
  spliceFirst p (l ++ [x]) = Some (x, l).
Proof.
  intros Hl Hx. induction l as [|y l IH]; simpl; [rewrite Hx; reflexivity|].
  rewrite (Hl y) by left. rewrite IH; [reflexivity|].
  intros z Hz. apply Hl. right. exact Hz.
Qed.

(** X22. [removeItem] removes the first item of the room that has the id,
    and only that one: the items before it do not have the id, and the
    others stay in their order; when no item has the id it returns [null]
    and leaves the room as it was.  It undoes [addItem] of an item whose id
    no item of the room has. *)
Theorem X22_removeItem_takes_the_first_match :
  (forall (itemId : string) (r : Room.t),
     match Room.removeItem itemId r with
     | (Some item, r') =>
         exists before after : list Item.t,
           Room.items r = (before ++ item :: after)%list
           /\ Item.id item = itemId
           /\ (forall j, j ∈ before -> Item.id j <> itemId)
           /\ r' = Room.setItems (before ++ after) r
     | (None, r') =>
         r' = r /\ forall j, j ∈ Room.items r -> Item.id j <> itemId
     end)
  /\ (forall (item : Item.t) (r : Room.t),
        (forall j, j ∈ Room.items r -> Item.id j <> Item.id item) ->
        Room.removeItem (Item.id item) (Room.addItem item r) = (Some item, r)).
Proof.
  split.
  - intros itemId r. unfold Room.removeItem.
    destruct (spliceFirst (fun item => seq (Item.id item) itemId)
                (Room.items r)) as [[item rest]|] eqn:Hs.
    + destruct (spliceFirst_first _ _ _ _ Hs)
        as (before & after & Hl & -> & Hp & Hbefore).
      exists before, after. split; [exact Hl|].
      split; [by apply seq_eq|]. split; [|reflexivity].
      intros j Hj. apply seq_neq. exact (Hbefore j Hj).
    + split; [reflexivity|]. intros j Hj. apply seq_neq.
      exact (spliceFirst_None _ _ j Hs Hj).
  - intros item r Hfresh. unfold Room.removeItem, Room.addItem.
    cbn [Room.items Room.setItems].
    rewrite spliceFirst_pushed.
    + destruct r; reflexivity.
    + intros j Hj. apply seq_neq. exact (Hfresh j Hj).
    + apply seq_eq. reflexivity.
Qed.

Lemma X22_witness :
  (forall j, j ∈ Room.items (roomOf "crash_site" initializeGame) ->
             Item.id j <> Item.id (itemOf "medkit"))
  /\ Room.removeItem "medkit"
       (Room.addItem (itemOf "medkit") (roomOf "crash_site" initializeGame))
     = (Some (itemOf "medkit"), roomOf "crash_site" initializeGame).
Proof.
  assert (Hfresh : forall j,
            j ∈ Room.items (roomOf "crash_site" initializeGame) ->
            Item.id j <> Item.id (itemOf "medkit")).
  { intros j Hj.
    assert (Hitems : Room.items (roomOf "crash_site" initializeGame)
                     = [itemOf "flashlight"; itemOf "energy_bar"])
      by (vm_compute; reflexivity).
    rewrite Hitems in Hj. list_cases Hj; subst j; vm_compute; discriminate. }
  split; [exact Hfresh|].
  exact (proj2 X22_removeItem_takes_the_first_match (itemOf "medkit")
           (roomOf "crash_site" initializeGame) Hfresh).
Defined.

(** ** What each verb can change *)

Lemma sameInRooms_same {A : Type} (f : Room.t -> A) (g g' : GameEngine.t) :
  rooms g' = rooms g -> sameInRooms f g g'.
Proof. intros Hr k. rewrite Hr. reflexivity. Qed.

Lemma sameInRooms_insert {A : Type} (f : Room.t -> A) (g g' : GameEngine.t)
    (key : string) (r r' : Room.t) :
  rooms g' = <[key := r']> (rooms g) ->
  rooms g !! key = Some r -> f r' = f r ->
  sameInRooms f g g'.
Proof.
  intros Hr Hkey Hf k. rewrite Hr, lookup_insert.
  destruct (decide (key = k)) as [<-|Hne]; [|reflexivity].
  rewrite Hkey. cbn. rewrite Hf. reflexivity.
Qed.

Lemma dispatch_cases (randoms : Q * Q) (command : string) (g : GameEngine.t) :
  (exists reply, dispatch randoms command g = (reply, g))
  \/ (isCase (action command) ["go"; "move"; "walk"] = true
      /\ dispatch randoms command g = Player_move (target command) g)
  \/ (isCase (action command) ["take"; "get"] = true
      /\ dispatch randoms command g = Player_take (target command) g)
  \/ (isCase (action command) ["use"] = true
      /\ dispatch randoms command g = Player_use (target command) g)
  \/ (isCase (action command) ["attack"; "fight"; "hit"] = true
      /\ dispatch randoms command g
         = Player_attack randoms (target command) g).
Proof.
  unfold dispatch.
  destruct (isCase (action command) ["go"; "move"; "walk"]).
  { destruct (seq (target command) ""); [left; eauto|right; left; by split]. }
  destruct (isCase (action command) ["look"; "l"]).
  { destruct (getRoom _ g); left; eauto. }
  destruct (isCase (action command) ["take"; "get"]).
  { destruct (seq (target command) "");
      [left; eauto|right; right; left; by split]. }
  destruct (isCase (action command) ["use"]).
  { destruct (seq (target command) "");
      [left; eauto|right; right; right; left; by split]. }
  destruct (isCase (action command) ["attack"; "fight"; "hit"]).
  { destruct (seq (target command) "");
      [left; eauto|right; right; right; right; by split]. }
  destruct (isCase (action command) ["inventory"; "inv"; "i"]);
    [left; eauto|].
  destruct (isCase (action command) ["status"; "health"; "hp"]);
    [left; eauto|].
  destruct (isCase (action command) ["help"; "h"; "?"]); left; eauto.
Qed.

Lemma Player_move_rooms (direction : string) (g : GameEngine.t) :
  Player.inventory (player (snd (Player_move direction g)))
  = Player.inventory (player g)
  /\ sameInRooms Room.items g (snd (Player_move direction g))
  /\ sameInRooms Room.creatures g (snd (Player_move direction g)).
Proof.
  unfold Player_move.
  destruct (getRoom (Player.currentLocation (player g)) g) as [r|];
    [|by repeat split; apply sameInRooms_same].
  destruct (getProperty _ _) as [next|];
    [|by repeat split; apply sameInRooms_same].
  destruct (truthy next); cbn [negb];
    [|by repeat split; apply sameInRooms_same].
  destruct (getRoom next _) as [nextRoom|] eqn:Hnext;
    [|by repeat split; apply sameInRooms_same].
  cbn [snd]. unfold getRoom in Hnext. cbn in Hnext.
  split; [reflexivity|].
  split;
    (eapply (sameInRooms_insert _ _ _ (toPropertyKey next) nextRoom);
     [reflexivity|exact Hnext|]);
    destruct (Room.isVisited nextRoom); reflexivity.
Qed.

Lemma removeItem_frame (itemId : string) (r : Room.t) :
  Room.creatures (snd (Room.removeItem itemId r)) = Room.creatures r
  /\ Room.isVisited (snd (Room.removeItem itemId r)) = Room.isVisited r.
Proof.
  unfold Room.removeItem.
  destruct (spliceFirst _ _) as [[item rest]|]; split; reflexivity.
Qed.

Lemma Player_take_frame (itemId : string) (g : GameEngine.t) :
  Player.currentLocation (player (snd (Player_take itemId g)))
  = Player.currentLocation (player g)
  /\ Player.health (player (snd (Player_take itemId g)))
     = Player.health (player g)
  /\ creatures (snd (Player_take itemId g)) = creatures g
  /\ sameInRooms Room.creatures g (snd (Player_take itemId g))
  /\ sameInRooms Room.isVisited g (snd (Player_take itemId g)).
Proof.
  destruct (Player_take_cases itemId g)
    as [->|(r & r' & itemId' & item & Hr & Hrem & ->)];
    [by repeat split; apply sameInRooms_same|].
  destruct (removeItem_frame itemId' r) as [Hcr Hvis].
  rewrite Hrem in Hcr, Hvis. cbn [snd] in Hcr, Hvis |- *.
  unfold getRoom in Hr.
  repeat split;
    eapply (sameInRooms_insert _ _ _ _ r r'); try reflexivity; assumption.
Qed.

Lemma Player_attack_frame (randoms : Q * Q) (name : string)
    (g : GameEngine.t) :
  Player.currentLocation (player (snd (Player_attack randoms name g)))
  = Player.currentLocation (player g)
  /\ Player.inventory (player (snd (Player_attack randoms name g)))
     = Player.inventory (player g)
  /\ sameInRooms Room.items g (snd (Player_attack randoms name g))
  /\ sameInRooms Room.isVisited g (snd (Player_attack randoms name g)).
Proof.
  destruct (Player_attack_cases randoms name g)
    as [(msg & -> & _)|(r & key & c & Hr & _ & _ & _ & _ & ->)];
    [by repeat split; apply sameInRooms_same|].
  unfold fight. unfold getRoom in Hr.
  destruct (fst (Creature.takeDamage _ c)); cbn [snd].
  - match goal with
    | |- context [Room.removeCreature ?cs ?i r] =>
        destruct (removeCreature_items cs i r) as [Hitems Hvis]
    end.
    repeat split;
      eapply (sameInRooms_insert _ _ _ _ r); try reflexivity; assumption.
  - destruct (Creature_attack_frame (snd randoms)
                (snd (Creature.takeDamage (playerDamageRoll (fst randoms)) c))
                (player g)) as (Hinv & Hloc & _).
    split; [exact Hloc|]. split; [exact Hinv|].
    split; by apply sameInRooms_same.
Qed.

Lemma Player_use_rooms (itemId : string) (g : GameEngine.t) :
  sameInRooms Room.isVisited g (snd (Player_use itemId g))
  /\ sameInRooms Room.items g (snd (Player_use itemId g))
  /\ sameInRooms Room.creatures g (snd (Player_use itemId g)).
Proof.
  destruct (Player_use_frame itemId g) as (Hr & _).
  repeat split; by apply sameInRooms_same.
Qed.

Lemma dispatch_frame (randoms : Q * Q) (command : string) (g : GameEngine.t) :
  (isCase (action command) ["go"; "move"; "walk"] = false ->
   Player.currentLocation (player (snd (dispatch randoms command g)))
   = Player.currentLocation (player g)
   /\ sameInRooms Room.isVisited g (snd (dispatch randoms command g)))
  /\ (isCase (action command) ["take"; "get"] = false ->
      Player.inventory (player (snd (dispatch randoms command g)))
      = Player.inventory (player g)
      /\ sameInRooms Room.items g (snd (dispatch randoms command g)))
  /\ (isCase (action command) ["attack"; "fight"; "hit"] = false ->
      creatures (snd (dispatch randoms command g)) = creatures g
      /\ sameInRooms Room.creatures g (snd (dispatch randoms command g)))
  /\ (isCase (action command) ["attack"; "fight"; "hit"] = false ->
      action command <> "use" ->
      Player.health (player (snd (dispatch randoms command g)))
      = Player.health (player g))
  /\ (action command <> "use" ->
      isWin (snd (dispatch randoms command g)) = isWin g).
Proof.
  destruct (dispatch_cases randoms command g)
    as [[reply ->]|[[Ha ->]|[[Ha ->]|[[Ha ->]|[Ha ->]]]]].
  - cbn [snd].
    repeat split; intros; try reflexivity; by apply sameInRooms_same.
  - destruct (Player_move_flags (target command) g)
      as (_ & Hwin & _ & Hhealth & _ & Hcs).
    destruct (Player_move_rooms (target command) g) as (Hinv & Hitems & Hcr).
    split; [intros Hn; rewrite Ha in Hn; discriminate Hn|].
    split; [intros _; by split|]. split; [intros _; by split|].
    split; [intros _ _; exact Hhealth|]. intros _. exact Hwin.
  - destruct (Player_take_flags (target command) g) as (Hwin & _).
    destruct (Player_take_frame (target command) g)
      as (Hloc & Hhealth & Hcs & Hcr & Hvis).
    split; [intros _; by split|].
    split; [intros Hn; rewrite Ha in Hn; discriminate Hn|].
    split; [intros _; by split|].
    split; [intros _ _; exact Hhealth|]. intros _. exact Hwin.
  - apply isCase_use in Ha.
    destruct (Player_use_frame (target command) g)
      as (_ & Hcs & Hinv & Hloc & _).
    destruct (Player_use_rooms (target command) g) as (Hvis & Hitems & Hcr).
    split; [intros _; by split|]. split; [intros _; by split|].
    split; [intros _; by split|].
    split; [intros _ Hn; contradiction|]. intros Hn. contradiction.
  - destruct (Player_attack_flags randoms (target command) g) as (Hwin & _).
    destruct (Player_attack_frame randoms (target command) g)
      as (Hloc & Hinv & Hitems & Hvis).
    split; [intros _; by split|]. split; [intros _; by split|].
    split; [intros Hn; rewrite Ha in Hn; discriminate Hn|].
    split; [intros Hn; rewrite Ha in Hn; discriminate Hn|].
    intros _. exact Hwin.
Qed.

(** X23. Each verb changes its own part of the state and nothing else.
    Only go, move and walk change the location and the visited marks of
    the rooms; only take and get change the inventory and the items of the
    rooms; only attack, fight and hit change the creatures and the
    creature lists of the rooms; only these three and use change the
    health of the player; only use changes the win flag. *)
Theorem X23_each_verb_changes_its_own_part :
  forall (g : GameEngine.t) (randoms : Q * Q) (command : string),
    (isCase (action command) ["go"; "move"; "walk"] = false ->
     Player.currentLocation (player (snd (processCommand randoms command g)))
     = Player.currentLocation (player g)
     /\ sameInRooms Room.isVisited g (snd (processCommand randoms command g)))
    /\ (isCase (action command) ["take"; "get"] = false ->
        Player.inventory (player (snd (processCommand randoms command g)))
        = Player.inventory (player g)
        /\ sameInRooms Room.items g (snd (processCommand randoms command g)))
    /\ (isCase (action command) ["attack"; "fight"; "hit"] = false ->
        creatures (snd (processCommand randoms command g)) = creatures g
        /\ sameInRooms Room.creatures g
             (snd (processCommand randoms command g)))
    /\ (isCase (action command) ["attack"; "fight"; "hit"] = false ->
        action command <> "use" ->
        Player.health (player (snd (processCommand randoms command g)))
        = Player.health (player g))
    /\ (action command <> "use" ->
        isWin (snd (processCommand randoms command g)) = isWin g).
Proof.
  intros g randoms command.
  destruct (isGameOver g) eqn:Hover.
  { rewrite processCommand_gameOver by exact Hover. cbn [snd].
    repeat split; intros; try reflexivity; by apply sameInRooms_same. }
  rewrite processCommand_unfold by exact Hover. cbn [snd].
  destruct (checkGameConditions_world (snd (dispatch randoms command g)))
    as (Hr & Hc & _).
  destruct (checkGameConditions_player (snd (dispatch randoms command g)))
    as [Hp _].
  unfold sameInRooms.
  rewrite Hp, Hr, Hc, checkGameConditions_isWin.
  exact (dispatch_frame randoms command g).
Qed.

Lemma X23_witness :
  isCase (action "take medkit") ["go"; "move"; "walk"] = false
  /\ isCase (action "take medkit") ["attack"; "fight"; "hit"] = false
  /\ action "take medkit" <> "use"
  /\ Player.currentLocation
       (player (snd (processCommand lowRolls "take medkit" inForest)))
     = Player.currentLocation (player inForest)
  /\ creatures (snd (processCommand lowRolls "take medkit" inForest))
     = creatures inForest
  /\ Player.health
       (player (snd (processCommand lowRolls "take medkit" inForest)))
     = Player.health (player inForest)
  /\ isWin (snd (processCommand lowRolls "take medkit" inForest))
     = isWin inForest.
Proof.
  assert (Hgo : isCase (action "take medkit") ["go"; "move"; "walk"] = false)
    by (vm_compute; reflexivity).
  assert (Hattack : isCase (action "take medkit") ["attack"; "fight"; "hit"]
                    = false) by (vm_compute; reflexivity).
  assert (Huse : action "take medkit" <> "use")
    by (vm_compute; discriminate).
  destruct (X23_each_verb_changes_its_own_part inForest lowRolls "take medkit")
    as (Hloc & _ & Hcs & Hhealth & Hwin).
  split; [exact Hgo|]. split; [exact Hattack|]. split; [exact Huse|].
  split; [exact (proj1 (Hloc Hgo))|]. split; [exact (proj1 (Hcs Hattack))|].
  split; [exact (Hhealth Hattack Huse)|]. exact (Hwin Huse).
Defined.

(** ** Nothing comes back *)

Lemma roomWears_refl (r : Room.t) : roomWears r r.
Proof. by repeat split. Qed.

Lemma roomWears_trans (r1 r2 r3 : Room.t) :
  roomWears r1 r2 -> roomWears r2 r3 -> roomWears r1 r3.
Proof.
  intros (Hi & Hc & Hv) (Hi' & Hc' & Hv').
  split; [by etransitivity|]. split; [by etransitivity|]. auto.
Qed.

Lemma wearsDown_same (g g' : GameEngine.t) :
  creatures g' = creatures g -> rooms g' = rooms g ->
  Player.inventory (player g') = Player.inventory (player g) ->
  wearsDown g g'.
Proof.
  intros Hc Hr Hi. split; [|split].
  - intros key c Hkey. exists c. rewrite Hc. repeat split; [exact Hkey|lia].
  - intros k r Hk. exists r. rewrite Hr. split; [exact Hk|apply roomWears_refl].
  - rewrite Hi. reflexivity.
Qed.

Lemma wearsDown_room (g g' : GameEngine.t) (key : string) (r r' : Room.t) :
  creatures g' = creatures g ->
  rooms g' = <[key := r']> (rooms g) ->
  rooms g !! key = Some r -> roomWears r r' ->
  Player.inventory (player g) `prefix_of` Player.inventory (player g') ->
  wearsDown g g'.
Proof.
  intros Hc Hr Hkey Hwears Hi. split; [|split; [|exact Hi]].
  - intros key0 c Hkey0. exists c. rewrite Hc. repeat split; [exact Hkey0|lia].
  - intros k r1 Hk. rewrite Hr, lookup_insert.
    destruct (decide (key = k)) as [<-|Hne].
    + exists r'. split; [reflexivity|].
      assert (r1 = r) as -> by congruence. exact Hwears.
    + exists r1. split; [exact Hk|apply roomWears_refl].
Qed.

Lemma wearsDown_trans (g1 g2 g3 : GameEngine.t) :
  wearsDown g1 g2 -> wearsDown g2 g3 -> wearsDown g1 g3.
Proof.
  intros (Hc & Hr & Hi) (Hc' & Hr' & Hi'). split; [|split].
  - intros key c Hkey. destruct (Hc key c Hkey) as (c2 & Hc2 & Hle & Hdead).
    destruct (Hc' key c2 Hc2) as (c3 & Hc3 & Hle' & Hdead').
    exists c3. split; [exact Hc3|]. split; [lia|].
    intros Hd. rewrite <- (Hdead Hd). apply Hdead'.
    rewrite (Hdead Hd). exact Hd.
  - intros k r Hk. destruct (Hr k r Hk) as (r2 & Hr2 & Hw).
    destruct (Hr' k r2 Hr2) as (r3 & Hr3 & Hw').
    exists r3. split; [exact Hr3|]. by apply (roomWears_trans r r2 r3).
  - by etransitivity.
Qed.

Lemma Player_move_wears (direction : string) (g : GameEngine.t) :
  wearsDown g (snd (Player_move direction g)).
Proof.
  unfold Player_move.
  destruct (getRoom (Player.currentLocation (player g)) g) as [r|];
    [|by apply wearsDown_same].
  destruct (getProperty _ _) as [next|]; [|by apply wearsDown_same].
  destruct (truthy next); cbn [negb]; [|by apply wearsDown_same].
  destruct (getRoom next _) as [nextRoom|] eqn:Hnext;
    [|by apply wearsDown_same].
  cbn [snd]. unfold getRoom in Hnext. cbn in Hnext.
  eapply (wearsDown_room _ _ (toPropertyKey next) nextRoom);
    [reflexivity|reflexivity|exact Hnext| |reflexivity].
  destruct (Room.isVisited nextRoom) eqn:Hv; cbn [negb].
  - apply roomWears_refl.
  - repeat split; try reflexivity.
Qed.

Lemma Player_take_wears (itemId : string) (g : GameEngine.t) :
  wearsDown g (snd (Player_take itemId g)).
Proof.
  destruct (Player_take_cases itemId g)
    as [->|(r & r' & itemId' & item & Hr & Hrem & ->)];
    [by apply wearsDown_same|].
  destruct (removeItem_Some _ _ _ _ Hrem)
    as (_ & _ & (_ & _ & _ & _ & _ & Hitems & Hcs) & _).
  destruct (removeItem_frame itemId' r) as [_ Hvis]. rewrite Hrem in Hvis.
  cbn [snd] in Hvis |- *. unfold getRoom in Hr.
  eapply (wearsDown_room _ _ _ r r'); [reflexivity|reflexivity|exact Hr| |].
  - split; [exact Hitems|]. split; [exact Hcs|]. rewrite Hvis. auto.
  - exists [item]. reflexivity.
Qed.

Lemma removeCreature_wears (cs : gmap string Creature.t) (creatureId : string)
    (r : Room.t) :
  roomWears r (snd (Room.removeCreature cs creatureId r)).
Proof.
  unfold Room.removeCreature.
  destruct (spliceFirst _ _) as [[k rest]|] eqn:Hs; [|apply roomWears_refl].
  destruct (spliceFirst_Some _ _ _ _ Hs) as (_ & _ & Hsub & _).
  split; [reflexivity|]. split; [exact Hsub|]. auto.
Qed.

Lemma fight_wears (randoms : Q * Q) (r : Room.t) (key : string)
    (c : Creature.t) (g : GameEngine.t) :
  stable g -> validRandoms randoms ->
  getRoom (Player.currentLocation (player g)) g = Some r ->
  creatures g !! key = Some c -> Creature.isAlive c = true ->
  wearsDown g (snd (fight randoms r key c g)).
Proof.
  intros Hst [Hr1 _] Hr Hc Hcalive.
  pose proof (playerDamageRoll_range _ Hr1) as Hroll.
  destruct (stable_creatures g Hst key c Hc) as (c0 & _ & Hfrom).
  assert (Hroll0 : 0 <= playerDamageRoll (fst randoms)) by lia.
  destruct (Creature_takeDamage_from _ c0 c Hroll0 Hfrom Hcalive)
    as (_ & _ & Hhealth).
  destruct Hfrom as (_ & _ & _ & _ & _ & _ & Hrange & _).
  assert (Hstore : forall key0 c1, creatures g !! key0 = Some c1 ->
            exists c',
              <[key := snd (Creature.takeDamage
                              (playerDamageRoll (fst randoms)) c)]>
                (creatures g) !! key0 = Some c'
              /\ Creature.health c' <= Creature.health c1
              /\ (Creature.isAlive c1 = false -> c' = c1)).
  { intros key0 c1 Hkey0. rewrite lookup_insert.
    destruct (decide (key = key0)) as [<-|Hne].
    - assert (c1 = c) as -> by congruence.
      eexists. split; [reflexivity|]. split; [rewrite Hhealth; lia|].
      intros Hd. rewrite Hd in Hcalive. discriminate Hcalive.
    - exists c1. repeat split; [exact Hkey0|lia]. }
  unfold fight. unfold getRoom in Hr.
  destruct (fst (Creature.takeDamage _ c)); cbn [snd].
  - split; [exact Hstore|]. split; [|reflexivity].
    intros k r1 Hk. cbn. rewrite lookup_insert.
    destruct (decide (toPropertyKey (Player.currentLocation (player g)) = k))
      as [<-|Hne].
    + eexists. split; [reflexivity|].
      assert (r1 = r) as -> by congruence. apply removeCreature_wears.
    + exists r1. split; [exact Hk|apply roomWears_refl].
  - split; [exact Hstore|]. split.
    + intros k r1 Hk. exists r1. split; [exact Hk|apply roomWears_refl].
    + cbn. destruct (Creature_attack_frame (snd randoms)
                       (snd (Creature.takeDamage
                               (playerDamageRoll (fst randoms)) c))
                       (player g)) as (-> & _).
      reflexivity.
Qed.

Lemma processCommand_wears (randoms : Q * Q) (command : string)
    (g : GameEngine.t) :
  reachable g -> validRandoms randoms ->
  wearsDown g (snd (processCommand randoms command g)).
Proof.
  intros Hg Hrandoms. destruct (reachable_invariant g Hg) as [Hst _].
  destruct (isGameOver g) eqn:Hover.
  { rewrite processCommand_gameOver by exact Hover. by apply wearsDown_same. }
  rewrite processCommand_unfold by exact Hover. cbn [snd].
  apply (wearsDown_trans _ (snd (dispatch randoms command g))).
  - destruct (dispatch_cases randoms command g)
      as [[reply ->]|[[_ ->]|[[_ ->]|[[_ ->]|[_ ->]]]]].
    + by apply wearsDown_same.
    + apply Player_move_wears.
    + apply Player_take_wears.
    + destruct (Player_use_frame (target command) g) as (Hr & Hc & Hi & _).
      by apply wearsDown_same.
    + destruct (Player_attack_cases randoms (target command) g)
        as [(msg & -> & _)|(r & key & c & Hr & _ & Hc & Hcalive & _ & ->)];
        [by apply wearsDown_same|].
      by apply fight_wears.
  - destruct (checkGameConditions_world (snd (dispatch randoms command g)))
      as (Hr & Hc & _).
    destruct (checkGameConditions_player (snd (dispatch randoms command g)))
      as [Hp _].
    apply wearsDown_same; [exact Hc|exact Hr|]. rewrite Hp. reflexivity.
Qed.

Lemma processCommands_wears (inputs : list (Q * Q * string))
    (g : GameEngine.t) :
  reachable g -> Forall (fun i => validRandoms (fst i)) inputs ->
  wearsDown g (snd (processCommands inputs g)).
Proof.
  revert g. induction inputs as [|[randoms command] rest IH]; intros g Hg Hv.
  - by apply wearsDown_same.
  - inversion Hv as [|? ? Hr Hrest]; subst. simpl in Hr.
    pose proof (reachable_step g randoms command Hg Hr) as Hstep.
    pose proof (processCommand_wears randoms command g Hg Hr) as Hfirst.
    specialize (IH _ Hstep Hrest).
    simpl. destruct (processCommand randoms command g) as [out g1].
    simpl in *. destruct (processCommands rest g1) as [outs g2].
    simpl in *. by apply (wearsDown_trans g g1 g2).
Qed.

(** X24. Nothing comes back.  Whatever commands are processed from a
    reachable state with values of [Math.random()] in [0, 1): every
    creature of the store is still there with a health that is not higher,
    and a dead creature is exactly as it was; every room is still there,
    its items and creatures are what is left of the former ones in the
    same order, and a visited room is still visited; and the inventory is
    the former one with the new items at its end. *)
Theorem X24_nothing_comes_back :
  forall (g : GameEngine.t) (inputs : list (Q * Q * string)),
    reachable g ->
    Forall (fun i => validRandoms (fst i)) inputs ->
    (forall (key : string) (c : Creature.t),
       creatures g !! key = Some c ->
       exists c' : Creature.t,
         creatures (snd (processCommands inputs g)) !! key = Some c'
         /\ Creature.health c' <= Creature.health c
         /\ (Creature.isAlive c = false -> c' = c))
    /\ (forall (k : string) (r : Room.t),
          rooms g !! k = Some r ->
          exists r' : Room.t,
            rooms (snd (processCommands inputs g)) !! k = Some r'
            /\ Room.items r' `sublist_of` Room.items r
            /\ Room.creatures r' `sublist_of` Room.creatures r
            /\ (Room.isVisited r = true -> Room.isVisited r' = true))
    /\ Player.inventory (player g)
       `prefix_of` Player.inventory (player (snd (processCommands inputs g))).
Proof.
  intros g inputs Hg Hv. exact (processCommands_wears inputs g Hg Hv).
Qed.

Lemma X24_witness :
  reachable xenomorphWeak
  /\ Forall (fun i => validRandoms (fst i))
       [(highRolls, "fight xenomorph"); (lowRolls, "take medkit")]
  /\ creatures xenomorphWeak !! "xenomorph"
     = Some (creatureOf "xenomorph" xenomorphWeak)
  /\ exists c' : Creature.t,
       creatures
         (snd (processCommands
                 [(highRolls, "fight xenomorph"); (lowRolls, "take medkit")]
                 xenomorphWeak)) !! "xenomorph" = Some c'
       /\ Creature.health c'
          <= Creature.health (creatureOf "xenomorph" xenomorphWeak).
Proof.
  assert (Hv : Forall (fun i : Q * Q * string => validRandoms (fst i))
                 [(highRolls, "fight xenomorph"); (lowRolls, "take medkit")]).
  { constructor; [exact validRandoms_highRolls|].
    constructor; [exact validRandoms_lowRolls|]. constructor. }
  assert (Hc : creatures xenomorphWeak !! "xenomorph"
               = Some (creatureOf "xenomorph" xenomorphWeak))
    by (vm_compute; reflexivity).
  split; [exact reachable_xenomorphWeak|]. split; [exact Hv|].
  split; [exact Hc|].
  destruct (X24_nothing_comes_back xenomorphWeak _ reachable_xenomorphWeak Hv)
    as (Hstore & _).
  destruct (Hstore "xenomorph" _ Hc) as (c' & Hc' & Hle & _).
  exists c'. by split.
Defined.

(** ** The input field *)

Lemma trimStart_clean (s : string) : startsClean (trimStart s) = true.
Proof.
  induction s as [|c s IH]; [reflexivity|]. simpl.
  destruct (isWhite c) eqn:Hc; [exact IH|]. simpl. rewrite Hc. reflexivity.
Qed.

Lemma trimStart_of_clean (s : string) :
  startsClean s = true -> trimStart s = s.
Proof.
  destruct s as [|c s]; [reflexivity|]. simpl.
  destruct (isWhite c); [discriminate|reflexivity].
Qed.

Lemma trimEnd_clean (s : string) :
  startsClean s = true -> startsClean (trimEnd s) = true.
Proof.
  destruct s as [|c s]; [reflexivity|]. simpl. intros Hc.
  destruct (trimEnd s); [|exact Hc].
  destruct (isWhite c) eqn:Hw; [reflexivity|]. simpl. rewrite Hw.
  reflexivity.
Qed.

Lemma trimEnd_idem (s : string) : trimEnd (trimEnd s) = trimEnd s.
Proof.
  induction s as [|c s IH]; [reflexivity|]. simpl.
  destruct (trimEnd s) as [|d e] eqn:He.
  - destruct (isWhite c) eqn:Hc; [reflexivity|]. simpl. rewrite Hc.
    reflexivity.
  - change (trimEnd (String c (String d e))) with
      (match trimEnd (String d e) with
       | EmptyString =>
           if isWhite c then EmptyString else String c EmptyString
       | t => String c t
       end).
    rewrite IH. reflexivity.
Qed.

Lemma trim_idem (s : string) : trim (trim s) = trim s.
Proof.
  unfold trim.
  rewrite (trimStart_of_clean (trimEnd (trimStart s))).
  - apply trimEnd_idem.
  - apply trimEnd_clean, trimStart_clean.
Qed.

(** X25. The input field hands the trimmed text to the engine, and nothing
    when the text is blank.  The state that results is the one of
    [processCommand] on the text as typed, and so is the reply when the
    verb is in the vocabulary; when it is not, the not-understood reply
    quotes the trimmed text. *)
Theorem X25_input_field_trims_and_skips_blanks :
  forall (g : GameEngine.t) (randoms : Q * Q) (value : string),
    (submitCommand randoms value g = None <-> trim value = "")
    /\ (trim value <> "" ->
        exists reply : string,
          submitCommand randoms value g
          = Some (reply, snd (processCommand randoms value g))
          /\ (isVerb (action value) = true ->
              reply = fst (processCommand randoms value g))
          /\ (isVerb (action value) = false -> isGameOver g = false ->
              reply = "I don't understand '" +:+ trim value
                      +:+ "'. Type 'help' for available commands.")).
Proof.
  intros g randoms value. unfold submitCommand.
  destruct (trim value) as [|c rest] eqn:Htrim.
  { split; [by split|]. intros Hne. contradiction. }
  change (truthy (JsStr (String c rest))) with true. cbv iota.
  split; [split; intros H; discriminate H|]. intros _. rewrite <- Htrim.
  destruct (processCommand_same_text randoms (trim value) value g)
    as (Ha & Hstate & Hreply).
  { rewrite trim_idem. reflexivity. }
  exists (fst (processCommand randoms (trim value) g)).
  split; [rewrite <- Hstate; by destruct (processCommand randoms (trim value) g)|].
  split.
  - intros Hverb. rewrite <- Ha in Hverb. rewrite (Hreply Hverb). reflexivity.
  - intros Hverb Hover. rewrite <- Ha in Hverb.
    unfold processCommand. rewrite Hover.
    rewrite (dispatch_not_understood _ _ _ Hverb). reflexivity.
Qed.

Lemma X25_witness :
  trim "  xyzzy " <> ""
  /\ isVerb (action "  xyzzy ") = false
  /\ isGameOver initializeGame = false
  /\ exists reply : string,
       submitCommand lowRolls "  xyzzy " initializeGame
       = Some (reply, snd (processCommand lowRolls "  xyzzy " initializeGame))
       /\ reply = "I don't understand 'xyzzy'. Type 'help' for available commands.".
Proof.
  assert (Hne : trim "  xyzzy " <> "") by (vm_compute; discriminate).
  assert (Hverb : isVerb (action "  xyzzy ") = false)
    by (vm_compute; reflexivity).
  assert (Hover : isGameOver initializeGame = false)
    by (vm_compute; reflexivity).
  split; [exact Hne|]. split; [exact Hverb|]. split; [exact Hover|].
  destruct (X25_input_field_trims_and_skips_blanks initializeGame lowRolls
              "  xyzzy ") as [_ Hsome].
  destruct (Hsome Hne) as (reply & Hsubmit & _ & Hreply).
  exists reply. split; [exact Hsubmit|]. rewrite (Hreply Hverb Hover).
  vm_compute. reflexivity.
Defined.
